(** * Evergreen scanner: image references, version ordering, update resolution
      and Dockerfile rewriting

    Shallow embedding of
      - labs/lab-10-evergreen-pipeline/evergreen_scanner.py
          (DockerImage, UpdateCandidate, DockerHubAPI, DockerfileParser,
           GitLabEvergreenScanner)
      - labs/lab-11-git-ops/python/dockerfile_updater.py
          (DockerfileUpdater)
      - labs/lab-11-git-ops/python/docker_image_checker.py
          (ImageConfig, DockerImageChecker)
      - labs/lab-11-git-ops/python/utils.py
          (Config, write_env_file, read_env_file, EnvironmentManager)

    Python [str] values are modelled as lists of characters.  The character
    classes ([str.isspace], [\d], [\w], [str.upper], [str.lower]) are those of
    Python on the ASCII range; the remaining values of [ascii] are treated as
    caseless characters that are neither blank, digit nor word characters.
    [str.isdigit] alone reaches beyond ASCII here, to the superscript digits
    it accepts and [int] refuses. *)

From Stdlib Require Import List Ascii String NArith ZArith Bool Arith Lia Sorted.
Import ListNotations.

Local Open Scope char_scope.
Local Open Scope list_scope.

(* ================================================================== *)
(** ** Python strings *)
(* ================================================================== *)

Definition str := list ascii.

(** String literals of the source. *)
Definition lit (s : string) : str := list_ascii_of_string s.

Definition str_eqb (a b : str) : bool :=
  if list_eq_dec ascii_dec a b then true else false.

Definition code (c : ascii) : nat := nat_of_ascii c.

Definition in_range (lo hi : nat) (c : ascii) : bool :=
  (lo <=? code c)%nat && (code c <=? hi)%nat.

(** [str.isspace] on one character: TAB, LF, VT, FF, CR, FS, GS, RS, US and
    the blank.  This is also the class [\s] of [re]. *)
Definition is_space (c : ascii) : bool :=
  in_range 9 13 c || in_range 28 32 c.

(** [\d] *)
Definition is_digit (c : ascii) : bool := in_range 48 57 c.

Definition is_upper (c : ascii) : bool := in_range 65 90 c.
Definition is_lower (c : ascii) : bool := in_range 97 122 c.

(** [\w] *)
Definition is_word (c : ascii) : bool :=
  is_digit c || is_upper c || is_lower c || Ascii.eqb c "_".

Definition upper_char (c : ascii) : ascii :=
  if is_lower c then ascii_of_nat (code c - 32) else c.

Definition lower_char (c : ascii) : ascii :=
  if is_upper c then ascii_of_nat (code c + 32) else c.

(** [s.upper()], [s.lower()] *)
Definition upper (s : str) : str := map upper_char s.
Definition lower (s : str) : str := map lower_char s.

(** [s.startswith(p)] *)
Fixpoint startswith (p s : str) : bool :=
  match p, s with
  | [], _ => true
  | _ :: _, [] => false
  | a :: p', b :: s' => Ascii.eqb a b && startswith p' s'
  end.

(** [sub in s] *)
Fixpoint contains (sub s : str) : bool :=
  startswith sub s ||
  match s with
  | [] => false
  | _ :: s' => contains sub s'
  end.

(** [c in s] for a single character *)
Definition has_char (c : ascii) (s : str) : bool := existsb (Ascii.eqb c) s.

(** [s.count(c)] for a single character *)
Definition count (c : ascii) (s : str) : nat :=
  List.length (filter (Ascii.eqb c) s).

(** [s.lstrip()], [s.rstrip()], [s.strip()] *)
Fixpoint lstrip (s : str) : str :=
  match s with
  | [] => []
  | c :: s' => if is_space c then lstrip s' else s
  end.

Definition rstrip (s : str) : str := rev (lstrip (rev s)).

Definition strip (s : str) : str := rstrip (lstrip s).

(** [s.split(c)] for a one-character separator: never empty. *)
Fixpoint split_char (c : ascii) (s : str) : list str :=
  match s with
  | [] => [[]]
  | x :: s' =>
      if Ascii.eqb x c then [] :: split_char c s'
      else match split_char c s' with
           | h :: t => (x :: h) :: t
           | [] => [[x]]
           end
  end.

(** [s.split(sep)[0]]: the text before the first occurrence of a non-empty
    separator, the whole of [s] when there is none. *)
Fixpoint before (sep s : str) : str :=
  if startswith sep s then []
  else match s with
       | [] => []
       | c :: s' => c :: before sep s'
       end.

(** [s.rsplit(c, 1)] when [c in s]: the text before and after the last [c]. *)
Fixpoint rsplit1 (c : ascii) (s : str) : option (str * str) :=
  match s with
  | [] => None
  | x :: s' =>
      match rsplit1 c s' with
      | Some (a, b) => Some (x :: a, b)
      | None => if Ascii.eqb x c then Some ([], s') else None
      end
  end.

(** [sep.join(parts)] for a one-character separator *)
Fixpoint join (c : ascii) (parts : list str) : str :=
  match parts with
  | [] => []
  | [p] => p
  | p :: rest => p ++ c :: join c rest
  end.

(** [s.replace(old, new)] for a non-empty [old]: occurrences are found from
    the left and do not overlap.  [skip] counts the characters of the
    occurrence just replaced that are still to be passed over. *)
Fixpoint replace_from (old new : str) (skip : nat) (s : str) : str :=
  match s with
  | [] => []
  | c :: s' =>
      match skip with
      | S k => replace_from old new k s'
      | O =>
          if startswith old s
          then new ++ replace_from old new (List.length old - 1) s'
          else c :: replace_from old new 0 s'
      end
  end.

Definition replace (old new s : str) : str := replace_from old new 0 s.

(* ================================================================== *)
(** ** DockerHubAPI: version classification and ordering *)
(* ================================================================== *)

(** Longest prefix of characters of a class, and the rest. *)
Fixpoint span (p : ascii -> bool) (s : str) : str * str :=
  match s with
  | [] => ([], [])
  | c :: s' =>
      if p c then let (a, b) := span p s' in (c :: a, b)
      else ([], s)
  end.

(** The number that a run of decimal digits denotes. *)
Definition int_of (ds : str) : N :=
  fold_left (fun acc c => (10 * acc + N.of_nat (code c - 48))%N) ds 0%N.

(** [int(ds)] raises [ValueError] on a run of more than
    [sys.int_max_str_digits] digits; the limit is a parameter of the
    interpreter, 4300 unless it is set otherwise, and 0 turns it off. *)
Definition too_long (int_max_str_digits : nat) (ds : str) : bool :=
  (0 <? int_max_str_digits)%nat
  && (int_max_str_digits <? List.length ds)%nat.

(** An optional leading [v]. *)
Definition drop_v (tag : str) : str :=
  match tag with
  | "v" :: r => r
  | _ => tag
  end.

(** The prefix [^v?(\d+)\.(\d+)(?:\.(\d+))?] shared by both patterns: the
    three captured groups (the third may be absent) and the unmatched rest.
    Every repetition is greedy and none can give back a character, so the
    match, when there is one, is unique. *)
Definition match_version (tag : str) : option (str * str * option str * str) :=
  let (major, r1) := span is_digit (drop_v tag) in
  match major, r1 with
  | _ :: _, "." :: r2 =>
      let (minor, r3) := span is_digit r2 in
      match minor with
      | [] => None
      | _ :: _ =>
          match r3 with
          | "." :: r4 =>
              let (patch, r5) := span is_digit r4 in
              match patch with
              | [] => Some (major, minor, None, r3)
              | _ :: _ => Some (major, minor, Some patch, r5)
              end
          | _ => Some (major, minor, None, r3)
          end
      end
  | _, _ => None
  end.

(** [$]: the end of the string, or just before a final line feed. *)
Definition at_end (s : str) : bool :=
  match s with
  | [] => true
  | [c] => Ascii.eqb c "010"
  | _ => false
  end.

(** Class [[\w\.-]] of the suffix. *)
Definition is_suffix_char (c : ascii) : bool :=
  is_word c || Ascii.eqb c "." || Ascii.eqb c "-".

(** [(?:-[\w\.-]+)?$] *)
Definition match_suffix (s : str) : bool :=
  at_end s ||
  match s with
  | "-" :: r =>
      let (body, rest) := span is_suffix_char r in
      match body with
      | [] => false
      | _ :: _ => at_end rest
      end
  | _ => false
  end.

(** [DockerHubAPI._is_semantic_version] *)
Definition _is_semantic_version (tag : str) : bool :=
  match match_version tag with
  | Some (_, _, _, rest) => match_suffix rest
  | None => false
  end.

Definition version := (N * N * N)%type.

(** [version_key], local to [_get_latest_semantic_version], in two parts:
    the key it returns when each of its calls of [int] returns, *)
Definition version_key (tag : str) : version :=
  match match_version tag with
  | Some (major, minor, patch, _) =>
      (int_of major, int_of minor,
       match patch with Some p => int_of p | None => 0%N end)
  | None => (0%N, 0%N, 0%N)
  end.

(** and the condition under which one of them raises [ValueError] instead:
    a captured group has more digits than [int] converts.
    [_get_latest_semantic_version] tests the second before it uses the
    first. *)
Definition version_key_raises (int_max_str_digits : nat) (tag : str) : bool :=
  match match_version tag with
  | Some (major, minor, patch, _) =>
      too_long int_max_str_digits major
      || too_long int_max_str_digits minor
      || match patch with
         | Some p => too_long int_max_str_digits p
         | None => false
         end
  | None => false
  end.

(** Python's order on tuples of integers: [a < b]. *)
Definition version_ltb (a b : version) : bool :=
  let '(a1, a2, a3) := a in
  let '(b1, b2, b3) := b in
  (a1 <? b1)%N ||
  ((a1 =? b1)%N && ((a2 <? b2)%N || ((a2 =? b2)%N && (a3 <? b3)%N))).

Definition version_leb (a b : version) : bool := negb (version_ltb b a).

(** The loop of the builtin [max(iterable, key=...)]: the running maximum is
    replaced only by an item whose key is strictly greater. *)
Fixpoint max_loop {A} (key : A -> version) (best : A) (l : list A) : A :=
  match l with
  | [] => best
  | x :: l' =>
      if version_ltb (key best) (key x) then max_loop key x l'
      else max_loop key best l'
  end.

(** [max(l, key=key)]; [None] stands for the [ValueError] raised on an empty
    sequence. *)
Definition py_max {A} (key : A -> version) (l : list A) : option A :=
  match l with
  | [] => None
  | x :: l' => Some (max_loop key x l')
  end.

(** [DockerHubAPI._get_latest_semantic_version]: [None] stands for the
    [ValueError] that [max] raises on an empty list, or lets through when
    the key of one of the tags raises it. *)
Definition _get_latest_semantic_version (int_max_str_digits : nat)
    (tags : list str) : option str :=
  if existsb (version_key_raises int_max_str_digits) tags then None
  else py_max version_key tags.

(** [DockerHubAPI.get_latest_tag], after the HTTP request: [response] holds
    the tag names of the [results] of the reply, [None] when the request or the
    decoding of the reply raised (both [except] clauses return [None], and so
    does the [ValueError] of [_get_latest_semantic_version], caught by the
    second). *)
Definition get_latest_tag (int_max_str_digits : nat)
    (response : option (list str)) : option str :=
  match response with
  | None => None
  | Some tags =>
      let semantic_tags := filter _is_semantic_version tags in
      match semantic_tags with
      | _ :: _ => _get_latest_semantic_version int_max_str_digits semantic_tags
      | [] =>
          if existsb (str_eqb (lit "latest")) tags
          then Some (lit "latest")
          else None
      end
  end.

(* ================================================================== *)
(** ** DockerImage, UpdateCandidate *)
(* ================================================================== *)

Record DockerImage := mkDockerImage {
  name : str;
  tag : str;
  registry : option str
}.

(** [DockerImage.__str__]: an absent or empty registry is left out. *)
Definition image_str (image : DockerImage) : str :=
  match registry image with
  | Some (c :: r) => (c :: r) ++ "/" :: name image ++ ":" :: tag image
  | _ => name image ++ ":" :: tag image
  end.

Record UpdateCandidate := mkUpdateCandidate {
  current_image : DockerImage;
  latest_image : DockerImage;
  dockerfile_path : str;
  line_number : nat
}.

(* ================================================================== *)
(** ** DockerfileParser *)
(* ================================================================== *)

(** The first statements of [_parse_from_statement]: the text after the
    [FROM ] prefix, trimmed, with the [AS] clause cut off. *)
Definition image_part_of (from_line : str) : str :=
  let image_part := strip (skipn 5 from_line) in
  if contains (lit " AS ") (upper image_part)
  then strip (before (lit " AS ") image_part)
  else image_part.

(** The rest of [_parse_from_statement], on the image part. *)
Definition parse_image_part (image_part : str) : option DockerImage :=
  if str_eqb (lower image_part) (lit "scratch")
     || startswith (lit "$") image_part
  then None
  else if has_char "/" image_part && (2 <=? count "/" image_part)%nat
  then
    let parts := split_char "/" image_part in
    let last_part := last parts [] in
    let registry := hd [] parts in
    let name :=
      join "/" (removelast (tl parts)) ++
      "/" :: hd [] (split_char ":" last_part) in
    let tag :=
      if has_char ":" last_part
      then nth 1 (split_char ":" last_part) []
      else lit "latest" in
    Some (mkDockerImage name tag (Some registry))
  else
    match (if has_char ":" image_part then rsplit1 ":" image_part
           else None) with
    | Some (name, tag) => Some (mkDockerImage name tag None)
    | None => Some (mkDockerImage image_part (lit "latest") None)
    end.

(** [DockerfileParser._parse_from_statement] *)
Definition _parse_from_statement (from_line : str) : option DockerImage :=
  parse_image_part (image_part_of from_line).

(** The loop of [parse_dockerfile] over the lines. *)
Fixpoint parse_lines (lines : list str) : list DockerImage :=
  match lines with
  | [] => []
  | line :: rest =>
      let line := strip line in
      if startswith (lit "FROM ") line
      then match _parse_from_statement line with
           | Some image => image :: parse_lines rest
           | None => parse_lines rest
           end
      else parse_lines rest
  end.

(** [DockerfileParser.parse_dockerfile] *)
Definition parse_dockerfile (content : str) : list DockerImage :=
  parse_lines (split_char "010" content).

(* ================================================================== *)
(** ** GitLabEvergreenScanner *)
(* ================================================================== *)

(** [GitLabEvergreenScanner._should_check_image] *)
Definition _should_check_image (image : DockerImage) : bool :=
  if str_eqb (tag image) (lit "latest") then false
  else
    match registry image with
    | Some (c :: r) =>
        if negb (contains (lit "docker.io") (c :: r)) then false else true
    | _ => true
    end.

(** The body of the loop of [_scan_dockerfile] for the image of index [i]:
    [response] is what Docker Hub answers for the image's name. *)
Definition scan_image (int_max_str_digits : nat) (path : str) (i : nat)
    (image : DockerImage)
    (response : option (list str)) : option UpdateCandidate :=
  if _should_check_image image then
    match get_latest_tag int_max_str_digits response with
    | Some latest_tag =>
        match latest_tag with
        | [] => None
        | _ :: _ =>
            if negb (str_eqb latest_tag (tag image))
            then Some (mkUpdateCandidate image
                         (mkDockerImage (name image) latest_tag
                            (registry image))
                         path (i + 1))
            else None
        end
    | None => None
    end
  else None.

Fixpoint scan_images (int_max_str_digits : nat)
    (hub : str -> option (list str)) (path : str) (i : nat)
    (images : list DockerImage) : list UpdateCandidate :=
  match images with
  | [] => []
  | image :: rest =>
      match scan_image int_max_str_digits path i image (hub (name image)) with
      | Some candidate =>
          candidate :: scan_images int_max_str_digits hub path (S i) rest
      | None => scan_images int_max_str_digits hub path (S i) rest
      end
  end.

(** [GitLabEvergreenScanner._scan_dockerfile] on the decoded content of the
    file; [hub] is the Docker Hub tag listing. *)
Definition _scan_dockerfile (int_max_str_digits : nat)
    (hub : str -> option (list str))
    (path content : str) : list UpdateCandidate :=
  scan_images int_max_str_digits hub path 0 (parse_dockerfile content).

(** The text [_update_dockerfile] commits: every occurrence of the current
    reference replaced by the latest one. *)
Definition updated_content (content : str) (candidate : UpdateCandidate)
    : str :=
  replace (image_str (current_image candidate))
          (image_str (latest_image candidate)) content.

(** [GitLabEvergreenScanner._update_dockerfile]: [file] is the content of the
    Dockerfile on the main branch, [None] when it cannot be fetched (the
    exception is raised again).  The result is the content saved on the
    branch. *)
Definition _update_dockerfile (file : option str)
    (candidate : UpdateCandidate) : option str :=
  match file with
  | None => None
  | Some content => Some (updated_content content candidate)
  end.

(* ================================================================== *)
(** ** DockerfileUpdater *)
(* ================================================================== *)

(** The Dockerfile on disk: the text it holds when it can be read, and
    whether it can be written. *)
Record FileSystem := mkFileSystem {
  dockerfile : option str;
  writable : bool
}.

(** Reading in text mode: [\r\n] and [\r] come out as [\n]. *)
Fixpoint universal_newlines (s : str) : str :=
  match s with
  | [] => []
  | c :: rest =>
      if Ascii.eqb c "013"
      then match rest with
           | "010" :: r => "010" :: universal_newlines r
           | _ => "010" :: universal_newlines rest
           end
      else c :: universal_newlines rest
  end.

(** What a call does: it returns a value or lets an exception escape. *)
Inductive outcome (A : Type) :=
| Returned (a : A)
| Raised.
Arguments Returned {A} a.
Arguments Raised {A}.

(** [DockerfileUpdater.read_dockerfile]: the file is opened in text
    mode. *)
Definition read_dockerfile (fs : FileSystem) : option str :=
  match dockerfile fs with
  | None => None
  | Some text => Some (universal_newlines text)
  end.

(** [DockerfileUpdater.write_dockerfile]: a line feed is written as it
    is (the line separator of the systems the pipeline runs on). *)
Definition write_dockerfile (fs : FileSystem) (content : str)
    : bool * FileSystem :=
  if writable fs then (true, mkFileSystem (Some content) true)
  else (false, fs).

(** [re.search] of a literal prefix followed by [([^\s]+)]: the group of the
    leftmost match. *)
Fixpoint search_version (prefix s : str) : option str :=
  let here :=
    if startswith prefix s
    then fst (span (fun c => negb (is_space c)) (skipn (List.length prefix) s))
    else [] in
  match here with
  | _ :: _ => Some here
  | [] =>
      match s with
      | [] => None
      | _ :: s' => search_version prefix s'
      end
  end.

(** [DockerfileUpdater.get_current_image_version] *)
Definition get_current_image_version (fs : FileSystem) (image_name : str)
    : option str :=
  match read_dockerfile fs with
  | None | Some [] => None
  | Some content =>
      search_version (lit "FROM " ++ image_name ++ [":"]) content
  end.

Section Updater.

(** [re.sub] expands its replacement template before substituting: escape
    sequences are decoded, and a malformed template raises [re.error].  The
    expansion belongs to the [re] library; it is a parameter here, from the
    template and the matched text to the inserted text ([None]: error). *)
Variable expand_template : str -> str -> option str.

(** [re.sub(re.escape(old), template, s)] *)
Definition re_sub (old template s : str) : option str :=
  match expand_template template old with
  | None => None
  | Some new => Some (replace old new s)
  end.

(** [DockerfileUpdater.update_image_version] (the [show_detailed] printing
    left out). *)
Definition update_image_version (fs : FileSystem)
    (image_name new_version : str) : outcome bool * FileSystem :=
  match read_dockerfile fs with
  | None | Some [] => (Returned false, fs)
  | Some content =>
      match get_current_image_version fs image_name with
      | None | Some [] => (Returned false, fs)
      | Some current_version =>
          if str_eqb current_version new_version
          then (Returned true, fs)
          else
            let pattern :=
              lit "FROM " ++ image_name ++ ":" :: current_version in
            let replacement :=
              lit "FROM " ++ image_name ++ ":" :: new_version in
            match re_sub pattern replacement content with
            | None => (Raised, fs)
            | Some new_content =>
                if str_eqb new_content content
                then (Returned false, fs)
                else
                  let (ok, fs') := write_dockerfile fs new_content in
                  if negb ok then (Returned false, fs')
                  else
                    match get_current_image_version fs' image_name with
                    | Some updated_version =>
                        if str_eqb updated_version new_version
                        then (Returned true, fs')
                        else (Returned false, fs')
                    | None => (Returned false, fs')
                    end
            end
      end
  end.

End Updater.

(** An expansion for the examples: a template without backslash expands to
    itself; a template with a backslash is refused here, and no example
    below uses one. *)
Definition plain_template (template matched : str) : option str :=
  if has_char "\" template then None else Some template.

(* ================================================================== *)
(** ** GitLabEvergreenScanner: the files of the repository *)
(* ================================================================== *)

(** [os.path.basename] of a POSIX path: what follows the last [/]. *)
Definition basename (path : str) : str :=
  match rsplit1 "/" path with
  | Some (_, b) => b
  | None => path
  end.

(** [s.endswith(suffix)] *)
Definition endswith (suffix s : str) : bool :=
  startswith (rev suffix) (rev s).

(** The test [_filter_dockerfiles] makes on a path. *)
Definition is_dockerfile (file_path : str) : bool :=
  let filename := lower (basename file_path) in
  str_eqb filename (lit "dockerfile")
  || startswith (lit "dockerfile.") filename
  || endswith (lit ".dockerfile") filename.

(** [GitLabEvergreenScanner._filter_dockerfiles] *)
Definition _filter_dockerfiles (files : list str) : list str :=
  filter is_dockerfile files.

(** [GitLabEvergreenScanner._scan_dockerfile] from the path: [fetch] gives
    the decoded content of a file of the main branch, [None] when the file
    cannot be fetched or decoded; the exception is logged and the file gives
    no candidate. *)
Definition scan_path (int_max_str_digits : nat)
    (hub : str -> option (list str))
    (fetch : str -> option str) (path : str) : list UpdateCandidate :=
  match fetch path with
  | Some content => _scan_dockerfile int_max_str_digits hub path content
  | None => []
  end.

(** [GitLabEvergreenScanner.scan_dockerfiles]: [listing] is the result of
    [_get_all_repository_files], [None] when listing the repository raises;
    the exception is logged and nothing is scanned. *)
Definition scan_dockerfiles (int_max_str_digits : nat)
    (hub : str -> option (list str))
    (fetch : str -> option str) (listing : option (list str))
    : list UpdateCandidate :=
  match listing with
  | None => []
  | Some files =>
      flat_map (scan_path int_max_str_digits hub fetch)
        (_filter_dockerfiles files)
  end.

(* ================================================================== *)
(** ** DockerImageChecker *)
(* ================================================================== *)

(** [ImageConfig].  [tag_filter] stands for the compiled pattern: the test
    [pattern.match(tag)] makes on a tag. *)
Record ImageConfig := mkImageConfig {
  config_name : str;
  tag_filter : str -> bool;
  sort_method : str;
  display_name : str
}.

(** [ImageConfig.__post_init__]: a configuration with another sort method
    than [-V] or [-n] is refused with [ValueError]. *)
Definition image_config (name : str) (filter : str -> bool)
    (sort display : str) : option ImageConfig :=
  if str_eqb sort (lit "-V") || str_eqb sort (lit "-n")
  then Some (mkImageConfig name filter sort display)
  else None.

(** [re.compile(r"^[0-9]+\.[0-9]+(\.[0-9]+)?-slim$").match]: the classes
    and the literals that follow them are disjoint, so the match is found
    without going back, except over an optional group that has no digit. *)
Definition python_slim (tag : str) : bool :=
  let (major, r1) := span is_digit tag in
  match major, r1 with
  | _ :: _, "." :: r2 =>
      let (minor, r3) := span is_digit r2 in
      match minor with
      | [] => false
      | _ :: _ =>
          let rest :=
            match r3 with
            | "." :: r4 =>
                let (patch, r5) := span is_digit r4 in
                match patch with
                | [] => r3
                | _ :: _ => r5
                end
            | _ => r3
            end in
          startswith (lit "-slim") rest && at_end (skipn 5 rest)
      end
  | _, _ => false
  end.

(** [DockerImageChecker.IMAGE_CONFIGS] *)
Definition IMAGE_CONFIGS : list ImageConfig :=
  [mkImageConfig (lit "python") python_slim (lit "-V") (lit "Python slim")].

(** Comparison of tuples of integers: lexicographic, a proper prefix
    before its extensions. *)
Fixpoint tuple_ltb (a b : list Z) : bool :=
  match a, b with
  | [], [] => false
  | [], _ :: _ => true
  | _ :: _, [] => false
  | x :: a', y :: b' => (x <? y)%Z || ((x =? y)%Z && tuple_ltb a' b')
  end.

(** [list.sort(key=...)]: the sort is stable, which fixes its result; it
    is computed here by insertion from the right, a new element going
    before the first element that is not smaller. *)
Fixpoint insert_sorted {A K} (ltb : K -> K -> bool) (key : A -> K) (x : A)
    (l : list A) : list A :=
  match l with
  | [] => [x]
  | y :: l' =>
      if ltb (key y) (key x) then y :: insert_sorted ltb key x l'
      else x :: l
  end.

Fixpoint py_sort {A K} (ltb : K -> K -> bool) (key : A -> K) (l : list A)
    : list A :=
  match l with
  | [] => []
  | x :: l' => insert_sorted ltb key x (py_sort ltb key l')
  end.

(** A character that [str.isdigit] takes for a digit: a decimal digit, or
    one of the superscript digits two, three and one (codes 178, 179 and
    185), which [int] does not convert. *)
Definition is_digit_like (c : ascii) : bool :=
  is_digit c
  || (code c =? 178)%nat || (code c =? 179)%nat || (code c =? 185)%nat.

(** [x.isdigit()] *)
Definition isdigit (x : str) : bool :=
  match x with
  | [] => false
  | _ :: _ => forallb is_digit_like x
  end.

(** The blanks [int] skips around a numeral. *)
Definition is_int_space (c : ascii) : bool :=
  in_range 9 13 c || Ascii.eqb c " ".

Fixpoint drop_while (p : ascii -> bool) (s : str) : str :=
  match s with
  | [] => []
  | c :: s' => if p c then drop_while p s' else s
  end.

Definition int_strip (s : str) : str :=
  rev (drop_while is_int_space (rev (drop_while is_int_space s))).

(** The digits of a numeral of [int]: groups of digits separated by single
    underscores, with the underscores taken out; [None] for anything
    else. *)
Fixpoint digit_groups (s : str) : option str :=
  match s with
  | [] => None
  | d :: r =>
      if is_digit d then
        match r with
        | [] => Some [d]
        | "_" :: r' =>
            match digit_groups r' with
            | Some ds => Some (d :: ds)
            | None => None
            end
        | _ :: _ =>
            match digit_groups r with
            | Some ds => Some (d :: ds)
            | None => None
            end
        end
      else None
  end.

Section Checker.

(** [sys.int_max_str_digits]: the greatest number of digits [int] converts,
    0 for no limit. *)
Variable int_max_str_digits : nat.

(** [int(s)] on a string: [None] for [ValueError]. *)
Definition py_int (s : str) : option Z :=
  let t := int_strip s in
  let (negative, body) :=
    match t with
    | "+" :: r => (false, r)
    | "-" :: r => (true, r)
    | _ => (false, t)
    end in
  match digit_groups body with
  | None => None
  | Some ds =>
      if (0 <? int_max_str_digits)%nat
         && (int_max_str_digits <? List.length ds)%nat
      then None
      else Some (if negative : bool then (- Z.of_N (int_of ds))%Z
                 else Z.of_N (int_of ds))
  end.

(** [DockerImageChecker._version_key] *)
Definition _version_key (version : str) : list Z :=
  let version_part := hd [] (split_char "-" version) in
  map (fun part => match py_int part with
                   | Some n => n
                   | None => 0%Z
                   end)
      (split_char "." version_part).

(** The key of the numeric sort, [int(x) if x.isdigit() else 0]: [None]
    when [int] raises. *)
Definition numeric_key (x : str) : option Z :=
  if isdigit x then py_int x else Some 0%Z.

(** [DockerImageChecker._filter_and_sort_tags]: the keys of a sort are
    computed before anything is moved, so the numeric sort raises as soon
    as one key does. *)
Definition _filter_and_sort_tags (tags : list str) (tag_filter : str -> bool)
    (sort_method : str) : outcome (option str) :=
  match tags with
  | [] => Returned None
  | _ :: _ =>
      let filtered_tags := filter tag_filter tags in
      match filtered_tags with
      | [] => Returned None
      | _ :: _ =>
          if str_eqb sort_method (lit "-V")
          then Returned
                 (Some (last (py_sort tuple_ltb _version_key filtered_tags) []))
          else if str_eqb sort_method (lit "-n")
          then
            if forallb (fun x => match numeric_key x with
                                 | Some _ => true
                                 | None => false
                                 end) filtered_tags
            then Returned
                   (Some (last (py_sort Z.ltb
                                  (fun x => match numeric_key x with
                                            | Some n => n
                                            | None => 0%Z
                                            end) filtered_tags) []))
            else Raised
          else Returned (Some (last filtered_tags []))
      end
  end.

(** [DockerImageChecker._get_current_image_version] *)
Definition _get_current_image_version (fs : FileSystem) (image_name : str)
    : option str :=
  match dockerfile fs with
  | None => None
  | Some text =>
      search_version (lit "FROM " ++ image_name ++ [":"])
        (universal_newlines text)
  end.

(** What [_fetch_docker_tags] gives for an image: the names of the tags,
    [None] after a network or JSON error, or an exception of another
    kind. *)
Variable fetch : str -> outcome (option (list str)).

(** [DockerImageChecker.check_image_update] (both modes return the same). *)
Definition check_image_update (fs : FileSystem) (image_config : ImageConfig)
    : outcome bool :=
  match fetch (config_name image_config) with
  | Raised => Raised
  | Returned None | Returned (Some []) => Returned false
  | Returned (Some tags) =>
      match _filter_and_sort_tags tags (tag_filter image_config)
              (sort_method image_config) with
      | Raised => Raised
      | Returned None | Returned (Some []) => Returned false
      | Returned (Some latest_tag) =>
          match _get_current_image_version fs (config_name image_config) with
          | None | Some [] => Returned false
          | Some current_version =>
              Returned (negb (str_eqb current_version latest_tag))
          end
      end
  end.

(** [DockerImageChecker.check_all_updates] over the configurations: an
    exception is logged and the loop goes on. *)
Definition check_all_updates (fs : FileSystem) (configs : list ImageConfig)
    : bool :=
  fold_left
    (fun updates_needed image_config =>
       match check_image_update fs image_config with
       | Returned true => true
       | _ => updates_needed
       end)
    configs false.

(** The working directory of [update_all_images]: the Dockerfile, whether
    its path exists, and the backup beside it. *)
Record Workspace := mkWorkspace {
  files : FileSystem;
  present : bool;
  backup : option str;
  backup_writable : bool
}.

(** [check_file_exists(path, required=False)] *)
Definition check_file_exists (ws : Workspace) : bool := present ws.

(** [DockerfileUpdater.backup_dockerfile] *)
Definition backup_dockerfile (ws : Workspace) : bool * Workspace :=
  match read_dockerfile (files ws) with
  | None => (false, ws)
  | Some content =>
      if backup_writable ws
      then (true, mkWorkspace (files ws) (present ws) (Some content) true)
      else (false, ws)
  end.

Variable expand_template : str -> str -> option str.

(** One turn of the loop of [update_all_images], on the Dockerfile, the
    list [updated_images] and the flag [overall_success]. *)
Definition update_step (state : FileSystem * list str * bool)
    (image_config : ImageConfig) : FileSystem * list str * bool :=
  let '(fs, updated_images, overall_success) := state in
  match fetch (config_name image_config) with
  | Raised => (fs, updated_images, false)
  | Returned None | Returned (Some []) => state
  | Returned (Some tags) =>
      match _filter_and_sort_tags tags (tag_filter image_config)
              (sort_method image_config) with
      | Raised => (fs, updated_images, false)
      | Returned None | Returned (Some []) => state
      | Returned (Some latest_tag) =>
          match update_image_version expand_template fs
                  (config_name image_config) latest_tag with
          | (Returned true, fs') =>
              (fs',
               updated_images
               ++ [config_name image_config ++ ":" :: latest_tag],
               overall_success)
          | (_, fs') => (fs', updated_images, false)
          end
      end
  end.

(** [DockerfileUpdater.update_all_images] over the configurations (the
    printing left out). *)
Definition update_all_images (ws : Workspace) (configs : list ImageConfig)
    : (bool * list str) * Workspace :=
  if negb (check_file_exists ws) then ((false, []), ws)
  else
    let (_, ws1) := backup_dockerfile ws in
    let '(fs, updated_images, overall_success) :=
      fold_left update_step configs (files ws1, [], true) in
    ((overall_success, updated_images),
     mkWorkspace fs (present ws1) (backup ws1) (backup_writable ws1)).

End Checker.

(* ================================================================== *)
(** ** utils: configuration and environment files *)
(* ================================================================== *)

(** The fields of [Config] that [validate] and [get_repo_url] read; a
    variable that is not set reads as [None]. *)
Record Config := mkConfig {
  access_token : option str;
  ci_project_id : option str;
  ci_project_url : option str;
  ci_api_v4_url : option str
}.

(** The truth value of an optional string: set and not empty. *)
Definition truthy (v : option str) : bool :=
  match v with
  | Some (_ :: _) => true
  | _ => false
  end.

(** [Config.validate] *)
Definition validate (config : Config) : bool :=
  let required_vars :=
    (if negb (truthy (access_token config)) then [lit "ACCESS_TOKEN"] else [])
    ++ (if negb (truthy (ci_project_id config)) then [lit "CI_PROJECT_ID"]
        else [])
    ++ (if negb (truthy (ci_project_url config)) then [lit "CI_PROJECT_URL"]
        else [])
    ++ (if negb (truthy (ci_api_v4_url config)) then [lit "CI_API_V4_URL"]
        else []) in
  match required_vars with
  | _ :: _ => false
  | [] => true
  end.

(** [Config.get_repo_url] *)
Definition get_repo_url (config : Config) : outcome str :=
  match ci_project_url config, access_token config with
  | Some (u :: url), Some (t :: token) =>
      Returned (replace (lit "://")
                  (lit "://oauth2:" ++ (t :: token) ++ lit "@") (u :: url))
  | _, _ => Raised
  end.

(** A [dict] with string keys, in insertion order: setting a key that is
    present changes its value in place. *)
Definition dict := list (str * str).

Fixpoint dict_set (d : dict) (key value : str) : dict :=
  match d with
  | [] => [(key, value)]
  | (k, v) :: rest =>
      if str_eqb k key then (k, value) :: rest
      else (k, v) :: dict_set rest key value
  end.

Fixpoint dict_get (d : dict) (key : str) : option str :=
  match d with
  | [] => None
  | (k, v) :: rest => if str_eqb k key then Some v else dict_get rest key
  end.

(** The lines a file object yields, each with its line feed. *)
Fixpoint file_lines (s : str) : list str :=
  match s with
  | [] => []
  | c :: rest =>
      if Ascii.eqb c "010" then ["010"] :: file_lines rest
      else match file_lines rest with
           | [] => [[c]]
           | l :: ls => (c :: l) :: ls
           end
  end.

(** [line.split('=', 1)] when [=] is in the line. *)
Fixpoint split_first (c : ascii) (s : str) : option (str * str) :=
  match s with
  | [] => None
  | x :: s' =>
      if Ascii.eqb x c then Some ([], s')
      else match split_first c s' with
           | Some (a, b) => Some (x :: a, b)
           | None => None
           end
  end.

(** The text [write_env_file] writes for the items of [variables]. *)
Fixpoint env_text (variables : dict) : str :=
  match variables with
  | [] => []
  | (key, value) :: rest => key ++ "=" :: value ++ "010" :: env_text rest
  end.

(** The body of the loop of [read_env_file] on one line. *)
Definition read_env_line (variables : dict) (line : str) : dict :=
  let line := strip line in
  if has_char "=" line && negb (startswith (lit "#") line)
  then match split_first "=" line with
       | Some (key, value) => dict_set variables key value
       | None => variables
       end
  else variables.

(** The process environment and the files of the working directory, by
    name: [None] for a variable that is not set, a file that does not
    exist. *)
Record Environment := mkEnvironment {
  environ : str -> option str;
  env_files : str -> option str;
  env_writable : str -> bool
}.

(** [write_env_file]: the exception of a failed write is raised again. *)
Definition write_env_file (env : Environment) (filename : str)
    (variables : dict) : outcome Environment :=
  if env_writable env filename
  then Returned
         (mkEnvironment (environ env)
            (fun f => if str_eqb f filename then Some (env_text variables)
                      else env_files env f)
            (env_writable env))
  else Raised.

(** [read_env_file] *)
Definition read_env_file (env : Environment) (filename : str) : dict :=
  match env_files env filename with
  | None => []
  | Some text =>
      fold_left read_env_line (file_lines (universal_newlines text)) []
  end.




Definition set_feature_branch (env : Environment) (branch_name : str)
    : outcome Environment :=
  write_env_file env (lit "branch.env") [(lit "FEATURE_BRANCH", branch_name)].




(** [EnvironmentManager.get_feature_branch] *)
Definition get_feature_branch (env : Environment) : option str :=
  match environ env (lit "FEATURE_BRANCH") with
  | Some (c :: v) => Some (c :: v)
  | _ =>
      match dict_get (read_env_file env (lit "branch.env"))
              (lit "FEATURE_BRANCH") with
      | Some (c :: branch) => Some (c :: branch)
      | _ => None
      end
  end.

(* ================================================================== *)
(** ** Vocabulary of the statements *)
(* ================================================================== *)

(** A text of blank characters only. *)
Definition blank (w : str) : Prop := forallb is_space w = true.

(** A string that neither begins nor ends with a blank character. *)
Definition trimmed (s : str) : Prop := lstrip s = s /\ rstrip s = s.

(** The lexicographic order on [(major, minor, patch)], components compared
    as numbers. *)
Definition version_lt (a b : version) : Prop :=
  let '(a1, a2, a3) := a in
  let '(b1, b2, b3) := b in
  (a1 < b1 \/ (a1 = b1 /\ (a2 < b2 \/ (a2 = b2 /\ a3 < b3))))%N.

(** The canonical host of the default registry. *)
Definition canonical_host : str := lit "docker.io".

(** C3 as the specification words it: an image whose tag is [latest], or
    whose registry is a host other than the canonical host of the default
    registry, is never given an update, whatever tags are available. *)
Definition skip_rule_as_stated : Prop :=
  forall (limit : nat) (path : str) (i : nat) (image : DockerImage)
         (response : option (list str)),
    tag image = lit "latest" \/
    (exists r, registry image = Some r /\ r <> canonical_host) ->
    scan_image limit path i image response = None.

(** C4 as the specification words it, on a reference with two or more [/]:
    the first segment is the registry, the final segment is split on its last
    [:], its left side goes back into the name, its right side is the tag,
    and the tag is [latest] when the final segment has no [:]. *)
Definition registry_reference (ref : str) : DockerImage :=
  let parts := split_char "/" ref in
  let remaining := tl parts in
  match rsplit1 ":" (last parts []) with
  | Some (left_side, right_side) =>
      mkDockerImage (join "/" (removelast remaining ++ [left_side])) right_side
        (Some (hd [] parts))
  | None =>
      mkDockerImage (join "/" remaining) (lit "latest") (Some (hd [] parts))
  end.

Definition registry_rule_as_stated : Prop :=
  forall from_line : str,
    (2 <= count "/" (image_part_of from_line))%nat ->
    _parse_from_statement from_line
    = Some (registry_reference (image_part_of from_line)).

(** C9 as the specification words it: the name of a parsed image is not
    empty, and its tag is [latest] when the final segment of the reference
    carries no [:tag]. *)
Definition parser_invariant_as_stated : Prop :=
  forall (content : str) (image : DockerImage),
    In image (parse_dockerfile content) ->
    name image <> [] /\
    (forall line,
       In line (split_char "010" content) ->
       _parse_from_statement (strip line) = Some image ->
       has_char ":" (last (split_char "/" (image_part_of (strip line))) [])
       = false ->
       tag image = lit "latest").

(** C5 as the specification words it, on the rewriting of the scanner: a
    substitution that leaves the content unchanged is reported as a failure. *)
Definition rewrite_failure_as_stated : Prop :=
  forall (content : str) (candidate : UpdateCandidate),
    updated_content content candidate = content ->
    _update_dockerfile (Some content) candidate = None.

(** C8 as the specification words it: after a successful update, the same
    update applied again does not succeed. *)
Definition second_update_as_stated : Prop :=
  forall (expand_template : str -> str -> option str) (fs fs1 : FileSystem)
         (image_name new_version : str),
    update_image_version expand_template fs image_name new_version
    = (Returned true, fs1) ->
    fst (update_image_version expand_template fs1 image_name new_version)
    <> Returned true.

(** The handling of the [AS] clause in [_parse_from_statement], on the
    trimmed text after [FROM ]. *)
Definition cut_alias (image_part : str) : str :=
  if contains (lit " AS ") (upper image_part)
  then strip (before (lit " AS ") image_part)
  else image_part.

(** A tag made of word characters, dots and hyphens only. *)
Definition plain_tag (t : str) : Prop :=
  t <> [] /\ forallb is_suffix_char t = true.

(** C6 as the specification words it: the Dockerfile rewritten for a
    candidate of the scan, parsed again, holds an image with the tag of the
    candidate's latest image. *)
Definition round_trip_as_stated : Prop :=
  forall (limit : nat) (content path : str) (i : nat) (image : DockerImage)
         (response : option (list str)) (candidate : UpdateCandidate),
    nth_error (parse_dockerfile content) i = Some image ->
    scan_image limit path i image response = Some candidate ->
    exists image',
      In image' (parse_dockerfile (updated_content content candidate)) /\
      tag image' = tag (latest_image candidate).

(** How the reference [image_str] of an image that is checked for updates
    sits in the image part it was parsed from: after [pre0] (empty, or the
    [/] left by an empty registry) and before [tail] (empty, or what follows
    a second [:] of the final segment); and the image part with another
    plain tag parses to the image with that tag. *)
Definition reference_shape (ip : str) (image : DockerImage)
    (c0 : ascii) (pre0 b' tail : str) : Prop :=
  ip = (pre0 ++ b') ++ ":" :: tag image ++ tail /\
  (forall t,
     image_str (mkDockerImage (name image) t (registry image))
     = b' ++ ":" :: t) /\
  has_char ":" pre0 = false /\
  has_char c0 (b' ++ [":"]) = true /\
  is_space c0 = false /\
  has_char c0 (lit " AS ") = false /\
  has_char c0 tail = false /\
  (forall tnew,
     plain_tag tnew ->
     parse_image_part ((pre0 ++ b') ++ ":" :: tnew ++ tail)
     = Some (mkDockerImage (name image) tnew (registry image))).

(** What [re.search] reads at the very start of [s] for the pattern of
    [get_current_image_version]: the run of non-blank characters that
    follows [prefix], empty when [s] does not start with [prefix]. *)
Definition version_here (prefix s : str) : str :=
  if startswith prefix s
  then fst (span (fun c => negb (is_space c)) (skipn (List.length prefix) s))
  else [].

(** A version as [([^\s]+)] captures it: not empty, without blank
    character. *)
Definition token (v : str) : Prop :=
  v <> [] /\ forallb (fun c => negb (is_space c)) v = true.

(** What stops the capture: the end of the text or a blank character. *)
Definition token_end (post : str) : Prop :=
  match post with
  | [] => True
  | c :: _ => is_space c = true
  end.

(** No version can be read in [lead ++ rest] from a position inside
    [lead]. *)
Definition unmatched (prefix lead rest : str) : Prop :=
  forall l1 x l2,
    lead = l1 ++ x :: l2 -> version_here prefix (x :: l2 ++ rest) = [].

(** The limits the interpreter accepts for [sys.int_max_str_digits]: none,
    or at least 640 digits. *)
Definition valid_int_limit (limit : nat) : Prop :=
  limit = 0 \/ 640 <= limit.

(** C1 as the specification words it: on every list with a tag of the
    semantic-version pattern, the selection returns a tag of the list with
    the greatest key. *)
Definition latest_greatest_as_stated : Prop :=
  forall (limit : nat) (tags : list str),
    valid_int_limit limit ->
    existsb _is_semantic_version tags = true ->
    exists t,
      _get_latest_semantic_version limit tags = Some t /\
      In t tags /\
      forall u, In u tags -> ~ version_lt (version_key t) (version_key u).


(** A tag whose major number has 4301 digits, followed by [rest]. *)
Definition long_tag (rest : str) : str := repeat "1" 4301 ++ rest.

(* ================================================================== *)
(** * Properties *)
(* ================================================================== *)

(** ** Equality of strings *)

Lemma str_eqb_eq (a b : str) : str_eqb a b = true <-> a = b.
Proof.
  unfold str_eqb. destruct (list_eq_dec ascii_dec a b); split; congruence.
Qed.

Lemma str_eqb_refl (a : str) : str_eqb a a = true.
Proof. now apply str_eqb_eq. Qed.

Lemma str_eqb_neq (a b : str) : str_eqb a b = false <-> a <> b.
Proof.
  unfold str_eqb. destruct (list_eq_dec ascii_dec a b); split; congruence.
Qed.


(** ** The order on versions *)

Lemma version_ltb_spec (a b : version) :
  version_ltb a b = true <-> version_lt a b.
Proof.
  destruct a as [[a1 a2] a3], b as [[b1 b2] b3]; simpl.
  rewrite orb_true_iff, andb_true_iff, orb_true_iff, andb_true_iff.
  rewrite !N.ltb_lt, !N.eqb_eq. tauto.
Qed.

Lemma version_ltb_false (a b : version) :
  version_ltb a b = false <-> ~ version_lt a b.
Proof.
  rewrite <- version_ltb_spec. destruct (version_ltb a b); split; congruence.
Qed.

Lemma version_lt_irrefl (a : version) : ~ version_lt a a.
Proof. destruct a as [[a1 a2] a3]; simpl; lia. Qed.

Lemma version_lt_trans (a b c : version) :
  version_lt a b -> version_lt b c -> version_lt a c.
Proof.
  destruct a as [[a1 a2] a3], b as [[b1 b2] b3], c as [[c1 c2] c3]; simpl; lia.
Qed.

(** [a <= b] and [b < c] give [a < c]. *)
Lemma version_le_lt_trans (a b c : version) :
  ~ version_lt b a -> version_lt b c -> version_lt a c.
Proof.
  destruct a as [[a1 a2] a3], b as [[b1 b2] b3], c as [[c1 c2] c3]; simpl; lia.
Qed.

Lemma version_le_trans (a b c : version) :
  ~ version_lt b a -> ~ version_lt c b -> ~ version_lt c a.
Proof.
  destruct a as [[a1 a2] a3], b as [[b1 b2] b3], c as [[c1 c2] c3]; simpl; lia.
Qed.


(** ** The selection loop of [max] *)

Section MaxLoop.

Context {A : Type} (key : A -> version).

(** The loop splits its input at the item it returns: every item before it
    (the initial one included) has a strictly smaller key, no item after it
    has a greater one. *)
Lemma max_loop_split (l : list A) : forall best,
  exists l1 l2,
    best :: l = l1 ++ max_loop key best l :: l2 /\
    (forall x, In x l1 ->
       version_lt (key x) (key (max_loop key best l))) /\
    (forall x, In x l2 ->
       ~ version_lt (key (max_loop key best l)) (key x)).
Proof.
  induction l as [|y l IH]; intros best; simpl.
  - exists [], []. repeat split; simpl; tauto.
  - destruct (version_ltb (key best) (key y)) eqn:E.
    + apply version_ltb_spec in E.
      destruct (IH y) as (l1 & l2 & Heq & Hlt & Hge).
      exists (best :: l1), l2. rewrite Heq. repeat split; auto.
      intros x [<-|Hx]; auto.
      destruct l1 as [|z l1]; simpl in Heq; injection Heq as Hy Hl.
      * now rewrite <- Hy.
      * subst z. eapply version_lt_trans; [exact E|]. apply Hlt. now left.
    + apply version_ltb_false in E.
      destruct (IH best) as (l1 & l2 & Heq & Hlt & Hge).
      destruct l1 as [|z l1]; simpl in Heq; injection Heq as Hb Hl.
      * exists [], (y :: l). rewrite <- Hb. repeat split; simpl; try tauto.
        intros x [<-|Hx]; auto.
        rewrite Hb. apply Hge. now rewrite <- Hl.
      * subst z. exists (best :: y :: l1), l2.
        split; [simpl; now rewrite <- Hl|]. split; auto.
        intros x [<-|[<-|Hx]].
        -- apply Hlt. now left.
        -- eapply version_le_lt_trans; [exact E|]. apply Hlt. now left.
        -- apply Hlt. now right.
Qed.

Lemma py_max_split (l : list A) (m : A) :
  py_max key l = Some m ->
  exists l1 l2,
    l = l1 ++ m :: l2 /\
    (forall x, In x l1 -> version_lt (key x) (key m)) /\
    (forall x, In x l2 -> ~ version_lt (key m) (key x)).
Proof.
  destruct l as [|x l]; simpl; [discriminate|].
  intros [= <-]. apply max_loop_split.
Qed.

Lemma py_max_some (l : list A) :
  l <> [] -> exists m, py_max key l = Some m.
Proof. destruct l; [congruence|]. simpl. eauto. Qed.

Lemma py_max_in (l : list A) (m : A) : py_max key l = Some m -> In m l.
Proof.
  intros H. destruct (py_max_split _ _ H) as (l1 & l2 & -> & _).
  apply in_elt.
Qed.

Lemma py_max_greatest (l : list A) (m x : A) :
  py_max key l = Some m -> In x l -> ~ version_lt (key m) (key x).
Proof.
  intros H Hx. destruct (py_max_split _ _ H) as (l1 & l2 & -> & Hlt & Hge).
  apply in_app_or in Hx. destruct Hx as [Hx|[<-|Hx]].
  - intros Hc. apply (version_lt_irrefl (key x)).
    eapply version_lt_trans; [apply Hlt, Hx | exact Hc].
  - apply version_lt_irrefl.
  - now apply Hge.
Qed.

End MaxLoop.

(** ** Version ordering: DockerHubAPI._get_latest_semantic_version *)

Lemma existsb_nonempty {A} (p : A -> bool) (l : list A) :
  existsb p l = true -> l <> [].
Proof. destruct l; simpl; [discriminate|congruence]. Qed.

Lemma latest_without_error (limit : nat) (tags : list str) :
  existsb (version_key_raises limit) tags = false ->
  _get_latest_semantic_version limit tags = py_max version_key tags.
Proof. intros H. unfold _get_latest_semantic_version. now rewrite H. Qed.

Lemma latest_error (limit : nat) (tags : list str) :
  existsb (version_key_raises limit) tags = true ->
  _get_latest_semantic_version limit tags = None.
Proof. intros H. unfold _get_latest_semantic_version. now rewrite H. Qed.

Lemma latest_returned (limit : nat) (tags : list str) (t : str) :
  _get_latest_semantic_version limit tags = Some t ->
  py_max version_key tags = Some t /\
  existsb (version_key_raises limit) tags = false.
Proof.
  unfold _get_latest_semantic_version.
  destruct (existsb (version_key_raises limit) tags); [discriminate|].
  now split.
Qed.

Lemma valid_limit_cases (limit : nat) :
  valid_int_limit limit -> limit = 0 \/ exists n, limit = S (S n).
Proof.
  intros [->|H]; [now left|]. right.
  destruct limit as [|[|n]]; try lia. now exists n.
Qed.

(** C1, with the limit of [int].  Whenever the list holds a tag of the
    semantic-version pattern and no tag has a version number of more digits
    than [int] converts, [_get_latest_semantic_version] returns one of the
    tags, and no tag of the list has a lexicographically greater (major,
    minor, patch) key, the components being compared as numbers; a tag with
    a longer number makes the call raise.  So the latest of 1.2.3, 1.2.4,
    1.3.0, 2.0.0 is 2.0.0 and the latest of v3.9.0, v3.9.1, v3.11.0 is
    v3.11.0, whose key (3, 11, 0) is above (3, 9, 1); a missing patch counts
    as 0 and a leading v is dropped for the key only. *)
Theorem latest_is_greatest (limit : nat) :
  (forall tags : list str,
     existsb _is_semantic_version tags = true ->
     existsb (version_key_raises limit) tags = false ->
     exists t,
       _get_latest_semantic_version limit tags = Some t /\
       In t tags /\
       forall u, In u tags -> ~ version_lt (version_key t) (version_key u)) /\
  (forall tags : list str,
     existsb (version_key_raises limit) tags = true ->
     _get_latest_semantic_version limit tags = None) /\
  (valid_int_limit limit ->
   _get_latest_semantic_version limit
     (map lit ["1.2.3"; "1.2.4"; "1.3.0"; "2.0.0"]%string)
   = Some (lit "2.0.0") /\
   _get_latest_semantic_version limit
     (map lit ["v3.9.0"; "v3.9.1"; "v3.11.0"]%string)
   = Some (lit "v3.11.0")) /\
  version_key (lit "v3.9.1") = (3, 9, 1)%N /\
  version_key (lit "v3.11.0") = (3, 11, 0)%N /\
  version_lt (version_key (lit "v3.9.1")) (version_key (lit "v3.11.0")) /\
  version_key (lit "1.2") = (1, 2, 0)%N /\
  version_key (lit "v1.2.3") = version_key (lit "1.2.3").
Proof.
  split; [|split; [|split]].
  - intros tags H Hlimit. apply existsb_nonempty in H.
    rewrite (latest_without_error limit tags Hlimit).
    destruct (py_max_some version_key tags H) as [t Ht].
    exists t. split; [exact Ht|]. split.
    + eapply py_max_in, Ht.
    + intros u Hu. eapply py_max_greatest; eauto.
  - apply latest_error.
  - intros H. destruct (valid_limit_cases limit H) as [->|(n & ->)];
      split; reflexivity.
  - repeat split; try reflexivity. now apply version_ltb_spec.
Qed.

Lemma latest_is_greatest_witness :
  exists t,
    _get_latest_semantic_version 4300
      (map lit ["1.2.3"; "latest"; "1.10.0-alpine"]%string) = Some t /\
    In t (map lit ["1.2.3"; "latest"; "1.10.0-alpine"]%string) /\
    forall u, In u (map lit ["1.2.3"; "latest"; "1.10.0-alpine"]%string) ->
      ~ version_lt (version_key t) (version_key u).
Proof.
  apply (proj1 (latest_is_greatest 4300)); reflexivity.
Defined.

(** C1 as stated fails on a tag of the pattern whose major number has 4301
    digits: under the default limit of 4300 digits [int] raises, and
    nothing is returned. *)
Lemma latest_is_greatest_counterexample : ~ latest_greatest_as_stated.
Proof.
  intros H.
  destruct (H 4300 [long_tag (lit ".0")]) as (t & Ht & _).
  - right. lia.
  - vm_compute. reflexivity.
  - vm_compute in Ht. discriminate Ht.
Qed.

(** C7 (the code departs from it).  Among tags of equal key the builtin [max]
    keeps the one it met first: the three tags below all have the key
    (1, 0, 0) and the first of them is returned, where a selection keeping the
    last one would return 1.0.0. *)
Theorem latest_tie_keeps_first (limit : nat) :
  _get_latest_semantic_version limit
    (map lit ["1.0.0-alpha"; "1.0.0-beta"; "1.0.0"]%string)
  = Some (lit "1.0.0-alpha") /\
  version_key (lit "1.0.0-alpha") = version_key (lit "1.0.0") /\
  version_key (lit "1.0.0-beta") = version_key (lit "1.0.0") /\
  _get_latest_semantic_version limit
    (map lit ["1.2.3"; "1.2.3-alpine"]%string)
  = Some (lit "1.2.3").
Proof. destruct limit as [|n]; repeat split; reflexivity. Qed.

(** The tie-break in general: every tag before the returned one has a
    strictly smaller key. *)
Lemma latest_is_first_greatest (limit : nat) (tags : list str) (t : str) :
  _get_latest_semantic_version limit tags = Some t ->
  exists l1 l2,
    tags = l1 ++ t :: l2 /\
    (forall u, In u l1 -> version_lt (version_key u) (version_key t)) /\
    (forall u, In u l2 -> ~ version_lt (version_key t) (version_key u)).
Proof. intros H. apply latest_returned in H. now apply py_max_split. Qed.




(** ** The skip rule: GitLabEvergreenScanner._should_check_image *)

Lemma scan_image_unchecked (limit : nat)
    (path : str) (i : nat) (image : DockerImage)
    (response : option (list str)) :
  _should_check_image image = false ->
  scan_image limit path i image response = None.
Proof. unfold scan_image. now intros ->. Qed.

(** C3, as stated, fails: a registry that merely contains [docker.io] is
    checked although it is not the canonical host. *)
Lemma skip_rule_counterexample : ~ skip_rule_as_stated.
Proof.
  intros H.
  specialize (H 4300 (lit "Dockerfile") 0%nat
                (mkDockerImage (lit "library/python") (lit "3.9")
                   (Some (lit "index.docker.io")))
                (Some [lit "3.10.0"])).
  assert (Hpre :
    tag (mkDockerImage (lit "library/python") (lit "3.9")
           (Some (lit "index.docker.io"))) = lit "latest" \/
    (exists r,
       registry (mkDockerImage (lit "library/python") (lit "3.9")
                   (Some (lit "index.docker.io"))) = Some r /\
       r <> canonical_host)).
  { right. exists (lit "index.docker.io"). split; [reflexivity|].
    apply str_eqb_neq. reflexivity. }
  specialize (H Hpre). vm_compute in H. discriminate H.
Qed.

(** C3, amended.  An image whose tag is [latest], or whose registry is a
    non-empty string in which [docker.io] does not occur, is not checked and
    gets no update candidate, whatever Docker Hub answers. *)
Theorem skip_rule (limit : nat) (path : str) (i : nat) (image : DockerImage)
    (response : option (list str)) :
  tag image = lit "latest" \/
  (exists r, registry image = Some r /\ r <> [] /\
             contains (lit "docker.io") r = false) ->
  _should_check_image image = false /\
  scan_image limit path i image response = None.
Proof.
  intros H.
  assert (Hs : _should_check_image image = false).
  { unfold _should_check_image. destruct H as [-> | (r & -> & Hr & Hc)].
    - now rewrite str_eqb_refl.
    - destruct (str_eqb (tag image) (lit "latest")); [reflexivity|].
      destruct r as [|c r]; [congruence|]. now rewrite Hc. }
  split; [exact Hs|]. now apply scan_image_unchecked.
Qed.

Lemma skip_rule_witness :
  _should_check_image
    (mkDockerImage (lit "ubi8/python-39") (lit "1.14.0")
       (Some (lit "registry.access.redhat.com"))) = false /\
  scan_image 4300 (lit "Dockerfile") 0
    (mkDockerImage (lit "ubi8/python-39") (lit "1.14.0")
       (Some (lit "registry.access.redhat.com")))
    (Some [lit "1.15.0"]) = None.
Proof.
  apply skip_rule. right. exists (lit "registry.access.redhat.com").
  split; [reflexivity|]. split; [discriminate|reflexivity].
Defined.

(** ** The AS clause: DockerfileParser._parse_from_statement *)

(** C2 (the code departs from it).  The clause is looked for in the upper-cased
    image part but cut with the upper-case separator only: an alias written
    [as] stays in the tag, an alias written [AS] is dropped. *)
Theorem lower_case_alias_kept :
  _parse_from_statement (lit "FROM node:16.20.0-alpine as builder")
  = Some (mkDockerImage (lit "node") (lit "16.20.0-alpine as builder") None) /\
  _parse_from_statement (lit "FROM node:16.20.0-alpine As builder")
  = Some (mkDockerImage (lit "node") (lit "16.20.0-alpine As builder") None) /\
  _parse_from_statement (lit "FROM node:16.20.0-alpine AS builder")
  = Some (mkDockerImage (lit "node") (lit "16.20.0-alpine") None) /\
  parse_dockerfile
    (lit "FROM node:16.20.0-alpine AS builder" ++ "010" ::
     lit "FROM nginx:1.23.0")
  = [mkDockerImage (lit "node") (lit "16.20.0-alpine") None;
     mkDockerImage (lit "nginx") (lit "1.23.0") None].
Proof. repeat split; reflexivity. Qed.

(** ** Characters, counting and splitting *)

#[local] Arguments has_char : simpl never.
#[local] Arguments count : simpl never.

Lemma has_char_in (c : ascii) (s : str) : has_char c s = true <-> In c s.
Proof.
  unfold has_char. rewrite existsb_exists. split.
  - intros (x & Hx & E). apply Ascii.eqb_eq in E. now subst.
  - intros H. exists c. split; [exact H|apply Ascii.eqb_refl].
Qed.

Lemma has_char_app (c : ascii) (a b : str) :
  has_char c (a ++ b) = has_char c a || has_char c b.
Proof. apply existsb_app. Qed.

Lemma has_char_cons (c x : ascii) (s : str) :
  has_char c (x :: s) = Ascii.eqb c x || has_char c s.
Proof. reflexivity. Qed.

Lemma count_app (c : ascii) (a b : str) :
  count c (a ++ b) = count c a + count c b.
Proof. unfold count. now rewrite filter_app, length_app. Qed.

Lemma count_cons (c x : ascii) (s : str) :
  count c (x :: s) = (if Ascii.eqb c x then 1 else 0) + count c s.
Proof. unfold count. simpl. now destruct (Ascii.eqb c x). Qed.

Lemma count_zero (c : ascii) (s : str) :
  count c s = 0 <-> has_char c s = false.
Proof.
  induction s as [|x s IH]; [now split|].
  rewrite count_cons, has_char_cons.
  destruct (Ascii.eqb c x); simpl; [split; [lia|discriminate]|exact IH].
Qed.

Lemma count_pos (c : ascii) (s : str) :
  has_char c s = true <-> 1 <= count c s.
Proof.
  destruct (has_char c s) eqn:E.
  - split; [|reflexivity]. intros _.
    destruct (count c s) eqn:Ec; [|lia].
    apply count_zero in Ec. congruence.
  - apply count_zero in E. split; [discriminate|lia].
Qed.

Lemma split_char_cons (c x : ascii) (s : str) :
  split_char c (x :: s) =
  if Ascii.eqb x c then [] :: split_char c s
  else (x :: hd [] (split_char c s)) :: tl (split_char c s).
Proof.
  simpl. destruct (Ascii.eqb x c); [reflexivity|].
  destruct (split_char c s) eqn:E; [|reflexivity].
  destruct s; simpl in E; [discriminate|].
  destruct (Ascii.eqb a c); [discriminate|].
  now destruct (split_char c s).
Qed.

Lemma split_char_length (c : ascii) (s : str) :
  List.length (split_char c s) = S (count c s).
Proof.
  induction s as [|x s IH]; [reflexivity|].
  rewrite split_char_cons, count_cons, (Ascii.eqb_sym c x).
  destruct (Ascii.eqb x c); simpl; [now rewrite IH|].
  destruct (split_char c s); simpl in *; [discriminate|exact IH].
Qed.

Lemma split_char_none (c : ascii) (s : str) :
  has_char c s = false -> split_char c s = [s].
Proof.
  induction s as [|x s IH]; [reflexivity|].
  rewrite has_char_cons, split_char_cons, (Ascii.eqb_sym c x).
  destruct (Ascii.eqb x c); simpl; [discriminate|].
  intros H. now rewrite (IH H).
Qed.

(** The first segment ends at the first separator. *)
Lemma split_char_app (c : ascii) (a b : str) :
  has_char c a = false ->
  split_char c (a ++ c :: b) = a :: split_char c b.
Proof.
  induction a as [|x a IH]; intros H.
  - simpl. now rewrite Ascii.eqb_refl.
  - rewrite has_char_cons, (Ascii.eqb_sym c x) in H.
    apply orb_false_iff in H. destruct H as [Hx Ha].
    change ((x :: a) ++ c :: b) with (x :: (a ++ c :: b)).
    rewrite split_char_cons, Hx, (IH Ha). reflexivity.
Qed.

Lemma join_split (c : ascii) (s : str) : join c (split_char c s) = s.
Proof.
  induction s as [|x s IH]; [reflexivity|].
  rewrite split_char_cons.
  destruct (Ascii.eqb x c) eqn:E.
  - apply Ascii.eqb_eq in E. subst x.
    pose proof (split_char_length c s) as L.
    destruct (split_char c s) as [|p rest]; [discriminate|].
    simpl in *. now rewrite IH.
  - pose proof (split_char_length c s) as L.
    destruct (split_char c s) as [|p rest]; [discriminate|].
    simpl in *. destruct rest; simpl in *; now rewrite <- IH.
Qed.

Lemma split_char_segments (c : ascii) (s : str) :
  Forall (fun p => has_char c p = false) (split_char c s).
Proof.
  induction s as [|x s IH]; [repeat constructor|].
  rewrite split_char_cons.
  destruct (Ascii.eqb x c) eqn:E; [now constructor|].
  pose proof (split_char_length c s) as L.
  destruct (split_char c s) as [|p rest]; [discriminate|].
  inversion IH; subst. constructor; [|assumption].
  rewrite has_char_cons, (Ascii.eqb_sym c x), E. assumption.
Qed.

Lemma join_snoc (c : ascii) (m : list str) (x : str) :
  m <> [] -> join c (m ++ [x]) = join c m ++ c :: x.
Proof.
  induction m as [|p m IH]; [congruence|]. intros _.
  destruct m as [|q m]; [reflexivity|].
  change (join c ((p :: q :: m) ++ [x]))
    with (p ++ c :: join c ((q :: m) ++ [x])).
  rewrite IH by discriminate. simpl. now rewrite <- app_assoc.
Qed.

Lemma rsplit1_some (c : ascii) (s a b : str) :
  rsplit1 c s = Some (a, b) ->
  s = a ++ c :: b /\ has_char c b = false.
Proof.
  revert a b. induction s as [|x s IH]; intros a b; simpl; [discriminate|].
  destruct (rsplit1 c s) as [[a' b']|] eqn:E.
  - intros [= <- <-]. destruct (IH _ _ eq_refl) as [-> Hb]. now split.
  - destruct (Ascii.eqb x c) eqn:Ex; [|discriminate].
    intros [= <- <-]. apply Ascii.eqb_eq in Ex. subst x. split; [reflexivity|].
    clear IH. induction s as [|y s IH]; [reflexivity|].
    simpl in E. destruct (rsplit1 c s) as [[? ?]|]; [discriminate|].
    destruct (Ascii.eqb y c) eqn:Ey; [discriminate|].
    rewrite has_char_cons, (Ascii.eqb_sym c y), Ey. now apply IH.
Qed.

Lemma rsplit1_none (c : ascii) (s : str) :
  rsplit1 c s = None <-> has_char c s = false.
Proof.
  induction s as [|x s IH]; [now split|].
  simpl. rewrite has_char_cons, (Ascii.eqb_sym c x).
  destruct (rsplit1 c s) as [[a b]|].
  - split; [discriminate|]. intros H. apply orb_false_iff in H.
    destruct H as [_ H]. apply IH in H. discriminate.
  - destruct (Ascii.eqb x c); simpl; [split; discriminate|].
    split; intros _; [now apply IH|reflexivity].
Qed.

(** The last separator is found whatever comes before it. *)
Lemma rsplit1_app (c : ascii) (a b : str) :
  has_char c b = false -> rsplit1 c (a ++ c :: b) = Some (a, b).
Proof.
  intros Hb. induction a as [|x a IH]; simpl.
  - apply rsplit1_none in Hb. now rewrite Hb, Ascii.eqb_refl.
  - now rewrite IH.
Qed.

(** ** Trimming *)

Lemma blank_nil : blank [].
Proof. reflexivity. Qed.

Lemma blank_cons (c : ascii) (w : str) :
  blank (c :: w) <-> is_space c = true /\ blank w.
Proof. unfold blank. simpl. apply andb_true_iff. Qed.

Lemma blank_app (a b : str) : blank (a ++ b) <-> blank a /\ blank b.
Proof. unfold blank. rewrite forallb_app. apply andb_true_iff. Qed.

Lemma blank_rev (w : str) : blank (rev w) <-> blank w.
Proof.
  unfold blank. rewrite !forallb_forall. split; intros H x Hx; apply H.
  - now apply -> in_rev.
  - now apply in_rev.
Qed.

Lemma not_blank (s : str) :
  ~ blank s <-> exists c, In c s /\ is_space c = false.
Proof.
  unfold blank. induction s as [|x s IH]; simpl.
  - split; [congruence|]. now intros (c & [] & _).
  - destruct (is_space x) eqn:E; simpl.
    + rewrite IH. split; intros (c & Hc & Hs); exists c.
      * split; [now right|exact Hs].
      * destruct Hc as [<-|Hc]; [congruence|]. now split.
    + split; [|congruence]. intros _. exists x. split; [now left|exact E].
Qed.

Lemma blank_dec (s : str) : {blank s} + {~ blank s}.
Proof. unfold blank. destruct (forallb is_space s); [now left|now right]. Qed.

Lemma lstrip_blank (w s : str) : blank w -> lstrip (w ++ s) = lstrip s.
Proof.
  induction w as [|c w IH]; [reflexivity|].
  intros H. apply blank_cons in H. destruct H as [Hc Hw].
  simpl. rewrite Hc. now apply IH.
Qed.

Lemma lstrip_all_blank (w : str) : blank w -> lstrip w = [].
Proof.
  intros H. rewrite <- (app_nil_r w). now rewrite lstrip_blank.
Qed.

Lemma lstrip_keep (c : ascii) (s : str) :
  is_space c = false -> lstrip (c :: s) = c :: s.
Proof. simpl. now intros ->. Qed.

Lemma lstrip_split (s : str) : exists w, blank w /\ s = w ++ lstrip s.
Proof.
  induction s as [|c s (w & Hw & E)].
  - exists []. now split.
  - simpl. destruct (is_space c) eqn:Ec.
    + exists (c :: w). split; [now apply blank_cons|]. simpl. now f_equal.
    + exists []. now split.
Qed.

Lemma lstrip_head (s : str) (c : ascii) (r : str) :
  lstrip s = c :: r -> is_space c = false.
Proof.
  induction s as [|x s IH]; simpl; [discriminate|].
  destruct (is_space x) eqn:E; [exact IH|]. now intros [= <- _].
Qed.

Lemma lstrip_nil (s : str) : lstrip s = [] -> blank s.
Proof.
  intros H. destruct (lstrip_split s) as (w & Hw & E).
  rewrite H, app_nil_r in E. now subst.
Qed.

Lemma lstrip_app (a b : str) :
  ~ blank a -> lstrip (a ++ b) = lstrip a ++ b.
Proof.
  induction a as [|c a IH]; intros H.
  - exfalso. apply H, blank_nil.
  - simpl. destruct (is_space c) eqn:E; [|reflexivity].
    apply IH. intros Ha. apply H. now apply blank_cons.
Qed.

Lemma rstrip_blank (s w : str) : blank w -> rstrip (s ++ w) = rstrip s.
Proof.
  intros H. unfold rstrip. rewrite rev_app_distr.
  rewrite lstrip_blank; [reflexivity|]. now apply blank_rev.
Qed.

Lemma rstrip_all_blank (w : str) : blank w -> rstrip w = [].
Proof.
  intros H. unfold rstrip. rewrite lstrip_all_blank; [reflexivity|].
  now apply blank_rev.
Qed.

Lemma rstrip_keep (s : str) (c : ascii) :
  is_space c = false -> rstrip (s ++ [c]) = s ++ [c].
Proof.
  intros H. unfold rstrip. rewrite rev_app_distr. simpl.
  rewrite H. simpl. now rewrite rev_involutive.
Qed.

Lemma rstrip_split (s : str) : exists w, blank w /\ s = rstrip s ++ w.
Proof.
  destruct (lstrip_split (rev s)) as (w & Hw & E).
  exists (rev w). split; [now apply blank_rev|].
  unfold rstrip. rewrite <- rev_app_distr, <- E. now rewrite rev_involutive.
Qed.

Lemma rstrip_last (s a : str) (c : ascii) :
  rstrip s = a ++ [c] -> is_space c = false.
Proof.
  unfold rstrip. intros H.
  apply (f_equal (@rev ascii)) in H.
  rewrite rev_involutive, rev_app_distr in H. simpl in H.
  eapply lstrip_head, H.
Qed.

Lemma rstrip_nil (s : str) : rstrip s = [] -> blank s.
Proof.
  intros H. destruct (rstrip_split s) as (w & Hw & E).
  rewrite H in E. now subst.
Qed.

Lemma rstrip_app (a b : str) :
  ~ blank b -> rstrip (a ++ b) = a ++ rstrip b.
Proof.
  intros H. unfold rstrip. rewrite rev_app_distr, lstrip_app.
  - now rewrite rev_app_distr, rev_involutive.
  - intros Hb. apply H. now apply blank_rev.
Qed.

Lemma trimmed_strip (s : str) : trimmed s -> strip s = s.
Proof. intros [H1 H2]. unfold strip. now rewrite H1. Qed.

Lemma strip_blank (w : str) : blank w -> strip w = [].
Proof. intros H. unfold strip. now rewrite lstrip_all_blank. Qed.

Lemma trimmed_nil : trimmed [].
Proof. split; reflexivity. Qed.

Lemma strip_nil (s : str) : strip s = [] -> blank s.
Proof.
  unfold strip. intros H. apply rstrip_nil in H.
  destruct (lstrip_split s) as (w & Hw & E). rewrite E.
  apply blank_app. now split.
Qed.

Lemma strip_not_blank (s : str) : ~ blank s -> strip s <> [].
Proof. intros H E. apply H. now apply strip_nil. Qed.

(** The trimmed text with the blank text around it. *)
Lemma strip_split (s : str) :
  exists w1 w2, blank w1 /\ blank w2 /\ s = w1 ++ strip s ++ w2.
Proof.
  destruct (lstrip_split s) as (w1 & H1 & E1).
  destruct (rstrip_split (lstrip s)) as (w2 & H2 & E2).
  exists w1, w2. repeat split; try assumption.
  unfold strip. now rewrite <- E2.
Qed.

Lemma lstrip_rstrip_head (s : str) (c : ascii) (r : str) :
  rstrip s = c :: r -> lstrip s = s -> is_space c = false.
Proof.
  intros Hr Hl. destruct (rstrip_split s) as (w & Hw & E).
  rewrite Hr in E. rewrite E in Hl. simpl in Hl.
  destruct (is_space c) eqn:Ec; [|reflexivity].
  exfalso. pose proof (f_equal (@List.length ascii) Hl) as L.
  destruct (lstrip_split (r ++ w)) as (w' & _ & E').
  rewrite E' in L at 2. simpl in L. rewrite length_app in L. lia.
Qed.

Lemma strip_trimmed (s : str) : trimmed (strip s).
Proof.
  unfold trimmed, strip. split.
  - destruct (rstrip (lstrip s)) as [|c r] eqn:E; [reflexivity|].
    apply lstrip_keep.
    destruct (lstrip s) as [|x t] eqn:El.
    + discriminate E.
    + pose proof (lstrip_head _ _ _ El) as Hx.
      destruct (rstrip_split (x :: t)) as (w & Hw & Ew).
      rewrite E in Ew. now injection Ew as <- _.
  - destruct (rstrip_split (lstrip s)) as (w & Hw & E).
    destruct (rstrip (lstrip s)) as [|c r] eqn:Er using rev_ind;
      [reflexivity|].
    apply rstrip_keep. eapply rstrip_last, Er.
Qed.

Lemma trimmed_head (c : ascii) (r : str) :
  trimmed (c :: r) -> is_space c = false.
Proof. intros [H _]. eapply lstrip_head, H. Qed.

Lemma trimmed_last (a : str) (c : ascii) :
  trimmed (a ++ [c]) -> is_space c = false.
Proof. intros [_ H]. eapply rstrip_last, H. Qed.

Lemma trimmed_intro (s : str) :
  (forall c r, s = c :: r -> is_space c = false) ->
  (forall a c, s = a ++ [c] -> is_space c = false) ->
  trimmed s.
Proof.
  intros Hh Hl. split.
  - destruct s as [|c r]; [reflexivity|]. apply lstrip_keep. eapply Hh.
    reflexivity.
  - destruct s as [|c r] using rev_ind; [reflexivity|].
    apply rstrip_keep. eapply Hl. reflexivity.
Qed.

(** Trimming finds a trimmed text between blanks. *)
Lemma strip_between (w1 m w2 : str) :
  blank w1 -> blank w2 -> trimmed m -> strip (w1 ++ m ++ w2) = m.
Proof.
  intros H1 H2 [Hl Hr]. unfold strip.
  rewrite lstrip_blank by assumption.
  destruct (blank_dec m) as [Hm|Hm].
  - assert (m = []) by (rewrite <- Hl; now apply lstrip_all_blank).
    subst m. simpl. rewrite lstrip_all_blank by assumption. reflexivity.
  - rewrite lstrip_app by assumption. rewrite Hl.
    now rewrite rstrip_blank.
Qed.

(** ** Letter case *)

Ltac by_cases_on_char c :=
  destruct c as [[] [] [] [] [] [] [] []]; vm_compute; try reflexivity;
  try discriminate; try tauto.

(** Changing the case leaves every character that is not a letter alone. *)
Lemma lower_char_not_letter (c x : ascii) :
  is_upper x = false -> is_lower x = false ->
  Ascii.eqb x (lower_char c) = Ascii.eqb x c.
Proof.
  intros Hu Hl. unfold lower_char.
  destruct (is_upper c) eqn:Ec; [|reflexivity].
  assert (Hc : is_lower (ascii_of_nat (code c + 32)) = true).
  { revert Ec. by_cases_on_char c. }
  destruct (Ascii.eqb x (ascii_of_nat (code c + 32))) eqn:E1.
  - apply Ascii.eqb_eq in E1. congruence.
  - destruct (Ascii.eqb x c) eqn:E2; [|reflexivity].
    apply Ascii.eqb_eq in E2. congruence.
Qed.

Lemma upper_char_not_letter (c x : ascii) :
  is_upper x = false -> is_lower x = false ->
  Ascii.eqb x (upper_char c) = Ascii.eqb x c.
Proof.
  intros Hu Hl. unfold upper_char.
  destruct (is_lower c) eqn:Ec; [|reflexivity].
  assert (Hc : is_upper (ascii_of_nat (code c - 32)) = true).
  { revert Ec. by_cases_on_char c. }
  destruct (Ascii.eqb x (ascii_of_nat (code c - 32))) eqn:E1.
  - apply Ascii.eqb_eq in E1. congruence.
  - destruct (Ascii.eqb x c) eqn:E2; [|reflexivity].
    apply Ascii.eqb_eq in E2. congruence.
Qed.

Lemma has_char_lower (x : ascii) (s : str) :
  is_upper x = false -> is_lower x = false ->
  has_char x (lower s) = has_char x s.
Proof.
  intros Hu Hl. induction s as [|c s IH]; [reflexivity|].
  unfold lower in *. simpl map. rewrite !has_char_cons, IH.
  now rewrite lower_char_not_letter.
Qed.

(** An image part that holds a [/] or a [:] is not [scratch]. *)
Lemma not_scratch (x : ascii) (s : str) :
  is_upper x = false -> is_lower x = false ->
  has_char x s = true -> str_eqb (lower s) (lit "scratch") = false.
Proof.
  intros Hu Hl H. apply str_eqb_neq. intros E.
  rewrite <- (has_char_lower x s Hu Hl), E in H.
  revert H Hu Hl. unfold lit. simpl. rewrite !has_char_cons.
  unfold has_char. simpl. rewrite !orb_false_r.
  rewrite !orb_true_iff, !Ascii.eqb_eq.
  intros H Hu Hl.
  repeat (destruct H as [H|H]; [subst x; vm_compute in Hl; discriminate|]).
  subst x; vm_compute in Hl; discriminate.
Qed.

(** ** References with a registry: DockerfileParser._parse_from_statement *)

Lemma last_tl {A} (l : list A) (d : A) :
  tl l <> [] -> last l d = last (tl l) d.
Proof. destruct l as [|x [|y l]]; simpl; congruence. Qed.

(** With two or more [/] there are a registry, at least one middle segment
    and a final segment. *)
Lemma registry_segments (ref : str) :
  2 <= count "/" ref ->
  exists reg middle,
    split_char "/" ref = reg :: middle ++ [last (split_char "/" ref) []] /\
    middle <> [].
Proof.
  intros H. pose proof (split_char_length "/" ref) as L.
  destruct (split_char "/" ref) as [|reg [|p1 [|p2 rest]]] eqn:E;
    simpl in L; try lia.
  exists reg, (removelast (p1 :: p2 :: rest)). split.
  - rewrite (last_tl (reg :: p1 :: p2 :: rest)) by discriminate.
    simpl tl. now rewrite <- app_removelast_last by discriminate.
  - simpl. destruct rest; discriminate.
Qed.

(** On an image part with two or more [/] the parser takes the registry
    branch; the tag is cut between the first and the second [:] of the final
    segment. *)
Lemma parse_registry_branch (ref : str) :
  2 <= count "/" ref ->
  startswith (lit "$") ref = false ->
  parse_image_part ref =
  let parts := split_char "/" ref in
  let last_part := last parts [] in
  Some (mkDockerImage
          (join "/" (removelast (tl parts)) ++
           "/" :: hd [] (split_char ":" last_part))
          (if has_char ":" last_part
           then nth 1 (split_char ":" last_part) []
           else lit "latest")
          (Some (hd [] parts))).
Proof.
  intros H Hd. unfold parse_image_part.
  assert (Hs : has_char "/" ref = true) by (apply count_pos; lia).
  apply Nat.leb_le in H.
  now rewrite (not_scratch "/" ref eq_refl eq_refl Hs), Hd, Hs, H.
Qed.

(** C4, as stated, fails: a reference that begins with [$] is skipped, however
    many [/] it holds; and in a final segment with several [:] the tag is not
    what follows the last one. *)
Lemma registry_rule_counterexample :
  ~ registry_rule_as_stated /\
  (2 <= count "/" (image_part_of (lit "FROM $REGISTRY/team/app:1.0")) /\
   _parse_from_statement (lit "FROM $REGISTRY/team/app:1.0") = None) /\
  (2 <= count "/"
          (image_part_of
             (lit "FROM gcr.io/distroless/python3:debug@sha256:abcd")) /\
   _parse_from_statement
     (lit "FROM gcr.io/distroless/python3:debug@sha256:abcd")
   <> Some (registry_reference
              (image_part_of
                 (lit "FROM gcr.io/distroless/python3:debug@sha256:abcd")))).
Proof.
  assert (H : 2 <= count "/"
                (image_part_of (lit "FROM $REGISTRY/team/app:1.0")) /\
              _parse_from_statement (lit "FROM $REGISTRY/team/app:1.0")
              = None).
  { split; [vm_compute; lia|reflexivity]. }
  split; [|split; [exact H|]].
  - intros Hc. destruct H as [H2 Hp].
    rewrite (Hc _ H2) in Hp. discriminate Hp.
  - split; [vm_compute; lia|]. vm_compute. discriminate.
Qed.

(** A final segment with more than one [:] is cut at its first two, not at
    its last. *)
Lemma registry_tag_second_colon :
  _parse_from_statement
    (lit "FROM gcr.io/distroless/python3:debug@sha256:abcd")
  = Some (mkDockerImage (lit "distroless/python3") (lit "debug@sha256")
            (Some (lit "gcr.io"))) /\
  registry_reference (lit "gcr.io/distroless/python3:debug@sha256:abcd")
  = mkDockerImage (lit "distroless/python3:debug@sha256") (lit "abcd")
      (Some (lit "gcr.io")).
Proof. split; reflexivity. Qed.

(** C4, amended.  On an image part with two or more [/] that does not begin
    with [$] and whose final segment holds at most one [:], the registry is
    the first segment, the name is the remaining segments joined by [/]
    without the [:tag] suffix, and the tag is what follows the [:] of the
    final segment, [latest] when there is none.  An image part that begins
    with [$] gives no image. *)
Theorem registry_rule :
  (forall from_line : str,
     2 <= count "/" (image_part_of from_line) ->
     startswith (lit "$") (image_part_of from_line) = false ->
     count ":" (last (split_char "/" (image_part_of from_line)) []) <= 1 ->
     _parse_from_statement from_line
     = Some (registry_reference (image_part_of from_line))) /\
  (forall from_line : str,
     startswith (lit "$") (image_part_of from_line) = true ->
     _parse_from_statement from_line = None) /\
  _parse_from_statement
    (lit "FROM registry.access.redhat.com/ubi8/python-39:1.14.0")
  = Some (mkDockerImage (lit "ubi8/python-39") (lit "1.14.0")
            (Some (lit "registry.access.redhat.com"))).
Proof.
  split; [|split; [|reflexivity]].
  2:{ intros from_line H. unfold _parse_from_statement, parse_image_part.
      now rewrite H, orb_true_r. }
  intros from_line. unfold _parse_from_statement.
  generalize (image_part_of from_line) as ref. intros ref H Hd Hc.
  rewrite parse_registry_branch by assumption.
  unfold registry_reference. cbv zeta.
  destruct (registry_segments ref H) as (reg & middle & E & Hm).
  set (last_part := last (split_char "/" ref) []) in *.
  rewrite E. simpl hd. simpl tl.
  rewrite removelast_last.
  destruct (rsplit1 ":" last_part) as [[l r]|] eqn:Er.
  - destruct (rsplit1_some _ _ _ _ Er) as [El Hr].
    assert (Hl : has_char ":" l = false).
    { apply count_zero. rewrite El, count_app, count_cons in Hc.
      rewrite Ascii.eqb_refl in Hc. lia. }
    assert (Hh : has_char ":" last_part = true).
    { rewrite El, has_char_app, has_char_cons, Ascii.eqb_refl.
      now rewrite orb_true_r. }
    rewrite Hh, El, (split_char_app ":" l r Hl), (split_char_none ":" r Hr).
    simpl. now rewrite join_snoc.
  - apply rsplit1_none in Er. rewrite Er, (split_char_none ":" _ Er).
    simpl. now rewrite join_snoc.
Qed.

Lemma registry_rule_witness :
  _parse_from_statement (lit "FROM harbor.example.com/project/app AS base")
  = Some (registry_reference
            (image_part_of
               (lit "FROM harbor.example.com/project/app AS base"))).
Proof.
  apply (proj1 registry_rule); vm_compute; [lia|reflexivity|lia].
Defined.

(** ** Prefixes and separators *)

Lemma startswith_app (p s : str) : startswith p (p ++ s) = true.
Proof.
  induction p as [|a p IH]; [reflexivity|].
  simpl. now rewrite Ascii.eqb_refl.
Qed.

Lemma startswith_skipn (p s : str) :
  startswith p s = true -> s = p ++ skipn (List.length p) s.
Proof.
  revert s. induction p as [|a p IH]; intros s; [reflexivity|].
  destruct s as [|b s]; simpl; [discriminate|].
  intros H. apply andb_true_iff in H. destruct H as [E H].
  apply Ascii.eqb_eq in E. subst b. f_equal. now apply IH.
Qed.

Lemma startswith_head (p s : str) (a b : ascii) :
  a <> b -> startswith (a :: p) (b :: s) = false.
Proof.
  intros H. simpl. apply Ascii.eqb_neq in H. now rewrite H.
Qed.

Lemma before_keep (sep s : str) (a c : ascii) :
  a <> c -> before (a :: sep) (c :: s) = c :: before (a :: sep) s.
Proof.
  intros H. simpl. apply Ascii.eqb_neq in H. now rewrite H.
Qed.

Lemma has_char_join (x c : ascii) (parts : list str) (p : str) :
  In p parts -> has_char x p = true -> has_char x (join c parts) = true.
Proof.
  induction parts as [|q parts IH]; [contradiction|].
  intros Hin Hp. destruct parts as [|q' parts].
  - destruct Hin as [<-|[]]. exact Hp.
  - change (join c (q :: q' :: parts)) with (q ++ c :: join c (q' :: parts)).
    rewrite has_char_app, has_char_cons.
    destruct Hin as [<-|Hin]; [now rewrite Hp|].
    rewrite (IH Hin Hp). now rewrite !orb_true_r.
Qed.

Lemma last_in {A} (l : list A) (d : A) : l <> [] -> In (last l d) l.
Proof.
  induction l as [|x l IH]; [congruence|]. intros _.
  destruct l as [|y l]; [now left|]. right. now apply IH.
Qed.

(** A character of the final segment is a character of the whole. *)
Lemma has_char_last_segment (x c : ascii) (s : str) :
  has_char x (last (split_char c s) []) = true -> has_char x s = true.
Proof.
  intros H. rewrite <- (join_split c s).
  eapply has_char_join; [|exact H].
  apply last_in. pose proof (split_char_length c s).
  destruct (split_char c s); [discriminate|congruence].
Qed.

(** ** Image parts of the lines of a Dockerfile *)

Lemma parse_lines_in (lines : list str) (image : DockerImage) :
  In image (parse_lines lines) ->
  exists line,
    In line lines /\
    startswith (lit "FROM ") (strip line) = true /\
    _parse_from_statement (strip line) = Some image.
Proof.
  induction lines as [|l lines IH]; [contradiction|].
  cbn [parse_lines].
  destruct (startswith (lit "FROM ") (strip l)) eqn:Ef.
  - destruct (_parse_from_statement (strip l)) as [img|] eqn:Ep.
    + intros [<-|H].
      * exists l. split; [now left|]. now split.
      * destruct (IH H) as (line & ? & ? & ?). exists line.
        split; [now right|]. now split.
    + intros H. destruct (IH H) as (line & ? & ? & ?). exists line.
      split; [now right|]. now split.
  - intros H. destruct (IH H) as (line & ? & ? & ?). exists line.
    split; [now right|]. now split.
Qed.

(** The text after [FROM ] in a trimmed line is not blank. *)
Lemma from_line_rest (from_line : str) :
  trimmed from_line ->
  startswith (lit "FROM ") from_line = true ->
  ~ blank (skipn 5 from_line).
Proof.
  intros [_ Hr] Hs Hb. apply startswith_skipn in Hs.
  change (List.length (lit "FROM ")) with 5 in Hs.
  rewrite Hs in Hr at 1. rewrite rstrip_blank in Hr by assumption.
  rewrite Hs in Hr at 1. apply (f_equal (@List.length ascii)) in Hr.
  rewrite length_app in Hr. vm_compute in Hr. lia.
Qed.

(** The image part of a trimmed [FROM ] line is trimmed and not empty. *)
Lemma image_part_trimmed (from_line : str) :
  trimmed from_line ->
  startswith (lit "FROM ") from_line = true ->
  trimmed (image_part_of from_line) /\ image_part_of from_line <> [].
Proof.
  intros Ht Hs. pose proof (from_line_rest _ Ht Hs) as Hb.
  unfold image_part_of. cbv zeta.
  pose proof (strip_trimmed (skipn 5 from_line)) as Hx.
  pose proof (strip_not_blank _ Hb) as Hn.
  destruct (contains (lit " AS ") (upper (strip (skipn 5 from_line)))).
  - split; [apply strip_trimmed|].
    apply strip_not_blank.
    destruct (strip (skipn 5 from_line)) as [|c r]; [congruence|].
    pose proof (trimmed_head _ _ Hx) as Hc.
    assert (" " <> c) by (intros <-; discriminate Hc).
    unfold lit. simpl list_ascii_of_string. rewrite before_keep by assumption.
    apply not_blank. exists c. split; [now left|exact Hc].
  - now split.
Qed.

(** ** The parser invariant *)

(** C9, as stated, fails: the reference [:1.0] gives an image without name. *)
Lemma parser_invariant_counterexample : ~ parser_invariant_as_stated.
Proof.
  intros H.
  destruct (H (lit "FROM :1.0") (mkDockerImage [] (lit "1.0") None))
    as [Hname _].
  - now left.
  - now apply Hname.
Qed.

(** With fewer than two [/], a [:] before the final segment, such as the one
    of a port, is taken for the tag separator. *)
Lemma port_taken_for_tag :
  _parse_from_statement (lit "FROM localhost:5000/app")
  = Some (mkDockerImage (lit "localhost") (lit "5000/app") None).
Proof. reflexivity. Qed.

(** C9, amended.  An image given by the parser has a non-empty name unless
    its image part begins with [:]; its tag is [latest] when the image part
    holds no [:], and also, with two or more [/], when the final segment
    holds none.  Every image of [parse_dockerfile] comes from a trimmed
    [FROM ] line of the text whose image part is not empty. *)
Theorem parser_invariant :
  (forall (from_line : str) (image : DockerImage),
     _parse_from_statement from_line = Some image ->
     (forall c r, image_part_of from_line = c :: r -> c <> ":" ->
        name image <> []) /\
     (has_char ":" (image_part_of from_line) = false ->
        tag image = lit "latest") /\
     (2 <= count "/" (image_part_of from_line) ->
      has_char ":" (last (split_char "/" (image_part_of from_line)) [])
      = false ->
      tag image = lit "latest")) /\
  (forall (content : str) (image : DockerImage),
     In image (parse_dockerfile content) ->
     exists line,
       In line (split_char "010" content) /\
       startswith (lit "FROM ") (strip line) = true /\
       _parse_from_statement (strip line) = Some image /\
       image_part_of (strip line) <> []).
Proof.
  split.
  - intros from_line image. unfold _parse_from_statement.
    generalize (image_part_of from_line) as ip. intros ip.
    unfold parse_image_part.
    destruct (str_eqb (lower ip) (lit "scratch") || startswith (lit "$") ip);
      [discriminate|].
    destruct (has_char "/" ip && (2 <=? count "/" ip)%nat) eqn:Eb.
    + intros [= <-]. simpl. split; [|split].
      * intros c r _ _ E. apply (f_equal (@List.length ascii)) in E.
        rewrite length_app in E. simpl in E. lia.
      * intros Hc.
        destruct (has_char ":" (last (split_char "/" ip) [])) eqn:El;
          [|reflexivity].
        apply has_char_last_segment in El. congruence.
      * intros _ ->. reflexivity.
    + destruct (has_char ":" ip) eqn:Ec.
      * destruct (rsplit1 ":" ip) as [[n t]|] eqn:Er.
        -- intros [= <-]. simpl. split; [|split].
           ++ intros c r E Hne ->.
              destruct (rsplit1_some _ _ _ _ Er) as [Eip _].
              rewrite E in Eip. simpl in Eip. congruence.
           ++ discriminate.
           ++ intros H. apply andb_false_iff in Eb.
              destruct Eb as [Eb|Eb].
              ** apply count_zero in Eb. lia.
              ** apply Nat.leb_gt in Eb. lia.
        -- apply rsplit1_none in Er. congruence.
      * intros [= <-]. simpl. split; [|split]; try reflexivity.
        intros c r -> _. discriminate.
  - intros content image H. unfold parse_dockerfile in H.
    destruct (parse_lines_in _ _ H) as (line & Hin & Hs & Hp).
    exists line. repeat split; try assumption.
    now apply image_part_trimmed; [apply strip_trimmed|].
Qed.

Lemma parser_invariant_witness :
  (forall c r, image_part_of (lit "FROM nginx") = c :: r -> c <> ":" ->
     name (mkDockerImage (lit "nginx") (lit "latest") None) <> []) /\
  (has_char ":" (image_part_of (lit "FROM nginx")) = false ->
     tag (mkDockerImage (lit "nginx") (lit "latest") None) = lit "latest") /\
  (2 <= count "/" (image_part_of (lit "FROM nginx")) ->
   has_char ":" (last (split_char "/" (image_part_of (lit "FROM nginx"))) [])
   = false ->
   tag (mkDockerImage (lit "nginx") (lit "latest") None) = lit "latest").
Proof.
  apply (proj1 parser_invariant (lit "FROM nginx")). reflexivity.
Defined.

(** ** Rewriting: DockerfileUpdater.update_image_version and
       GitLabEvergreenScanner._update_dockerfile *)

Lemma search_version_not_empty (prefix s : str) :
  search_version prefix s <> Some [].
Proof.
  induction s as [|c s IH]; simpl.
  - destruct (if startswith prefix [] then _ else _); discriminate.
  - destruct (if startswith prefix (c :: s) then _ else _);
      [exact IH|discriminate].
Qed.

Lemma current_version_read (fs : FileSystem) (image_name v : str) :
  get_current_image_version fs image_name = Some v ->
  v <> [] /\ exists c content, read_dockerfile fs = Some (c :: content).
Proof.
  unfold get_current_image_version.
  destruct (read_dockerfile fs) as [[|c content]|]; try discriminate.
  intros H. split; [|now exists c, content].
  intros ->. now apply search_version_not_empty in H.
Qed.

Section UpdaterProperties.

Variable expand_template : str -> str -> option str.

(** A call that returns [True] leaves a Dockerfile in which the image is at
    the requested version. *)
Lemma update_success (fs fs' : FileSystem) (image_name new_version : str) :
  update_image_version expand_template fs image_name new_version
  = (Returned true, fs') ->
  get_current_image_version fs' image_name = Some new_version.
Proof.
  unfold update_image_version.
  destruct (read_dockerfile fs) as [[|c content]|]; try discriminate.
  destruct (get_current_image_version fs image_name) as [[|v0 current]|] eqn:Ec;
    try discriminate.
  destruct (str_eqb (v0 :: current) new_version) eqn:Ev.
  - intros [= <-]. apply str_eqb_eq in Ev. now rewrite <- Ev.
  - destruct (re_sub _ _ _ _) as [new_content|]; [|discriminate].
    destruct (str_eqb new_content (c :: content)); [discriminate|].
    destruct (write_dockerfile fs new_content) as [ok fs1].
    destruct ok; simpl; [|discriminate].
    destruct (get_current_image_version fs1 image_name) as [updated|] eqn:Eu;
      [|discriminate].
    destruct (str_eqb updated new_version) eqn:E; [|discriminate].
    intros [= <-]. apply str_eqb_eq in E. now rewrite <- E.
Qed.

(** A substitution that changes nothing makes the call return [False]. *)
Lemma update_unchanged (fs : FileSystem)
    (image_name new_version content current : str) :
  read_dockerfile fs = Some content ->
  get_current_image_version fs image_name = Some current ->
  current <> new_version ->
  re_sub expand_template
    (lit "FROM " ++ image_name ++ ":" :: current)
    (lit "FROM " ++ image_name ++ ":" :: new_version) content
  = Some content ->
  update_image_version expand_template fs image_name new_version
  = (Returned false, fs).
Proof.
  intros Hr Hc Hne Hs. unfold update_image_version.
  destruct (current_version_read _ _ _ Hc) as (Hn & c & content' & Hr').
  rewrite Hr' in Hr. injection Hr as <-.
  rewrite Hr', Hc.
  destruct current as [|v0 current]; [congruence|].
  apply str_eqb_neq in Hne. rewrite Hne, Hs.
  now rewrite str_eqb_refl.
Qed.

End UpdaterProperties.

(** C5, as stated, fails on the scanner: [_update_dockerfile] saves the
    content whether or not the replacement changed it. *)
Lemma rewrite_failure_counterexample : ~ rewrite_failure_as_stated.
Proof.
  intros H.
  specialize (H (lit "ARG VERSION=3.9" ++ "010" :: lit "FROM python:${VERSION}")
                (mkUpdateCandidate
                   (mkDockerImage (lit "python") (lit "3.9") None)
                   (mkDockerImage (lit "python") (lit "3.11.0") None)
                   (lit "Dockerfile") 1)
                eq_refl).
  discriminate H.
Qed.

(** C5, amended.  [DockerfileUpdater.update_image_version] returns [False]
    when its substitution leaves the content unchanged, and returns [True]
    only when the Dockerfile it leaves, read again, gives the new version for
    the image; [GitLabEvergreenScanner._update_dockerfile] makes no such check
    and saves the result of the replacement whenever the file can be
    fetched. *)
Theorem rewrite_is_checked :
  (forall (expand_template : str -> str -> option str) (fs : FileSystem)
          (image_name new_version content current : str),
     read_dockerfile fs = Some content ->
     get_current_image_version fs image_name = Some current ->
     current <> new_version ->
     re_sub expand_template
       (lit "FROM " ++ image_name ++ ":" :: current)
       (lit "FROM " ++ image_name ++ ":" :: new_version) content
     = Some content ->
     update_image_version expand_template fs image_name new_version
     = (Returned false, fs)) /\
  (forall (expand_template : str -> str -> option str) (fs fs' : FileSystem)
          (image_name new_version : str),
     update_image_version expand_template fs image_name new_version
     = (Returned true, fs') ->
     get_current_image_version fs' image_name = Some new_version) /\
  (forall (content : str) (candidate : UpdateCandidate),
     _update_dockerfile (Some content) candidate
     = Some (updated_content content candidate)).
Proof.
  split; [|split].
  - apply update_unchanged.
  - apply update_success.
  - reflexivity.
Qed.

Lemma rewrite_is_checked_witness :
  get_current_image_version
    (mkFileSystem (Some (lit "FROM python:3.11" ++ "010" :: lit "RUN true"))
       true)
    (lit "python")
  = Some (lit "3.11").
Proof.
  apply (proj1 (proj2 rewrite_is_checked) plain_template
           (mkFileSystem
              (Some (lit "FROM python:3.9" ++ "010" :: lit "RUN true")) true)).
  reflexivity.
Defined.

(** The check on an unchanged content: the octal escape [\063] of the
    template stands for the character 3, so the version [\063.9] expands to
    the version 3.9 already in place. *)
Lemma update_unchanged_example :
  update_image_version
    (fun template matched =>
       if str_eqb template (lit "FROM python:\063.9")
       then Some (lit "FROM python:3.9")
       else plain_template template matched)
    (mkFileSystem (Some (lit "FROM python:3.9")) true)
    (lit "python") (lit "\063.9")
  = (Returned false, mkFileSystem (Some (lit "FROM python:3.9")) true).
Proof.
  apply (update_unchanged _ _ _ _ (lit "FROM python:3.9") (lit "3.9"));
    try reflexivity.
  discriminate.
Qed.

(** C8, as stated, fails: the second call finds the new version in place and
    returns [True]. *)
Lemma second_update_counterexample : ~ second_update_as_stated.
Proof.
  intros H.
  apply (H plain_template
           (mkFileSystem (Some (lit "FROM python:3.9")) true)
           (mkFileSystem (Some (lit "FROM python:3.11")) true)
           (lit "python") (lit "3.11")); reflexivity.
Qed.

(** C8, amended.  Applying [update_image_version] a second time with the same
    image and version after a successful first call returns [True] again and
    leaves the Dockerfile as the first call left it. *)
Theorem second_update_succeeds
    (expand_template : str -> str -> option str) (fs fs1 : FileSystem)
    (image_name new_version : str) :
  update_image_version expand_template fs image_name new_version
  = (Returned true, fs1) ->
  update_image_version expand_template fs1 image_name new_version
  = (Returned true, fs1).
Proof.
  intros H. apply update_success in H.
  destruct (current_version_read _ _ _ H) as (Hn & c & content & Hr).
  unfold update_image_version. rewrite Hr, H.
  destruct new_version as [|v0 v]; [congruence|].
  now rewrite str_eqb_refl.
Qed.

Lemma second_update_succeeds_witness :
  update_image_version plain_template
    (mkFileSystem (Some (lit "FROM python:3.11")) true)
    (lit "python") (lit "3.11")
  = (Returned true, mkFileSystem (Some (lit "FROM python:3.11")) true).
Proof.
  apply (second_update_succeeds plain_template
           (mkFileSystem (Some (lit "FROM python:3.9")) true)).
  reflexivity.
Defined.

(** ** Replacement *)

Lemma startswith_iff (p s : str) :
  startswith p s = true <-> exists r, s = p ++ r.
Proof.
  split.
  - intros H. exists (skipn (List.length p) s). now apply startswith_skipn.
  - intros (r & ->). apply startswith_app.
Qed.

Lemma replace_from_skip (old new : str) (s : str) : forall k,
  replace_from old new k s = replace old new (skipn k s).
Proof.
  induction s as [|c s IH]; intros k.
  - now destruct k.
  - destruct k as [|k]; [reflexivity|]. simpl. apply IH.
Qed.

Lemma replace_nil (old new : str) : replace old new [] = [].
Proof. reflexivity. Qed.

(** One step of the scan. *)
Lemma replace_cons (old new : str) (x : ascii) (t : str) :
  old <> [] ->
  replace old new (x :: t) =
  if startswith old (x :: t)
  then new ++ replace old new (skipn (List.length old) (x :: t))
  else x :: replace old new t.
Proof.
  intros H. unfold replace at 1. cbn [replace_from].
  destruct (startswith old (x :: t)); [|reflexivity].
  rewrite replace_from_skip. destruct old; [congruence|].
  simpl. now rewrite Nat.sub_0_r.
Qed.

Lemma replace_skip (old new : str) (x : ascii) (t : str) :
  old <> [] -> startswith old (x :: t) = false ->
  replace old new (x :: t) = x :: replace old new t.
Proof. intros H E. now rewrite replace_cons, E. Qed.

Lemma replace_here (old new rest : str) :
  old <> [] -> replace old new (old ++ rest) = new ++ replace old new rest.
Proof.
  intros H. destruct old as [|a old]; [congruence|].
  change ((a :: old) ++ rest) with (a :: (old ++ rest)).
  rewrite replace_cons by discriminate.
  change (a :: (old ++ rest)) with ((a :: old) ++ rest).
  rewrite startswith_app, skipn_app, skipn_all, Nat.sub_diag. reflexivity.
Qed.

(** The text before the first [c] is determined. *)
Lemma first_char_unique (c : ascii) (u1 u2 r1 r2 : str) :
  has_char c u1 = false -> has_char c u2 = false ->
  u1 ++ c :: r1 = u2 ++ c :: r2 -> u1 = u2 /\ r1 = r2.
Proof.
  revert u2. induction u1 as [|x u1 IH]; intros [|y u2] H1 H2 E; simpl in E.
  - injection E as ->. now split.
  - injection E as <- _. rewrite has_char_cons, Ascii.eqb_refl in H2.
    discriminate.
  - injection E as -> _. rewrite has_char_cons, Ascii.eqb_refl in H1.
    discriminate.
  - injection E as <- E. rewrite has_char_cons in H1, H2.
    apply orb_false_iff in H1, H2.
    destruct (IH u2 (proj2 H1) (proj2 H2) E) as [-> ->]. now split.
Qed.

Lemma has_char_split (c : ascii) (s : str) :
  has_char c s = true ->
  exists u v, s = u ++ c :: v /\ has_char c u = false.
Proof.
  induction s as [|x s IH]; [discriminate|].
  rewrite has_char_cons. destruct (Ascii.eqb c x) eqn:E.
  - intros _. apply Ascii.eqb_eq in E. subst x. now exists [], s.
  - simpl. intros H. destruct (IH H) as (u & v & -> & Hu).
    exists (x :: u), v. split; [reflexivity|].
    now rewrite has_char_cons, E.
Qed.

(** A text without a character of [old] holds no occurrence of [old], also
    when followed by [old] itself. *)
Lemma no_occurrence (c : ascii) (old : str) (x : ascii) (w rest : str) :
  has_char c old = true -> has_char c (x :: w) = false ->
  startswith old ((x :: w) ++ old ++ rest) = false.
Proof.
  intros Hc Hw. destruct (startswith old _) eqn:E; [|reflexivity].
  exfalso. apply startswith_iff in E. destruct E as (r & E).
  destruct (has_char_split _ _ Hc) as (u & v & -> & Hu).
  assert (E' : ((x :: w) ++ u) ++ c :: (v ++ rest) = u ++ c :: (v ++ r)).
  { rewrite <- !app_assoc in E. rewrite <- !app_assoc. exact E. }
  apply first_char_unique in E'; try assumption.
  - destruct E' as [E' _]. apply (f_equal (@List.length ascii)) in E'.
    rewrite length_app in E'. simpl in E'. lia.
  - rewrite has_char_app, Hw, Hu. reflexivity.
Qed.

Lemma no_occurrence_plain (c : ascii) (old s : str) :
  has_char c old = true -> has_char c s = false ->
  startswith old s = false.
Proof.
  intros Hc Hs. destruct (startswith old s) eqn:E; [|reflexivity].
  apply startswith_iff in E. destruct E as (r & ->).
  rewrite has_char_app, Hc in Hs. discriminate.
Qed.

(** The first occurrence: nothing is replaced in a text that lacks a
    character of [old]. *)
Lemma replace_first (c : ascii) (old new lead rest : str) :
  has_char c old = true -> has_char c lead = false ->
  replace old new (lead ++ old ++ rest) = lead ++ new ++ replace old new rest.
Proof.
  intros Hc. assert (Hn : old <> []) by (intros ->; discriminate).
  induction lead as [|x lead IH]; intros Hl.
  - simpl. now apply replace_here.
  - change ((x :: lead) ++ old ++ rest) with (x :: (lead ++ old ++ rest)).
    rewrite replace_skip; try assumption.
    + simpl. f_equal. apply IH.
      rewrite has_char_cons in Hl. now apply orb_false_iff in Hl.
    + now apply (no_occurrence c old x lead rest).
Qed.

Lemma replace_none (c : ascii) (old new s : str) :
  has_char c old = true -> has_char c s = false ->
  replace old new s = s.
Proof.
  intros Hc. assert (Hn : old <> []) by (intros ->; discriminate).
  induction s as [|x s IH]; intros Hs; [reflexivity|].
  rewrite replace_skip; try assumption.
  - f_equal. apply IH. rewrite has_char_cons in Hs.
    now apply orb_false_iff in Hs.
  - now apply (no_occurrence_plain c).
Qed.

(** Induction on the scan: either an occurrence is replaced and the scan
    goes on after it, or a character is kept. *)
Lemma replace_ind (old new : str) (P : str -> str -> Prop) :
  old <> [] ->
  P [] [] ->
  (forall rest, P rest (replace old new rest) ->
     P (old ++ rest) (new ++ replace old new rest)) ->
  (forall x t, startswith old (x :: t) = false ->
     P t (replace old new t) -> P (x :: t) (x :: replace old new t)) ->
  forall s, P s (replace old new s).
Proof.
  intros Hn H0 Hocc Hkeep s.
  remember (List.length s) as n eqn:L. revert s L.
  induction n as [n IH] using lt_wf_ind. intros s L.
  destruct s as [|x t]; [exact H0|].
  destruct (startswith old (x :: t)) eqn:E.
  - apply startswith_iff in E. destruct E as (r & E). rewrite E.
    rewrite replace_here by assumption.
    apply Hocc, (IH (List.length r)); [|reflexivity].
    rewrite L, E, length_app.
    destruct old; [congruence|]. simpl. lia.
  - rewrite replace_skip by assumption. apply Hkeep; [exact E|].
    apply (IH (List.length t)); [|reflexivity]. rewrite L. simpl. lia.
Qed.

Lemma has_char_replace (c : ascii) (old new s : str) :
  old <> [] -> has_char c new = false -> has_char c s = false ->
  has_char c (replace old new s) = false.
Proof.
  intros Hn Hnew. pattern s, (replace old new s).
  apply replace_ind; try assumption.
  - reflexivity.
  - intros rest IH H. rewrite has_char_app in *.
    apply orb_false_iff in H. now rewrite Hnew, IH.
  - intros x t _ IH H. rewrite has_char_cons in *.
    apply orb_false_iff in H. destruct H as [-> H]. now apply IH.
Qed.

Lemma replace_not_blank (old new s : str) :
  old <> [] -> ~ blank new -> ~ blank s -> ~ blank (replace old new s).
Proof.
  intros Hn Hnew. pattern s, (replace old new s).
  apply replace_ind; try assumption.
  - auto.
  - intros rest _ _ H. apply blank_app in H. tauto.
  - intros x t _ IH H H'. apply blank_cons in H'. destruct H' as [Hx Ht].
    apply IH; [|exact Ht]. intros Hb. apply H. now apply blank_cons.
Qed.

(** When the old and the new text share the beginning [b], a text [w] that
    lacks a character of [b] comes out of the replacement as it went in, even
    when an occurrence begins inside it. *)
Lemma replace_keeps_prefix (c : ascii) (b told tnew w rest : str) :
  has_char c b = true -> is_space c = false ->
  has_char c w = false -> ~ blank rest ->
  exists rest',
    replace (b ++ told) (b ++ tnew) (w ++ rest) = w ++ rest' /\
    ~ blank rest'.
Proof.
  intros Hb Hc.
  assert (Hn : b ++ told <> []).
  { intros E. apply app_eq_nil in E. destruct E as [-> _]. discriminate. }
  assert (Hnb : forall l, has_char c l = true -> ~ blank l).
  { intros l Hl. apply not_blank. exists c. split; [|exact Hc].
    now apply has_char_in. }
  induction w as [|x w IH]; intros Hw Hr.
  - exists (replace (b ++ told) (b ++ tnew) rest). split; [reflexivity|].
    apply replace_not_blank; try assumption.
    intros H. apply blank_app in H. now apply (Hnb b).
  - rewrite has_char_cons in Hw. apply orb_false_iff in Hw.
    destruct Hw as [Hx Hw].
    destruct (startswith (b ++ told) ((x :: w) ++ rest)) eqn:E.
    + apply startswith_iff in E. destruct E as (r & E).
      rewrite E, replace_here by assumption.
      rewrite <- app_assoc in E. apply app_eq_app in E.
      destruct E as (l & [[E1 E2]|[E1 E2]]).
      * exfalso. apply (f_equal (has_char c)) in E1.
        rewrite has_char_app, Hb, has_char_cons, Hx, Hw in E1. discriminate.
      * exists (l ++ tnew ++ replace (b ++ told) (b ++ tnew) r).
        rewrite E1, <- !app_assoc. split; [reflexivity|].
        intros H. apply blank_app in H. destruct H as [H _].
        apply (Hnb l); [|exact H].
        apply (f_equal (has_char c)) in E1.
        rewrite Hb, has_char_app, has_char_cons, Hx, Hw in E1.
        now symmetry.
    + change ((x :: w) ++ rest) with (x :: (w ++ rest)) in *.
      rewrite replace_skip by assumption.
      destruct (IH Hw Hr) as (rest' & -> & H). exists rest'. now split.
Qed.

(** A character that is not in [old] separates the replacements. *)
Lemma replace_app_sep (c : ascii) (old new a b : str) :
  old <> [] -> has_char c old = false ->
  replace old new (a ++ c :: b)
  = replace old new a ++ c :: replace old new b.
Proof.
  intros Hn Hc. pattern a, (replace old new a).
  apply replace_ind; try assumption.
  - simpl. apply replace_skip; [assumption|].
    destruct old as [|o old]; [congruence|].
    apply startswith_head. intros <-.
    rewrite has_char_cons, Ascii.eqb_refl in Hc. discriminate.
  - intros rest IH. rewrite <- !app_assoc, replace_here by assumption.
    now rewrite IH.
  - intros x t E IH.
    change ((x :: t) ++ c :: b) with (x :: (t ++ c :: b)).
    rewrite replace_skip; [simpl; now rewrite IH|assumption|].
    destruct (startswith old (x :: t ++ c :: b)) eqn:E'; [|reflexivity].
    exfalso. apply startswith_iff in E'. destruct E' as (r & E').
    change (x :: t ++ c :: b) with ((x :: t) ++ c :: b) in E'.
    symmetry in E'. apply app_eq_app in E'.
    destruct E' as (l & [[E1 E2]|[E1 E2]]).
    + destruct l as [|y l].
      * rewrite app_nil_r in E1. subst old.
        rewrite <- (app_nil_r (x :: t)) in E at 2.
        rewrite startswith_app in E. discriminate.
      * injection E2 as Ey _. subst y. rewrite E1 in Hc.
        rewrite has_char_app, (has_char_cons c c l), Ascii.eqb_refl in Hc.
        now rewrite orb_true_r in Hc.
    + rewrite E1, startswith_app in E. discriminate.
Qed.

(** Replacing in a text replaces in each of its lines. *)
Lemma split_replace (c : ascii) (old new s : str) :
  old <> [] -> has_char c old = false -> has_char c new = false ->
  split_char c (replace old new s) = map (replace old new) (split_char c s).
Proof.
  intros Hn Ho Hnew.
  remember (List.length s) as n eqn:L. revert s L.
  induction n as [n IH] using lt_wf_ind. intros s L.
  destruct (has_char c s) eqn:E.
  - destruct (has_char_split _ _ E) as (u & v & -> & Hu).
    rewrite replace_app_sep by assumption.
    rewrite !split_char_app; try assumption.
    + simpl. f_equal. apply (IH (List.length v)); [|reflexivity].
      rewrite L, length_app. simpl. lia.
    + now apply has_char_replace.
  - rewrite (split_char_none c s E). simpl.
    apply split_char_none. now apply has_char_replace.
Qed.

Lemma parse_lines_intro (lines : list str) (line : str)
    (image : DockerImage) :
  In line lines ->
  startswith (lit "FROM ") (strip line) = true ->
  _parse_from_statement (strip line) = Some image ->
  In image (parse_lines lines).
Proof.
  induction lines as [|l lines IH]; [contradiction|].
  intros [->|Hin] Hs Hp; cbn [parse_lines].
  - rewrite Hs, Hp. now left.
  - destruct (startswith (lit "FROM ") (strip l)); [|now apply IH].
    destruct (_parse_from_statement (strip l)); [right|]; now apply IH.
Qed.

(** ** Occurrences of a separator *)

(** A character that is not in the separator ends every attempt to match
    across it. *)
Lemma startswith_pivot (c : ascii) (sep : str) : forall A B,
  has_char c sep = false ->
  startswith sep (A ++ c :: B) = startswith sep A.
Proof.
  induction sep as [|a sep IH]; intros A B H; [now destruct A|].
  rewrite has_char_cons in H. apply orb_false_iff in H. destruct H as [Ha H].
  destruct A as [|x A]; simpl.
  - now rewrite Ascii.eqb_sym, Ha.
  - now rewrite IH.
Qed.

Lemma contains_pivot (c : ascii) (sep A B : str) :
  has_char c sep = false ->
  contains sep (A ++ c :: B) = contains sep A || contains sep B.
Proof.
  intros H. induction A as [|x A IH].
  - pose proof (startswith_pivot c sep [] B H) as E. cbn [app] in E.
    cbn [app contains]. rewrite E. now rewrite orb_false_r.
  - change ((x :: A) ++ c :: B) with (x :: (A ++ c :: B)).
    cbn [contains]. rewrite IH.
    change (x :: (A ++ c :: B)) with ((x :: A) ++ c :: B).
    rewrite startswith_pivot by assumption. now rewrite orb_assoc.
Qed.

Lemma before_pivot (c : ascii) (sep A B : str) :
  sep <> [] -> has_char c sep = false ->
  before sep (A ++ c :: B) =
  if contains sep A then before sep A else A ++ c :: before sep B.
Proof.
  intros Hn H. induction A as [|x A IH].
  - cbn [app]. destruct sep as [|a sep]; [congruence|].
    rewrite has_char_cons in H. apply orb_false_iff in H. destruct H as [Ha _].
    simpl. now rewrite Ascii.eqb_sym, Ha.
  - change ((x :: A) ++ c :: B) with (x :: (A ++ c :: B)).
    cbn [before contains]. rewrite IH.
    change (x :: (A ++ c :: B)) with ((x :: A) ++ c :: B).
    rewrite startswith_pivot by assumption.
    destruct (startswith sep (x :: A)); [reflexivity|]. simpl.
    now destruct (contains sep A).
Qed.

(** Characters other than the first of the separator are passed over. *)
Lemma contains_skip (a : ascii) (sep t Y : str) :
  has_char a t = false ->
  contains (a :: sep) (t ++ Y) = contains (a :: sep) Y.
Proof.
  induction t as [|x t IH]; intros H; [reflexivity|].
  rewrite has_char_cons in H. apply orb_false_iff in H. destruct H as [Hx H].
  change ((x :: t) ++ Y) with (x :: (t ++ Y)). cbn [contains].
  rewrite (IH H). simpl. now rewrite Hx.
Qed.

Lemma before_skip (a : ascii) (sep t Y : str) :
  has_char a t = false ->
  before (a :: sep) (t ++ Y) = t ++ before (a :: sep) Y.
Proof.
  induction t as [|x t IH]; intros H; [reflexivity|].
  rewrite has_char_cons in H. apply orb_false_iff in H. destruct H as [Hx H].
  change ((x :: t) ++ Y) with (x :: (t ++ Y)).
  rewrite before_keep.
  - simpl. now rewrite (IH H).
  - intros <-. now rewrite Ascii.eqb_refl in Hx.
Qed.

Lemma contains_app_r (sep a b : str) :
  contains sep b = true -> contains sep (a ++ b) = true.
Proof.
  intros H. induction a as [|x a IH]; [exact H|].
  simpl. rewrite IH. apply orb_true_r.
Qed.

Lemma before_none (sep s : str) :
  contains sep s = false -> before sep s = s.
Proof.
  induction s as [|x s IH]; cbn [contains before]; intros H;
    apply orb_false_iff in H; destruct H as [-> H]; [reflexivity|].
  now rewrite IH.
Qed.

Lemma before_split (sep s : str) :
  contains sep s = true -> exists r, s = before sep s ++ sep ++ r.
Proof.
  induction s as [|x s IH]; cbn [contains before]; intros H.
  - rewrite orb_false_r in H. rewrite H. apply startswith_iff in H.
    destruct H as (r & H). now exists r.
  - destruct (startswith sep (x :: s)) eqn:E.
    + apply startswith_iff in E. destruct E as (r & E). now exists r.
    + destruct (IH H) as (r & E'). exists r. simpl. now f_equal.
Qed.

Lemma before_length (sep s : str) :
  List.length (before sep s) <= List.length s.
Proof.
  induction s as [|x s IH]; cbn [before].
  - destruct (startswith sep []); simpl; lia.
  - destruct (startswith sep (x :: s)); simpl; lia.
Qed.

Lemma before_drop_prefix (sep u Y Z : str) :
  before sep (u ++ Y) = u ++ Z -> before sep Y = Z.
Proof.
  induction u as [|x u IH]; [trivial|].
  change ((x :: u) ++ Y) with (x :: (u ++ Y)). cbn [before].
  destruct (startswith sep (x :: u ++ Y)); [discriminate|].
  intros [= E]. now apply IH.
Qed.

Lemma startswith_long (p a r : str) :
  List.length p <= List.length a ->
  startswith p (a ++ r) = startswith p a.
Proof.
  revert a. induction p as [|x p IH]; intros a H; [now destruct a|].
  destruct a as [|y a]; simpl in *; [lia|].
  rewrite IH by lia. reflexivity.
Qed.

Lemma before_unfold (sep s : str) :
  before sep s =
  if startswith sep s then []
  else match s with
       | [] => []
       | c :: s' => c :: before sep s'
       end.
Proof. now destruct s. Qed.

Lemma before_here (sep r : str) : before sep (sep ++ r) = [].
Proof. now rewrite before_unfold, startswith_app. Qed.

(** Where the first separator stands does not depend on what follows it. *)
Lemma before_tail (sep u r : str) :
  before sep (u ++ sep ++ r) = before sep (u ++ sep).
Proof.
  induction u as [|x u IH].
  - cbn [app]. rewrite before_here.
    rewrite <- (app_nil_r sep) at 2. now rewrite before_here.
  - change ((x :: u) ++ sep ++ r) with (x :: (u ++ sep ++ r)).
    change ((x :: u) ++ sep) with (x :: (u ++ sep)).
    cbn [before]. rewrite IH.
    change (x :: u ++ sep ++ r) with ((x :: u) ++ sep ++ r).
    rewrite app_assoc, startswith_long; [reflexivity|].
    rewrite length_app. lia.
Qed.

Lemma startswith_upper (p s : str) :
  startswith p s = true -> startswith (upper p) (upper s) = true.
Proof.
  intros H. apply startswith_iff in H. destruct H as (r & ->).
  unfold upper. rewrite map_app. apply startswith_app.
Qed.

Lemma contains_upper (sep s : str) :
  contains sep s = true -> contains (upper sep) (upper s) = true.
Proof.
  induction s as [|x s IH]; cbn [contains]; intros H.
  - rewrite orb_false_r in H. apply startswith_upper in H.
    unfold upper in *. simpl map in *. cbn [contains]. now rewrite H.
  - apply orb_true_iff in H. destruct H as [H|H].
    + apply startswith_upper in H. unfold upper in *. simpl map in *.
      cbn [contains]. now rewrite H.
    + unfold upper in *. simpl map. cbn [contains].
      rewrite (IH H). apply orb_true_r.
Qed.

(** ** The lines of a Dockerfile, taken apart and put together *)

Lemma image_part_of_cut (from_line : str) :
  image_part_of from_line = cut_alias (strip (skipn 5 from_line)).
Proof. reflexivity. Qed.

Lemma rstrip_length (s : str) : List.length (rstrip s) <= List.length s.
Proof.
  destruct (rstrip_split s) as (w & _ & E).
  rewrite E at 2. rewrite length_app. lia.
Qed.

Lemma strip_rstrip (s : str) : strip (rstrip s) = strip s.
Proof.
  destruct (rstrip_split s) as (w & Hw & E). rewrite E at 2.
  unfold strip. destruct (blank_dec (rstrip s)) as [Hb|Hb].
  - rewrite !lstrip_all_blank; [reflexivity| |assumption].
    apply blank_app. now split.
  - rewrite lstrip_app by assumption. now rewrite rstrip_blank.
Qed.

Lemma blank_no_char (c : ascii) (w : str) :
  is_space c = false -> blank w -> has_char c w = false.
Proof.
  intros Hc Hw. destruct (has_char c w) eqn:E; [|reflexivity].
  apply has_char_in in E. unfold blank in Hw.
  rewrite forallb_forall in Hw. rewrite (Hw c E) in Hc. discriminate.
Qed.

(** A line whose trimmed form begins with [FROM ]: blanks, the keyword,
    blanks, a trimmed text, blanks. *)
Lemma line_decompose (line : str) :
  startswith (lit "FROM ") (strip line) = true ->
  exists w1 w3 X trail,
    line = w1 ++ lit "FROM " ++ w3 ++ X ++ trail /\
    blank w1 /\ blank w3 /\ blank trail /\
    trimmed X /\ X <> [] /\
    strip (skipn 5 (strip line)) = X.
Proof.
  intros Hs.
  destruct (strip_split line) as (w1 & w2 & H1 & H2 & E).
  pose proof (from_line_rest _ (strip_trimmed line) Hs) as Hz.
  pose proof (startswith_skipn _ _ Hs) as Ef.
  change (List.length (lit "FROM ")) with 5 in Ef.
  destruct (strip_split (skipn 5 (strip line))) as (w3 & w4 & H3 & H4 & Ez).
  exists w1, w3, (strip (skipn 5 (strip line))), (w4 ++ w2).
  split; [|split; [|split; [|split; [|split; [|split]]]]]; try assumption.
  - rewrite E at 1. rewrite Ef at 1. rewrite Ez at 1.
    now rewrite <- !app_assoc.
  - apply blank_app. now split.
  - apply strip_trimmed.
  - now apply strip_not_blank.
  - reflexivity.
Qed.

(** The other way round. *)
Lemma line_compose (w1 w3 Z : str) :
  blank w1 -> blank w3 -> ~ blank Z ->
  startswith (lit "FROM ") (strip (w1 ++ lit "FROM " ++ w3 ++ Z)) = true /\
  strip (skipn 5 (strip (w1 ++ lit "FROM " ++ w3 ++ Z))) = strip Z.
Proof.
  intros H1 H3 HZ.
  assert (E : strip (w1 ++ lit "FROM " ++ w3 ++ Z)
              = lit "FROM " ++ w3 ++ rstrip Z).
  { unfold strip at 1. rewrite lstrip_blank by assumption.
    change (lit "FROM " ++ w3 ++ Z) with ("F" :: (lit "ROM " ++ w3 ++ Z)).
    rewrite lstrip_keep by reflexivity.
    change ("F" :: (lit "ROM " ++ w3 ++ Z)) with (lit "FROM " ++ w3 ++ Z).
    rewrite rstrip_app.
    - rewrite rstrip_app by assumption. reflexivity.
    - intros Hb. apply blank_app in Hb. tauto. }
  rewrite E. split; [apply startswith_app|].
  change (skipn 5 (lit "FROM " ++ w3 ++ rstrip Z)) with (w3 ++ rstrip Z).
  unfold strip at 1. rewrite lstrip_blank by assumption.
  apply strip_rstrip.
Qed.

(** ** The AS clause around an image part *)

Lemma upper_separator : upper (lit " AS ") = lit " AS ".
Proof. reflexivity. Qed.

(** The image part either is the whole text, which then holds no [ AS ], or
    is followed by blanks and the first [ AS ] of the text. *)
Lemma alias_shape (X A told tail : str) :
  trimmed X ->
  cut_alias X = A ++ ":" :: told ++ tail ->
  (X = A ++ ":" :: told ++ tail /\ contains (lit " AS ") X = false) \/
  (exists w5 R,
     blank w5 /\ ~ blank R /\
     X = A ++ ":" :: told ++ tail ++ w5 ++ lit " AS " ++ R /\
     contains (lit " AS ") A = false /\
     before (lit " AS ") (told ++ tail ++ w5 ++ lit " AS " ++ R)
     = told ++ tail ++ w5).
Proof.
  intros HX. unfold cut_alias.
  destruct (contains (lit " AS ") X) eqn:EX.
  - pose proof (contains_upper _ _ EX) as EU.
    rewrite upper_separator in EU. rewrite EU. intros Hip. right.
    destruct (before_split _ _ EX) as (R & ER).
    set (Q := before (lit " AS ") X) in *.
    assert (HQ : lstrip Q = Q).
    { destruct Q as [|q Q'] eqn:EQ; [reflexivity|].
      apply lstrip_keep. rewrite ER in HX. now apply trimmed_head in HX. }
    unfold strip in Hip. rewrite HQ in Hip.
    destruct (rstrip_split Q) as (w5 & H5 & E5). rewrite Hip in E5.
    assert (HR : ~ blank R).
    { intros Hb. destruct HX as [_ HX]. rewrite ER in HX at 1.
      change (lit " AS ") with (lit " AS" ++ [" "]) in HX.
      rewrite <- !app_assoc in HX. rewrite !app_assoc in HX.
      rewrite rstrip_blank in HX by assumption.
      rewrite rstrip_blank in HX by reflexivity.
      pose proof (rstrip_length (Q ++ lit " AS")) as L.
      rewrite HX, ER, !length_app in L. simpl in L. lia. }
    assert (EXs : X = A ++ ":" :: told ++ tail ++ w5 ++ lit " AS " ++ R).
    { rewrite ER at 1. rewrite E5. rewrite <- !app_assoc. simpl.
      now rewrite <- !app_assoc. }
    pose proof (before_pivot ":" (lit " AS ") A
                  (told ++ tail ++ w5 ++ lit " AS " ++ R)) as P.
    rewrite <- EXs in P. fold Q in P.
    specialize (P ltac:(discriminate) eq_refl).
    destruct (contains (lit " AS ") A) eqn:EA.
    + exfalso. pose proof (before_length (lit " AS ") A) as L.
      rewrite <- P, E5, !length_app in L. simpl in L. lia.
    + exists w5, R. repeat split; try assumption.
      rewrite E5 in P. rewrite <- !app_assoc in P. simpl in P.
      apply app_inv_head in P. injection P as P.
      rewrite <- !app_assoc in P. now symmetry.
  - destruct (contains (lit " AS ") (upper X)).
    + rewrite (before_none _ _ EX), (trimmed_strip _ HX). intros ->.
      now left.
    + intros ->. now left.
Qed.

(** ** Plain tags *)

Lemma suffix_char_not_space (c : ascii) :
  is_suffix_char c = true -> is_space c = false.
Proof. by_cases_on_char c. Qed.

Lemma plain_tag_has_char (c : ascii) (t : str) :
  plain_tag t -> is_suffix_char c = false -> has_char c t = false.
Proof.
  intros [_ H] Hc. destruct (has_char c t) eqn:E; [|reflexivity].
  apply has_char_in in E. rewrite forallb_forall in H.
  rewrite (H c E) in Hc. discriminate.
Qed.

Lemma plain_tag_not_blank (t : str) : plain_tag t -> ~ blank t.
Proof.
  intros [Hn H]. apply not_blank. destruct t as [|c t]; [congruence|].
  exists c. split; [now left|]. apply suffix_char_not_space.
  simpl in H. now apply andb_true_iff in H.
Qed.

Lemma plain_tag_rstrip (t : str) : plain_tag t -> rstrip t = t.
Proof.
  intros [Hn H]. destruct (exists_last Hn) as (t' & c & ->).
  apply rstrip_keep, suffix_char_not_space.
  rewrite forallb_app in H. apply andb_true_iff in H.
  destruct H as [_ H]. simpl in H. now rewrite andb_true_r in H.
Qed.

(** Changing the tag inside a trimmed text leaves it trimmed. *)
Lemma trimmed_swap (A told tnew tail : str) :
  A <> [] -> plain_tag tnew ->
  trimmed (A ++ told ++ tail) -> trimmed (A ++ tnew ++ tail).
Proof.
  intros HA Ht [Hl Hr]. split.
  - destruct A as [|a A]; [congruence|]. simpl in *.
    destruct (is_space a) eqn:Ea; [|reflexivity].
    exfalso. destruct (lstrip_split (A ++ told ++ tail)) as (w & _ & E).
    apply (f_equal (@List.length ascii)) in E. rewrite Hl in E.
    rewrite (length_app w) in E. simpl in E. lia.
  - destruct (blank_dec tail) as [Hb|Hb].
    + assert (tail = []).
      { rewrite app_assoc, rstrip_blank in Hr by assumption.
        pose proof (rstrip_length (A ++ told)) as L.
        rewrite Hr, !length_app in L. destruct tail; [reflexivity|].
        simpl in L. lia. }
      subst tail. rewrite !app_nil_r.
      rewrite rstrip_app by now apply plain_tag_not_blank.
      now rewrite plain_tag_rstrip.
    + rewrite app_assoc. rewrite rstrip_app by assumption.
      rewrite app_assoc, rstrip_app in Hr by assumption.
      apply app_inv_head in Hr. now rewrite Hr.
Qed.

Lemma cut_alias_plain (s : str) :
  trimmed s -> contains (lit " AS ") s = false -> cut_alias s = s.
Proof.
  intros Ht H. unfold cut_alias.
  destruct (contains (lit " AS ") (upper s)); [|reflexivity].
  now rewrite before_none, trimmed_strip.
Qed.

Lemma cut_alias_trimmed (s : str) : trimmed s -> trimmed (cut_alias s).
Proof.
  intros H. unfold cut_alias.
  destruct (contains (lit " AS ") (upper s)); [apply strip_trimmed|exact H].
Qed.

(** ** One line of the Dockerfile under the replacement *)

Ltac reassociate :=
  repeat rewrite <- app_assoc; repeat rewrite <- app_comm_cons;
  repeat rewrite <- app_assoc; reflexivity.

Lemma char_not_blank (c : ascii) (l : str) :
  is_space c = false -> has_char c l = true -> ~ blank l.
Proof.
  intros Hc Hl. apply not_blank. exists c. split; [|exact Hc].
  now apply has_char_in.
Qed.

(** The line of an image whose reference is [b' ++ ":" ++ told], preceded in
    its image part by [pre0] and followed by [tail], after the replacement of
    that reference by the one of tag [tnew]: it is still a [FROM ] line and
    its image part is the former one with the new tag.  [c0] is a character of
    the reference before its tag that occurs neither in [tail] nor in the
    separator. *)
Lemma rewrite_line (c0 : ascii) (w1 w3 X trail pre0 b' told tnew tail : str) :
  blank w1 -> blank w3 -> blank trail -> trimmed X ->
  cut_alias X = (pre0 ++ b') ++ ":" :: told ++ tail ->
  has_char ":" pre0 = false ->
  has_char c0 (b' ++ [":"]) = true -> is_space c0 = false ->
  has_char c0 (lit " AS ") = false -> has_char c0 tail = false ->
  plain_tag tnew ->
  let line' :=
    replace (b' ++ ":" :: told) (b' ++ ":" :: tnew)
      (w1 ++ lit "FROM " ++ w3 ++ X ++ trail) in
  startswith (lit "FROM ") (strip line') = true /\
  image_part_of (strip line') = (pre0 ++ b') ++ ":" :: tnew ++ tail.
Proof.
  intros H1 H3 Ht HX Hip Hp0 Hc0 Hs0 Hsep0 Htail0 Hnew line'.
  set (old := b' ++ ":" :: told) in *.
  set (new := b' ++ ":" :: tnew) in *.
  set (ip' := (pre0 ++ b') ++ ":" :: tnew ++ tail).
  assert (Eold : old = (b' ++ [":"]) ++ told) by (unfold old; reassociate).
  assert (Enew : new = (b' ++ [":"]) ++ tnew) by (unfold new; reassociate).
  assert (Hold : has_char ":" old = true).
  { unfold old. rewrite has_char_app, has_char_cons, Ascii.eqb_refl.
    apply orb_true_r. }
  assert (Hold0 : has_char c0 old = true).
  { rewrite Eold, has_char_app, Hc0. reflexivity. }
  assert (Hlead : has_char ":" (w1 ++ lit "FROM " ++ w3 ++ pre0) = false).
  { rewrite !has_char_app, Hp0.
    rewrite (blank_no_char ":" w1), (blank_no_char ":" w3); auto. }
  assert (Htrim : trimmed ip').
  { pose proof (cut_alias_trimmed _ HX) as T. rewrite Hip in T.
    replace ((pre0 ++ b') ++ ":" :: told ++ tail)
      with (((pre0 ++ b') ++ [":"]) ++ told ++ tail) in T by reassociate.
    replace ip' with (((pre0 ++ b') ++ [":"]) ++ tnew ++ tail)
      by (unfold ip'; reassociate).
    eapply trimmed_swap; eauto.
    intros E. apply app_eq_nil in E. destruct E as [_ E]. discriminate. }
  assert (Hip' : ~ blank ip').
  { apply (char_not_blank ":"); [reflexivity|].
    unfold ip'. rewrite has_char_app, has_char_cons, Ascii.eqb_refl.
    apply orb_true_r. }
  assert (Hspace : has_char " " tnew = false)
    by now apply plain_tag_has_char.
  destruct (alias_shape X (pre0 ++ b') told tail HX Hip)
    as [[EX HnoAS] | (w5 & R & H5 & HR & EX & HA & Hbef)].
  - (* no AS clause *)
    assert (E : line' = w1 ++ lit "FROM " ++ w3 ++ (ip' ++ trail)).
    { unfold line'.
      replace (w1 ++ lit "FROM " ++ w3 ++ X ++ trail)
        with ((w1 ++ lit "FROM " ++ w3 ++ pre0) ++ old ++ (tail ++ trail))
        by (rewrite EX; unfold old; reassociate).
      rewrite (replace_first ":") by assumption.
      rewrite (replace_none c0); try assumption.
      - unfold new, ip'. reassociate.
      - rewrite has_char_app, Htail0. now apply blank_no_char. }
    assert (HZ : ~ blank (ip' ++ trail)).
    { intros Hb. apply blank_app in Hb. tauto. }
    destruct (line_compose w1 w3 (ip' ++ trail) H1 H3 HZ) as [Hs Hi].
    rewrite E. split; [exact Hs|].
    rewrite image_part_of_cut, Hi.
    replace (ip' ++ trail) with ([] ++ ip' ++ trail) by reflexivity.
    rewrite strip_between; try assumption; [|apply blank_nil].
    apply cut_alias_plain; [assumption|].
    rewrite EX in HnoAS. unfold ip'.
    rewrite contains_pivot in * by reflexivity.
    apply orb_false_iff in HnoAS. destruct HnoAS as [-> HnoAS]. simpl.
    unfold lit. simpl list_ascii_of_string.
    rewrite contains_skip by assumption.
    destruct (contains _ tail) eqn:Et; [|reflexivity].
    rewrite (contains_app_r _ told tail) in HnoAS; [discriminate|].
    exact Et.
  - (* an AS clause *)
    assert (HRt : ~ blank (R ++ trail)).
    { intros Hb. apply blank_app in Hb. tauto. }
    assert (Hw : has_char c0 (tail ++ w5 ++ lit " AS ") = false).
    { rewrite !has_char_app, Htail0, Hsep0.
      now rewrite (blank_no_char c0 w5). }
    destruct (replace_keeps_prefix c0 (b' ++ [":"]) told tnew
                (tail ++ w5 ++ lit " AS ") (R ++ trail) Hc0 Hs0 Hw HRt)
      as (R' & ER & HR').
    rewrite <- Eold, <- Enew in ER.
    assert (E : line' = w1 ++ lit "FROM " ++ w3 ++
                        (ip' ++ w5 ++ lit " AS " ++ R')).
    { unfold line'.
      replace (w1 ++ lit "FROM " ++ w3 ++ X ++ trail)
        with ((w1 ++ lit "FROM " ++ w3 ++ pre0) ++ old ++
              ((tail ++ w5 ++ lit " AS ") ++ R ++ trail))
        by (rewrite EX; unfold old; reassociate).
      rewrite (replace_first ":") by assumption.
      rewrite ER. unfold new, ip'. reassociate. }
    assert (HZ : ~ blank (ip' ++ w5 ++ lit " AS " ++ R')).
    { intros Hb. apply blank_app in Hb. tauto. }
    destruct (line_compose w1 w3 _ H1 H3 HZ) as [Hs Hi].
    rewrite E. split; [exact Hs|].
    rewrite image_part_of_cut, Hi.
    assert (Es : strip (ip' ++ w5 ++ lit " AS " ++ R')
                 = ip' ++ w5 ++ lit " AS " ++ rstrip R').
    { unfold strip. rewrite lstrip_app by assumption.
      destruct Htrim as [-> _].
      rewrite !app_assoc. rewrite rstrip_app by assumption. reflexivity. }
    rewrite Es. unfold cut_alias.
    assert (Hc : contains (lit " AS ")
                   (ip' ++ w5 ++ lit " AS " ++ rstrip R') = true).
    { rewrite app_assoc. apply contains_app_r.
      rewrite <- (app_nil_l (lit " AS " ++ rstrip R')).
      destruct (lit " AS " ++ rstrip R') eqn:El; cbn [contains app];
        rewrite <- El; now rewrite startswith_app. }
    apply contains_upper in Hc. rewrite upper_separator in Hc. rewrite Hc.
    assert (Eb : before (lit " AS ")
                   (ip' ++ w5 ++ lit " AS " ++ rstrip R') = ip' ++ w5).
    { unfold ip'. rewrite <- app_assoc.
      replace ((":" :: tnew ++ tail) ++ w5 ++ lit " AS " ++ rstrip R')
        with (":" :: tnew ++ (tail ++ w5) ++ lit " AS " ++ rstrip R')
        by reassociate.
      rewrite before_pivot by (discriminate || reflexivity).
      rewrite HA. unfold lit at 1. simpl list_ascii_of_string.
      rewrite before_skip by assumption.
      change (" " :: "A" :: "S" :: [" "]) with (lit " AS ").
      rewrite before_tail, <- (before_tail _ _ R).
      replace (told ++ tail ++ w5 ++ lit " AS " ++ R)
        with (told ++ ((tail ++ w5) ++ lit " AS " ++ R)) in Hbef
        by reassociate.
      replace (told ++ tail ++ w5) with (told ++ (tail ++ w5)) in Hbef
        by reassociate.
      apply before_drop_prefix in Hbef. rewrite Hbef. reassociate. }
    rewrite Eb.
    replace (ip' ++ w5) with ([] ++ ip' ++ w5) by reflexivity.
    apply strip_between; try assumption. apply blank_nil.
Qed.

(** ** The reference of a checked image inside its image part *)

Lemma split_join (c : ascii) (parts : list str) :
  parts <> [] ->
  Forall (fun p => has_char c p = false) parts ->
  split_char c (join c parts) = parts.
Proof.
  induction parts as [|p parts IH]; [congruence|]. intros _ H.
  inversion H as [|? ? Hp Hrest]; subst.
  destruct parts as [|q parts].
  - simpl. now apply split_char_none.
  - change (join c (p :: q :: parts)) with (p ++ c :: join c (q :: parts)).
    rewrite split_char_app by assumption.
    rewrite IH; [reflexivity|discriminate|assumption].
Qed.

Lemma startswith_same_head (a : ascii) (p r1 r2 : str) :
  p <> [] -> startswith [a] (p ++ r1) = startswith [a] (p ++ r2).
Proof. destruct p; [congruence|reflexivity]. Qed.

(** What lies between the first and the second [:] of a text. *)
Lemma first_segment (c : ascii) (r : str) :
  exists seg tail,
    r = seg ++ tail /\
    hd [] (split_char c r) = seg /\
    has_char c seg = false /\
    (tail = [] \/ exists more, tail = c :: more).
Proof.
  destruct (has_char c r) eqn:E.
  - destruct (has_char_split _ _ E) as (u & v & -> & Hu).
    exists u, (c :: v). rewrite split_char_app by assumption.
    repeat split; try assumption. right. now exists v.
  - exists r, []. rewrite (split_char_none _ _ E), app_nil_r.
    repeat split; try assumption. now left.
Qed.

Lemma checked_tag (image : DockerImage) :
  _should_check_image image = true -> tag image <> lit "latest".
Proof.
  unfold _should_check_image. intros H E.
  rewrite E, str_eqb_refl in H. discriminate.
Qed.

Lemma hub_shape (ip : str) (image : DockerImage) :
  parse_image_part ip = Some image ->
  _should_check_image image = true ->
  (has_char "/" ip && (2 <=? count "/" ip)%nat) = false ->
  reference_shape ip image ":" [] (name image) [].
Proof.
  intros Hp Hc Hb. apply checked_tag in Hc. revert Hp.
  unfold parse_image_part.
  destruct (str_eqb (lower ip) (lit "scratch") || startswith (lit "$") ip)
    eqn:Eg; [discriminate|].
  rewrite Hb.
  destruct (has_char ":" ip) eqn:Ec.
  2:{ intros [= <-]. simpl in Hc. congruence. }
  destruct (rsplit1 ":" ip) as [[n t]|] eqn:Er.
  2:{ apply rsplit1_none in Er. congruence. }
  intros [= <-]. destruct (rsplit1_some _ _ _ _ Er) as [Eip Ht].
  apply orb_false_iff in Eg. destruct Eg as [_ Eg].
  unfold reference_shape. cbn [name tag registry app].
  rewrite !app_nil_r.
  split; [exact Eip|]. split; [reflexivity|]. split; [reflexivity|].
  split; [now rewrite has_char_app, has_char_cons, orb_true_r|].
  split; [reflexivity|]. split; [reflexivity|]. split; [reflexivity|].
  intros tnew Hnew. rewrite app_nil_r.
  assert (Hcolon : has_char ":" tnew = false)
    by now apply plain_tag_has_char.
  assert (Hslash : has_char "/" tnew = false)
    by now apply plain_tag_has_char.
  unfold parse_image_part.
  assert (H1 : has_char ":" (n ++ ":" :: tnew) = true).
  { now rewrite has_char_app, has_char_cons, Ascii.eqb_refl, orb_true_r. }
  rewrite (not_scratch ":" _ eq_refl eq_refl H1).
  assert (H2 : startswith (lit "$") (n ++ ":" :: tnew) = false).
  { rewrite Eip in Eg. destruct n; [reflexivity|exact Eg]. }
  rewrite H2. cbn [orb].
  assert (H3 : (has_char "/" (n ++ ":" :: tnew)
                && (2 <=? count "/" (n ++ ":" :: tnew))%nat) = false).
  { assert (Ecount : forall u, count "/" (n ++ ":" :: u)
                                 = count "/" n + count "/" u).
    { intros u. now rewrite count_app, count_cons. }
    apply andb_false_iff. right. apply Nat.leb_gt.
    apply count_zero in Hslash. rewrite Ecount, Hslash.
    apply andb_false_iff in Hb. rewrite Eip in Hb.
    destruct Hb as [Hb|Hb].
    - apply count_zero in Hb. rewrite Ecount in Hb. lia.
    - apply Nat.leb_gt in Hb. rewrite Ecount in Hb. lia. }
  rewrite H3, H1. now rewrite rsplit1_app.
Qed.

Lemma registry_join (reg : str) (middle : list str) (final : str) :
  middle <> [] ->
  join "/" (reg :: middle ++ [final])
  = reg ++ "/" :: join "/" middle ++ "/" :: final.
Proof.
  intros H. rewrite <- join_snoc by assumption.
  destruct middle as [|m middle]; [congruence|]. reflexivity.
Qed.

Lemma nth_1_cons {A} (x : A) (l : list A) (d : A) :
  nth 1 (x :: l) d = hd d l.
Proof. now destruct l. Qed.

(** An image part built from segments is parsed back into them. *)
Lemma parse_segments (reg : str) (middle : list str) (n0 t tail : str) :
  middle <> [] ->
  Forall (fun p => has_char "/" p = false) (reg :: middle) ->
  has_char "/" (n0 ++ ":" :: t ++ tail) = false ->
  has_char ":" n0 = false -> has_char ":" t = false ->
  (tail = [] \/ exists more, tail = ":" :: more) ->
  startswith (lit "$")
    (join "/" (reg :: middle ++ [n0 ++ ":" :: t ++ tail])) = false ->
  parse_image_part (join "/" (reg :: middle ++ [n0 ++ ":" :: t ++ tail]))
  = Some (mkDockerImage (join "/" middle ++ "/" :: n0) t (Some reg)).
Proof.
  intros Hm Hparts Hfinal Hn0 Ht Htail Hd.
  set (final := n0 ++ ":" :: t ++ tail) in *.
  assert (Es : split_char "/" (join "/" (reg :: middle ++ [final]))
               = reg :: middle ++ [final]).
  { apply split_join; [discriminate|].
    change (reg :: middle ++ [final]) with ((reg :: middle) ++ [final]).
    apply Forall_app. split; [assumption|]. now repeat constructor. }
  assert (Hcount : 2 <= count "/" (join "/" (reg :: middle ++ [final]))).
  { pose proof (split_char_length "/"
                  (join "/" (reg :: middle ++ [final]))) as L.
    rewrite Es in L. cbn [List.length] in L. rewrite length_app in L.
    destruct middle; [congruence|]. cbn [List.length] in L. lia. }
  rewrite parse_registry_branch by assumption. cbv zeta. rewrite Es.
  cbn [hd tl]. rewrite removelast_last.
  change (reg :: middle ++ [final]) with ((reg :: middle) ++ [final]).
  rewrite last_last.
  assert (Ef : split_char ":" final = n0 :: split_char ":" (t ++ tail)).
  { unfold final. now apply split_char_app. }
  assert (Hf : has_char ":" final = true).
  { unfold final.
    now rewrite has_char_app, has_char_cons, Ascii.eqb_refl, orb_true_r. }
  rewrite Ef, Hf, nth_1_cons. cbn [hd].
  destruct Htail as [->|(more & ->)].
  - rewrite app_nil_r. now rewrite split_char_none.
  - now rewrite split_char_app.
Qed.

Lemma registry_shape (ip : str) (image : DockerImage) :
  parse_image_part ip = Some image ->
  _should_check_image image = true ->
  (has_char "/" ip && (2 <=? count "/" ip)%nat) = true ->
  exists pre0 b' tail, reference_shape ip image "/" pre0 b' tail.
Proof.
  intros Hp Hc Hb. apply checked_tag in Hc.
  apply andb_true_iff in Hb. destruct Hb as [_ Hb]. apply Nat.leb_le in Hb.
  assert (Hd : startswith (lit "$") ip = false).
  { revert Hp. unfold parse_image_part.
    destruct (startswith (lit "$") ip); [|reflexivity].
    now rewrite orb_true_r. }
  rewrite parse_registry_branch in Hp by assumption. cbv zeta in Hp.
  destruct (registry_segments ip Hb) as (reg & middle & Es & Hm).
  pose proof (split_char_segments "/" ip) as Hseg.
  pose proof (join_split "/" ip) as Ej.
  remember (last (split_char "/" ip) []) as final eqn:Elast in *.
  clear Elast.
  rewrite Es in Hp, Hseg, Ej. cbn [hd tl] in Hp.
  rewrite removelast_last in Hp.
  change (reg :: middle ++ [final]) with ((reg :: middle) ++ [final]) in Hseg.
  apply Forall_app in Hseg. destruct Hseg as [Hseg Hfin].
  apply Forall_inv in Hfin. rename Hfin into Hfinal.
  destruct (has_char ":" final) eqn:Ef.
  2:{ injection Hp as <-. simpl in Hc. congruence. }
  destruct (has_char_split _ _ Ef) as (n0 & r1 & Efinal & Hn0).
  destruct (first_segment ":" r1) as (told & tail & Er1 & Ehd & Hto & Htail).
  rewrite Efinal in Hp.
  rewrite (split_char_app ":" n0 r1 Hn0), nth_1_cons in Hp.
  cbn [hd] in Hp.
  assert (Himage :
    image = mkDockerImage (join "/" middle ++ "/" :: n0) told (Some reg)).
  { injection Hp as <-. f_equal. exact Ehd. }
  clear Hp. subst image.
  rewrite Er1 in Efinal.
  assert (Hsl : has_char "/" (n0 ++ ":" :: told ++ tail) = false)
    by now rewrite <- Efinal.
  assert (Hsl' : has_char "/" n0 = false /\ has_char "/" tail = false).
  { rewrite has_char_app, has_char_cons, has_char_app in Hsl.
    apply orb_false_iff in Hsl. destruct Hsl as [H1 Hsl].
    apply orb_false_iff in Hsl. destruct Hsl as [_ Hsl].
    apply orb_false_iff in Hsl. tauto. }
  destruct Hsl' as [Hsn Hst].
  assert (Eip : forall t,
    join "/" (reg :: middle ++ [n0 ++ ":" :: t ++ tail])
    = reg ++ "/" :: (join "/" middle ++ "/" :: n0) ++ ":" :: t ++ tail).
  { intros t. rewrite registry_join by assumption. reassociate. }
  assert (Hreparse : forall pre0 b',
    (forall t, (pre0 ++ b') ++ ":" :: t ++ tail
               = join "/" (reg :: middle ++ [n0 ++ ":" :: t ++ tail])) ->
    forall tnew, plain_tag tnew ->
    parse_image_part ((pre0 ++ b') ++ ":" :: tnew ++ tail)
    = Some (mkDockerImage (join "/" middle ++ "/" :: n0) tnew (Some reg))).
  { intros pre0 b' Eshape tnew Hnew.
    assert (Hne : (pre0 ++ b') ++ [":"] <> []).
    { intros E. apply app_eq_nil in E. destruct E as [_ E]. discriminate. }
    rewrite Eshape. apply parse_segments; try assumption.
    - rewrite has_char_app, has_char_cons, has_char_app, Hsn, Hst.
      now rewrite (plain_tag_has_char "/" tnew Hnew).
    - now apply plain_tag_has_char.
    - rewrite <- Eshape. rewrite <- Ej, Efinal, <- Eshape in Hd.
      replace ((pre0 ++ b') ++ ":" :: tnew ++ tail)
        with (((pre0 ++ b') ++ [":"]) ++ tnew ++ tail) by reassociate.
      replace ((pre0 ++ b') ++ ":" :: told ++ tail)
        with (((pre0 ++ b') ++ [":"]) ++ told ++ tail) in Hd by reassociate.
      etransitivity; [|exact Hd].
      now apply (startswith_same_head "$" ((pre0 ++ b') ++ [":"])). }
  assert (Hslash : has_char "/" ((join "/" middle ++ "/" :: n0) ++ [":"])
                   = true).
  { rewrite !has_char_app, has_char_cons, Ascii.eqb_refl.
    now rewrite !orb_true_r. }
  unfold reference_shape. cbn [name tag registry].
  destruct reg as [|r0 reg].
  - exists ["/"], (join "/" middle ++ "/" :: n0), tail.
    assert (Eshape : forall t,
      (["/"] ++ join "/" middle ++ "/" :: n0) ++ ":" :: t ++ tail
      = join "/" ([] :: middle ++ [n0 ++ ":" :: t ++ tail])).
    { intros t. rewrite Eip. reassociate. }
    split; [now rewrite Eshape, <- Efinal|].
    split; [reflexivity|]. split; [reflexivity|].
    split; [exact Hslash|]. split; [reflexivity|]. split; [reflexivity|].
    split; [exact Hst|]. now apply Hreparse.
  - exists [], ((r0 :: reg) ++ "/" :: join "/" middle ++ "/" :: n0), tail.
    assert (Eshape : forall t,
      ([] ++ (r0 :: reg) ++ "/" :: join "/" middle ++ "/" :: n0)
        ++ ":" :: t ++ tail
      = join "/" ((r0 :: reg) :: middle ++ [n0 ++ ":" :: t ++ tail])).
    { intros t. rewrite Eip. reassociate. }
    split; [now rewrite Eshape, <- Efinal|].
    split; [intros t; unfold image_str; cbn [name tag registry];
            reassociate|].
    split; [reflexivity|].
    split.
    { replace (((r0 :: reg) ++ "/" :: join "/" middle ++ "/" :: n0) ++ [":"])
        with (((r0 :: reg) ++ ["/"]) ++
              ((join "/" middle ++ "/" :: n0) ++ [":"])) by reassociate.
      rewrite has_char_app, Hslash. apply orb_true_r. }
    split; [reflexivity|]. split; [reflexivity|].
    split; [exact Hst|]. now apply Hreparse.
Qed.

(** Both branches of the parser. *)
Lemma checked_reference_shape (ip : str) (image : DockerImage) :
  parse_image_part ip = Some image ->
  _should_check_image image = true ->
  exists c0 pre0 b' tail, reference_shape ip image c0 pre0 b' tail.
Proof.
  intros Hp Hc.
  destruct (has_char "/" ip && (2 <=? count "/" ip)%nat) eqn:Hb.
  - destruct (registry_shape ip image Hp Hc Hb) as (pre0 & b' & tail & H).
    now exists "/", pre0, b', tail.
  - exists ":", [], (name image), []. now apply hub_shape.
Qed.

(** ** The tags the resolver proposes *)

Lemma span_spec (p : ascii -> bool) (s : str) :
  s = fst (span p s) ++ snd (span p s) /\ forallb p (fst (span p s)) = true.
Proof.
  induction s as [|c s [IH1 IH2]]; [now split|].
  simpl. destruct (p c) eqn:E; [|now split].
  destruct (span p s) as [a b]. simpl in *. split; [now f_equal|].
  now rewrite E.
Qed.

Lemma digit_suffix_char (c : ascii) :
  is_digit c = true -> is_suffix_char c = true.
Proof. by_cases_on_char c. Qed.

Lemma digits_suffix_chars (s : str) :
  forallb is_digit s = true -> forallb is_suffix_char s = true.
Proof.
  rewrite !forallb_forall. intros H c Hc. now apply digit_suffix_char, H.
Qed.

Lemma drop_v_split (tag : str) :
  exists v, tag = v ++ drop_v tag /\ forallb is_suffix_char v = true.
Proof.
  destruct tag as [|c tag]; [now exists []|].
  destruct (Ascii.eqb c "v") eqn:E.
  - apply Ascii.eqb_eq in E. subst c. now exists ["v"].
  - exists []. split; [|reflexivity]. simpl.
    destruct c as [[] [] [] [] [] [] [] []];
      first [reflexivity | discriminate E].
Qed.

(** What the version pattern consumes is made of plain characters. *)
Lemma match_version_plain (tag major minor : str) (patch : option str)
    (rest : str) :
  match_version tag = Some (major, minor, patch, rest) ->
  exists pre,
    tag = pre ++ rest /\ pre <> [] /\ forallb is_suffix_char pre = true.
Proof.
  unfold match_version.
  destruct (drop_v_split tag) as (v & Ev & Hv).
  pose proof (span_spec is_digit (drop_v tag)) as [E1 D1].
  destruct (span is_digit (drop_v tag)) as [d1 r1]. simpl in E1, D1.
  destruct d1 as [|x d1]; [discriminate|].
  destruct r1 as [|c1 r2]; [discriminate|].
  destruct (Ascii.eqb c1 ".") eqn:Ec1.
  2:{ destruct c1 as [[] [] [] [] [] [] [] []]; discriminate. }
  apply Ascii.eqb_eq in Ec1. subst c1.
  pose proof (span_spec is_digit r2) as [E2 D2].
  destruct (span is_digit r2) as [d2 r3]. simpl in E2, D2.
  destruct d2 as [|y d2]; [discriminate|].
  assert (Hpre : forallb is_suffix_char
                   (v ++ (x :: d1) ++ "." :: y :: d2) = true).
  { rewrite !forallb_app. rewrite Hv, (digits_suffix_chars _ D1).
    change ("." :: y :: d2) with (["."] ++ y :: d2).
    rewrite forallb_app, (digits_suffix_chars _ D2). reflexivity. }
  assert (Etag : tag = (v ++ (x :: d1) ++ "." :: y :: d2) ++ r3).
  { rewrite Ev at 1. rewrite E1, E2. reassociate. }
  assert (Hshort :
    Some (x :: d1, y :: d2, @None str, r3) = Some (major, minor, patch, rest) ->
    exists pre,
      tag = pre ++ rest /\ pre <> [] /\ forallb is_suffix_char pre = true).
  { intros [= <- <- <- <-]. exists (v ++ (x :: d1) ++ "." :: y :: d2).
    split; [exact Etag|]. split; [|exact Hpre].
    intros E. apply app_eq_nil in E. destruct E as [_ E]. discriminate. }
  destruct r3 as [|c3 r4]; [exact Hshort|].
  destruct (Ascii.eqb c3 ".") eqn:Ec3.
  2:{ destruct c3 as [[] [] [] [] [] [] [] []];
        first [exact Hshort | discriminate Ec3]. }
  apply Ascii.eqb_eq in Ec3. subst c3.
  pose proof (span_spec is_digit r4) as [E4 D4].
  destruct (span is_digit r4) as [d3 r5]. simpl in E4, D4.
  destruct d3 as [|z d3]; [exact Hshort|].
  intros [= <- <- <- <-].
  exists ((v ++ (x :: d1) ++ "." :: y :: d2) ++ "." :: z :: d3).
  split; [rewrite Etag, E4; reassociate|]. split.
  - intros E. apply app_eq_nil in E. destruct E as [_ E]. discriminate.
  - rewrite forallb_app, Hpre.
    change ("." :: z :: d3) with (["."] ++ z :: d3).
    now rewrite forallb_app, (digits_suffix_chars _ D4).
Qed.

Lemma at_end_line_feed (s : str) :
  at_end s = true -> has_char "010" s = false -> s = [].
Proof.
  destruct s as [|c [|d s]]; simpl; try discriminate; [reflexivity|].
  intros E. apply Ascii.eqb_eq in E. subst c. discriminate.
Qed.

(** A semantic-version tag without line feed is plain. *)
Lemma semantic_plain (t : str) :
  _is_semantic_version t = true -> has_char "010" t = false -> plain_tag t.
Proof.
  unfold _is_semantic_version.
  destruct (match_version t) as [[[[major minor] patch] rest]|] eqn:E;
    [|discriminate].
  destruct (match_version_plain _ _ _ _ _ E) as (pre & -> & Hne & Hpre).
  intros Hs Hlf. rewrite has_char_app in Hlf.
  apply orb_false_iff in Hlf. destruct Hlf as [_ Hlf].
  split.
  - intros E'. apply app_eq_nil in E'. tauto.
  - rewrite forallb_app, Hpre. cbn [andb].
    unfold match_suffix in Hs. apply orb_true_iff in Hs.
    destruct Hs as [Hs|Hs].
    + now rewrite (at_end_line_feed _ Hs Hlf).
    + destruct rest as [|c r]; [reflexivity|].
      destruct (Ascii.eqb c "-") eqn:Ec.
      2:{ destruct c as [[] [] [] [] [] [] [] []]; discriminate. }
      apply Ascii.eqb_eq in Ec. subst c.
      pose proof (span_spec is_suffix_char r) as [Er Hb].
      destruct (span is_suffix_char r) as [body rest']. simpl in Er, Hb.
      destruct body as [|b body]; [discriminate|].
      rewrite Er in Hlf |- *.
      rewrite has_char_cons, has_char_app in Hlf.
      apply orb_false_iff in Hlf. destruct Hlf as [_ Hlf].
      apply orb_false_iff in Hlf. destruct Hlf as [_ Hlf].
      rewrite (at_end_line_feed _ Hs Hlf), app_nil_r.
      change (forallb is_suffix_char ("-" :: b :: body))
        with (is_suffix_char "-" && forallb is_suffix_char (b :: body)).
      now rewrite Hb.
Qed.

Lemma latest_plain : plain_tag (lit "latest").
Proof. split; [discriminate|reflexivity]. Qed.

(** The tag proposed by Docker Hub is [latest] or a semantic version. *)
Lemma get_latest_tag_cases (limit : nat)
    (response : option (list str)) (t : str) :
  get_latest_tag limit response = Some t ->
  t = lit "latest" \/ _is_semantic_version t = true.
Proof.
  unfold get_latest_tag. destruct response as [tags|]; [|discriminate].
  destruct (filter _is_semantic_version tags) as [|s l] eqn:E.
  - destruct (existsb _ tags); [|discriminate]. intros [= <-]. now left.
  - intros H. right. apply latest_returned in H as [H _].
    apply py_max_in in H. rewrite <- E in H.
    now apply filter_In in H.
Qed.

(** What a candidate of the scan is made of. *)
Lemma scan_image_some (limit : nat) (path : str) (i : nat) (image : DockerImage)
    (response : option (list str)) (candidate : UpdateCandidate) :
  scan_image limit path i image response = Some candidate ->
  _should_check_image image = true /\
  current_image candidate = image /\
  latest_image candidate
  = mkDockerImage (name image) (tag (latest_image candidate))
      (registry image) /\
  tag (latest_image candidate) <> tag image /\
  (tag (latest_image candidate) = lit "latest" \/
   _is_semantic_version (tag (latest_image candidate)) = true).
Proof.
  unfold scan_image.
  destruct (_should_check_image image); [|discriminate].
  destruct (get_latest_tag limit response) as [t|] eqn:E; [|discriminate].
  destruct t as [|c t]; [discriminate|].
  destruct (str_eqb (c :: t) (tag image)) eqn:Et; [discriminate|].
  intros [= <-]. cbn [current_image latest_image tag].
  repeat split.
  - now apply str_eqb_neq.
  - now apply get_latest_tag_cases in E.
Qed.

(** ** The round trip: scan, rewrite, parse again *)

Lemma has_char_before (c : ascii) (sep s : str) :
  has_char c s = false -> has_char c (before sep s) = false.
Proof.
  induction s as [|x s IH]; rewrite before_unfold.
  - now destruct (startswith sep []).
  - destruct (startswith sep (x :: s)); [reflexivity|].
    rewrite !has_char_cons. intros H. apply orb_false_iff in H.
    destruct H as [-> H]. now apply IH.
Qed.

Lemma has_char_strip (c : ascii) (s : str) :
  has_char c s = false -> has_char c (strip s) = false.
Proof.
  destruct (strip_split s) as (w1 & w2 & _ & _ & E). intros H.
  rewrite E, !has_char_app in H.
  apply orb_false_iff in H. destruct H as [_ H].
  now apply orb_false_iff in H.
Qed.

Lemma has_char_cut_alias (c : ascii) (s : str) :
  has_char c s = false -> has_char c (cut_alias s) = false.
Proof.
  intros H. unfold cut_alias.
  destruct (contains (lit " AS ") (upper s)); [|exact H].
  now apply has_char_strip, has_char_before.
Qed.

(** C6, as stated, fails: [_is_semantic_version] ends its pattern with [$],
    which also matches before a final line feed; the tag "3.10.0\n" is
    proposed, written into the Dockerfile, and read back without the line
    feed. *)
Lemma round_trip_counterexample : ~ round_trip_as_stated.
Proof.
  intros H.
  destruct (H 4300 (lit "FROM python:3.9") (lit "Dockerfile") 0
              (mkDockerImage (lit "python") (lit "3.9") None)
              (Some [lit "3.10.0" ++ ["010"]])
              (mkUpdateCandidate
                 (mkDockerImage (lit "python") (lit "3.9") None)
                 (mkDockerImage (lit "python") (lit "3.10.0" ++ ["010"]) None)
                 (lit "Dockerfile") 1)
              eq_refl eq_refl) as (image' & Hin & Ht).
  vm_compute in Hin. destruct Hin as [<-|[]]. discriminate Ht.
Qed.

(** C6, amended.  For a candidate the scan produces from an image parsed in
    the Dockerfile, when the latest tag holds no line feed, the Dockerfile
    rewritten by [_update_dockerfile] and parsed again holds the candidate's
    latest image: same name and registry, and the latest tag. *)
Theorem round_trip (limit : nat)
    (content path : str) (i : nat) (image : DockerImage)
    (response : option (list str)) (candidate : UpdateCandidate) :
  nth_error (parse_dockerfile content) i = Some image ->
  scan_image limit path i image response = Some candidate ->
  has_char "010" (tag (latest_image candidate)) = false ->
  exists image',
    In image' (parse_dockerfile (updated_content content candidate)) /\
    image' = latest_image candidate /\
    tag image' = tag (latest_image candidate).
Proof.
  intros Hnth Hscan Hlf. apply nth_error_In in Hnth.
  destruct (scan_image_some _ _ _ _ _ _ Hscan)
    as (Hcheck & Ecur & Elat & Hdiff & Hkind).
  set (tnew := tag (latest_image candidate)) in *.
  assert (Hnew : plain_tag tnew).
  { destruct Hkind as [->|Hsem]; [apply latest_plain|].
    now apply semantic_plain. }
  exists (latest_image candidate). split; [|now split].
  unfold parse_dockerfile in Hnth.
  destruct (parse_lines_in _ _ Hnth) as (line & Hline & Hfrom & Hparse).
  destruct (line_decompose line Hfrom)
    as (w1 & w3 & X & trail & Eline & H1 & H3 & Ht & HX & HXn & EX).
  unfold _parse_from_statement in Hparse.
  rewrite image_part_of_cut, EX in Hparse.
  destruct (checked_reference_shape _ _ Hparse Hcheck)
    as (c0 & pre0 & b' & tail & Eip & Estr & Hp0 & Hc0 & Hs0 & Hsep & Htl
        & Hre).
  (* neither reference holds a line feed *)
  assert (Hline_lf : has_char "010" line = false).
  { pose proof (split_char_segments "010" content) as F.
    rewrite Forall_forall in F. now apply F. }
  assert (Hip_lf : has_char "010" (cut_alias X) = false).
  { apply has_char_cut_alias. rewrite Eline in Hline_lf.
    rewrite !has_char_app in Hline_lf.
    repeat (apply orb_false_iff in Hline_lf;
            destruct Hline_lf as [? Hline_lf]).
    assumption. }
  assert (Hb_lf : has_char "010" b' = false /\
                  has_char "010" (tag image) = false).
  { rewrite Eip, !has_char_app, has_char_cons, has_char_app in Hip_lf.
    repeat (apply orb_false_iff in Hip_lf; destruct Hip_lf as [? Hip_lf]).
    match goal with H : has_char _ pre0 || has_char _ b' = false |- _ =>
      apply orb_false_iff in H; destruct H end.
    now split. }
  destruct Hb_lf as [Hb_lf Hold_lf].
  assert (Eold : image_str (current_image candidate) = b' ++ ":" :: tag image).
  { rewrite Ecur, <- Estr. now destruct image. }
  assert (Enew : image_str (latest_image candidate) = b' ++ ":" :: tnew).
  { rewrite Elat. apply Estr. }
  unfold updated_content, parse_dockerfile. rewrite Eold, Enew.
  rewrite (split_replace "010").
  - apply (parse_lines_intro _
             (replace (b' ++ ":" :: tag image) (b' ++ ":" :: tnew) line)).
    + now apply in_map.
    + rewrite Eline.
      now apply (rewrite_line c0 w1 w3 X trail pre0 b' (tag image) tnew tail).
    + unfold _parse_from_statement. rewrite Eline.
      destruct (rewrite_line c0 w1 w3 X trail pre0 b' (tag image) tnew tail)
        as [_ ->]; try assumption.
      rewrite (Hre tnew Hnew). now rewrite <- Elat.
  - intros E. apply app_eq_nil in E. destruct E as [_ E]. discriminate.
  - rewrite has_char_app, has_char_cons, Hb_lf, Hold_lf. reflexivity.
  - rewrite has_char_app, has_char_cons, Hb_lf, Hlf. reflexivity.
Qed.

Lemma round_trip_witness :
  exists image',
    In image'
      (parse_dockerfile
         (updated_content
            (lit "FROM node:16.20.0-alpine AS builder" ++ "010" ::
             lit "FROM nginx:1.23.0")
            (mkUpdateCandidate
               (mkDockerImage (lit "nginx") (lit "1.23.0") None)
               (mkDockerImage (lit "nginx") (lit "1.25.3") None)
               (lit "Dockerfile") 2))) /\
    image' = mkDockerImage (lit "nginx") (lit "1.25.3") None /\
    tag image' = lit "1.25.3".
Proof.
  apply (round_trip 4300
           (lit "FROM node:16.20.0-alpine AS builder" ++ "010" ::
            lit "FROM nginx:1.23.0")
           (lit "Dockerfile") 1
           (mkDockerImage (lit "nginx") (lit "1.23.0") None)
           (Some [lit "1.24.0"; lit "1.25.3"; lit "latest"]));
    reflexivity.
Defined.

(* ================================================================== *)
(** * Further properties of the scanner *)
(* ================================================================== *)

(** ** DockerHubAPI.get_latest_tag *)

Lemma existsb_latest (tags : list str) :
  existsb (str_eqb (lit "latest")) tags = true <-> In (lit "latest") tags.
Proof.
  rewrite existsb_exists. split.
  - intros (x & Hx & E). apply str_eqb_eq in E. now subst.
  - intros H. exists (lit "latest"). split; [exact H|apply str_eqb_refl].
Qed.

Lemma filter_nil_iff {A} (p : A -> bool) (l : list A) :
  filter p l = [] <-> forall x, In x l -> p x = false.
Proof.
  induction l as [|a l IH]; simpl.
  - split; [intros _ x []|reflexivity].
  - destruct (p a) eqn:E.
    + split; [discriminate|]. intros H. rewrite (H a) in E by now left.
      discriminate.
    + rewrite IH. split.
      * intros H x [<-|Hx]; auto.
      * intros H x Hx. apply H. now right.
Qed.

(** X1.  The tag [get_latest_tag] proposes is one of the tags of the reply:
    either a semantic version that no semantic version of the reply exceeds,
    or, when the reply holds no semantic version at all, the tag [latest]. *)
Theorem latest_tag_choice (limit : nat) (tags : list str) (t : str) :
  get_latest_tag limit (Some tags) = Some t ->
  In t tags /\
  ((_is_semantic_version t = true /\
    forall u, In u tags -> _is_semantic_version u = true ->
      ~ version_lt (version_key t) (version_key u)) \/
   (t = lit "latest" /\
    forall u, In u tags -> _is_semantic_version u = false)).
Proof.
  unfold get_latest_tag.
  destruct (filter _is_semantic_version tags) as [|s l] eqn:E.
  - destruct (existsb _ tags) eqn:El; [|discriminate]. intros [= <-].
    split; [now apply existsb_latest|]. right. split; [reflexivity|].
    now apply filter_nil_iff.
  - intros H. rewrite <- E in H. apply latest_returned in H as [H _].
    pose proof (py_max_in _ _ _ H) as Hin. apply filter_In in Hin.
    destruct Hin as [Hin Hsem]. split; [exact Hin|]. left.
    split; [exact Hsem|]. intros u Hu Hus.
    eapply py_max_greatest; [exact H|]. apply filter_In. now split.
Qed.

Lemma latest_tag_choice_witness :
  In (lit "3.11.1") [lit "3.11.1"; lit "3.11.0"; lit "latest"] /\
  ((_is_semantic_version (lit "3.11.1") = true /\
    forall u, In u [lit "3.11.1"; lit "3.11.0"; lit "latest"] ->
      _is_semantic_version u = true ->
      ~ version_lt (version_key (lit "3.11.1")) (version_key u)) \/
   (lit "3.11.1" = lit "latest" /\
    forall u, In u [lit "3.11.1"; lit "3.11.0"; lit "latest"] ->
      _is_semantic_version u = false)).
Proof. apply (latest_tag_choice 4300). reflexivity. Defined.

(** X2.  [get_latest_tag] gives nothing exactly when the request failed,
    or the reply holds neither a semantic version nor the tag [latest], or
    a semantic version of the reply has a number of more digits than [int]
    converts: the [ValueError] of the selection is caught and turned into
    [None], whatever the other tags are. *)
Theorem latest_tag_none (limit : nat) (response : option (list str)) :
  get_latest_tag limit response = None <->
  response = None \/
  exists tags,
    response = Some tags /\
    (((forall u, In u tags -> _is_semantic_version u = false) /\
      ~ In (lit "latest") tags) \/
     (exists u, In u tags /\ _is_semantic_version u = true /\
                version_key_raises limit u = true)).
Proof.
  destruct response as [tags|]; [|split; [now left|reflexivity]].
  unfold get_latest_tag.
  destruct (filter _is_semantic_version tags) as [|s l] eqn:E.
  - pose proof (proj1 (filter_nil_iff _ _) E) as E'. clear E.
    rename E' into E.
    destruct (existsb _ tags) eqn:El.
    + apply existsb_latest in El. split; [discriminate|].
      intros [H|(tags' & [= <-] & [[_ H]|(u & Hu & Hs & _)])];
        [discriminate|contradiction|].
      rewrite (E u Hu) in Hs. discriminate Hs.
    + split; [|reflexivity]. intros _. right. exists tags.
      split; [reflexivity|]. left. split; [exact E|].
      intros H. apply existsb_latest in H. congruence.
  - rewrite <- E. split.
    + intros H. right. exists tags. split; [reflexivity|]. right.
      unfold _get_latest_semantic_version in H.
      destruct (existsb (version_key_raises limit)
                  (filter _is_semantic_version tags)) eqn:Er.
      * apply existsb_exists in Er. destruct Er as (u & Hu & Hr).
        apply filter_In in Hu. exists u. tauto.
      * exfalso.
        destruct (py_max_some version_key (filter _is_semantic_version tags))
          as [m Hm]; [rewrite E; discriminate|congruence].
    + intros [H|(tags' & [= <-] & [[H _]|(u & Hu & Hs & Hr)])];
        [discriminate| |].
      * apply (proj2 (filter_nil_iff _ _)) in H. congruence.
      * apply latest_error. apply existsb_exists. exists u.
        split; [now apply filter_In|exact Hr].
Qed.

(** An instance of the last case: a reply with the semantic version 1.0
    and one whose major number has 4301 digits gives nothing under the
    default limit. *)
Lemma latest_tag_none_long :
  get_latest_tag 4300 (Some [long_tag (lit ".0"); lit "1.0"]) = None.
Proof. vm_compute. reflexivity. Qed.

Lemma filter_split {A} (p : A -> bool) (l f1 f2 : list A) (x : A) :
  filter p l = f1 ++ x :: f2 ->
  exists l1 l2, l = l1 ++ x :: l2 /\ filter p l1 = f1 /\ filter p l2 = f2.
Proof.
  revert f1. induction l as [|a l IH]; intros f1; simpl.
  - intros E. now destruct f1.
  - destruct (p a) eqn:Ea.
    + destruct f1 as [|b f1]; simpl; intros [= -> E].
      * exists [], l. repeat split. exact E.
      * destruct (IH _ E) as (l1 & l2 & -> & H1 & H2).
        exists (b :: l1), l2. simpl. rewrite Ea, H1. now repeat split.
    + intros E. destruct (IH _ E) as (l1 & l2 & -> & H1 & H2).
      exists (a :: l1), l2. simpl. rewrite Ea. now repeat split.
Qed.

(** X3.  Among the semantic versions of the reply that share the greatest
    key, [get_latest_tag] proposes the one that comes first: every semantic
    version listed before the proposed one has a strictly smaller key. *)
Theorem latest_tag_first_of_equals (limit : nat) (tags : list str) (t : str) :
  get_latest_tag limit (Some tags) = Some t ->
  _is_semantic_version t = true ->
  exists l1 l2,
    tags = l1 ++ t :: l2 /\
    forall u, In u l1 -> _is_semantic_version u = true ->
      version_lt (version_key u) (version_key t).
Proof.
  unfold get_latest_tag. intros H Hsem.
  destruct (filter _is_semantic_version tags) as [|s l] eqn:E.
  - exfalso. destruct (existsb _ tags); [|discriminate].
    injection H as <-. discriminate Hsem.
  - rewrite <- E in H. apply latest_returned in H as [H _].
    apply py_max_split in H.
    destruct H as (f1 & f2 & Ef & Hlt & _).
    destruct (filter_split _ _ _ _ _ Ef) as (l1 & l2 & -> & H1 & _).
    exists l1, l2. split; [reflexivity|].
    intros u Hu Hus. apply Hlt. rewrite <- H1. apply filter_In. now split.
Qed.

Lemma latest_tag_first_of_equals_witness :
  exists l1 l2,
    [lit "1.2.2"; lit "1.2.3-slim"; lit "1.2.3"] = l1 ++ lit "1.2.3-slim" :: l2 /\
    forall u, In u l1 -> _is_semantic_version u = true ->
      version_lt (version_key u) (version_key (lit "1.2.3-slim")).
Proof. apply (latest_tag_first_of_equals 4300); reflexivity. Defined.

(** ** GitLabEvergreenScanner._scan_dockerfile *)

Lemma scan_images_in (limit : nat) (hub : str -> option (list str)) (path : str)
    (images : list DockerImage) : forall (k : nat) (c : UpdateCandidate),
  In c (scan_images limit hub path k images) <->
  exists j image,
    nth_error images j = Some image /\
    scan_image limit path (k + j) image (hub (name image)) = Some c.
Proof.
  induction images as [|x images IH]; intros k c.
  - split; [intros []|]. intros (j & image & H & _). now destruct j.
  - cbn [scan_images].
    assert (Hrest : In c (scan_images limit hub path (S k) images) <->
      exists j image, nth_error images j = Some image /\
        scan_image limit path (k + S j) image (hub (name image)) = Some c).
    { rewrite IH. split; intros (j & image & H1 & H2); exists j, image;
        (split; [exact H1|]).
      - now rewrite Nat.add_succ_r.
      - now rewrite Nat.add_succ_r in H2. }
    destruct (scan_image limit path k x (hub (name x))) as [c0|] eqn:E.
    + split.
      * intros [<-|H].
        -- exists 0, x. now rewrite Nat.add_0_r.
        -- apply Hrest in H. destruct H as (j & image & H1 & H2).
           now exists (S j), image.
      * intros ([|j] & image & H1 & H2).
        -- injection H1 as <-. rewrite Nat.add_0_r, E in H2.
           injection H2 as <-. now left.
        -- right. apply Hrest. now exists j, image.
    + split.
      * intros H. apply Hrest in H. destruct H as (j & image & H1 & H2).
        now exists (S j), image.
      * intros ([|j] & image & H1 & H2).
        -- injection H1 as <-. rewrite Nat.add_0_r, E in H2. discriminate.
        -- apply Hrest. now exists j, image.
Qed.

(** X4.  Every candidate of [_scan_dockerfile] comes from an image of the
    Dockerfile: its line number is the position of that image among the
    parsed images, counted from 1; its latest image has the name and the
    registry of the current one and another tag, which is the tag proposed
    by Docker Hub for the name; and the current tag is not [latest]. *)
Theorem scan_candidate_sound (limit : nat) (hub : str -> option (list str))
    (path content : str) (c : UpdateCandidate) :
  In c (_scan_dockerfile limit hub path content) ->
  dockerfile_path c = path /\
  1 <= line_number c <= List.length (parse_dockerfile content) /\
  nth_error (parse_dockerfile content) (line_number c - 1)
  = Some (current_image c) /\
  name (latest_image c) = name (current_image c) /\
  registry (latest_image c) = registry (current_image c) /\
  tag (latest_image c) <> tag (current_image c) /\
  tag (current_image c) <> lit "latest" /\
  get_latest_tag limit (hub (name (current_image c)))
  = Some (tag (latest_image c)).
Proof.
  unfold _scan_dockerfile. intros H. apply scan_images_in in H.
  destruct H as (j & image & Hnth & Hscan).
  destruct (scan_image_some _ _ _ _ _ _ Hscan)
    as (Hcheck & Ecur & Elat & Hdiff & _).
  assert (Hline : line_number c = j + 1 /\ dockerfile_path c = path /\
                  get_latest_tag limit (hub (name image))
                  = Some (tag (latest_image c))).
  { revert Hscan. unfold scan_image.
    destruct (_should_check_image image); [|discriminate].
    destruct (get_latest_tag limit (hub (name image))) as [[|x t]|];
      try discriminate.
    destruct (str_eqb (x :: t) (tag image)); [discriminate|].
    intros [= <-]. now repeat split. }
  destruct Hline as (Hline & Hpath & Htag).
  pose proof (proj1 (nth_error_Some _ _) ltac:(rewrite Hnth; discriminate))
    as Hlen.
  rewrite Ecur, Hline. repeat split; try assumption; try lia.
  - now replace (j + 1 - 1) with j by lia.
  - now rewrite Elat.
  - now rewrite Elat.
  - now apply checked_tag.
Qed.

Lemma scan_candidate_sound_witness :
  let c := mkUpdateCandidate
             (mkDockerImage (lit "nginx") (lit "1.23.0") None)
             (mkDockerImage (lit "nginx") (lit "1.25.3") None)
             (lit "Dockerfile") 2 in
  let content := lit "FROM node:latest" ++ "010" :: lit "FROM nginx:1.23.0" in
  let hub := fun _ : str => Some [lit "1.25.3"] in
  dockerfile_path c = lit "Dockerfile" /\
  1 <= line_number c <= List.length (parse_dockerfile content) /\
  nth_error (parse_dockerfile content) (line_number c - 1)
  = Some (current_image c) /\
  name (latest_image c) = name (current_image c) /\
  registry (latest_image c) = registry (current_image c) /\
  tag (latest_image c) <> tag (current_image c) /\
  tag (current_image c) <> lit "latest" /\
  get_latest_tag 4300 (hub (name (current_image c)))
  = Some (tag (latest_image c)).
Proof.
  intros c content hub.
  apply (scan_candidate_sound 4300 hub (lit "Dockerfile") content c).
  vm_compute. now left.
Defined.

Lemma scan_images_line_numbers (limit : nat)
    (hub : str -> option (list str)) (path : str)
    (images : list DockerImage) : forall k,
  Forall (fun c => k < line_number c)
    (scan_images limit hub path k images) /\
  StronglySorted lt (map line_number (scan_images limit hub path k images)) /\
  List.length (scan_images limit hub path k images) <= List.length images.
Proof.
  induction images as [|x images IH]; intros k.
  - repeat split; constructor.
  - cbn [scan_images]. destruct (IH (S k)) as (Hall & Hsorted & Hlen).
    assert (Hall' : Forall (fun c => k < line_number c)
                      (scan_images limit hub path (S k) images)).
    { eapply Forall_impl; [|exact Hall]. simpl. intros; lia. }
    destruct (scan_image limit path k x (hub (name x))) as [c|] eqn:E.
    + assert (Hc : line_number c = k + 1).
      { revert E. unfold scan_image.
        destruct (_should_check_image x); [|discriminate].
        destruct (get_latest_tag limit (hub (name x))) as [[|y t]|];
          try discriminate.
        destruct (str_eqb (y :: t) (tag x)); [discriminate|].
        now intros [= <-]. }
      split; [|split].
      * constructor; [lia|exact Hall'].
      * cbn [map]. constructor; [exact Hsorted|].
        rewrite Forall_map. eapply Forall_impl; [|exact Hall].
        simpl. intros; lia.
      * simpl. lia.
    + split; [exact Hall'|]. split; [exact Hsorted|]. simpl. lia.
Qed.

(** X5.  The candidates of [_scan_dockerfile] are listed in the order of the
    images: their line numbers increase strictly, so there is at most one
    candidate per parsed image. *)
Theorem scan_candidates_ordered (limit : nat) (hub : str -> option (list str))
    (path content : str) :
  StronglySorted lt
    (map line_number (_scan_dockerfile limit hub path content)) /\
  List.length (_scan_dockerfile limit hub path content)
  <= List.length (parse_dockerfile content).
Proof.
  unfold _scan_dockerfile.
  destruct (scan_images_line_numbers limit hub path (parse_dockerfile content) 0)
    as (_ & H1 & H2).
  now split.
Qed.

Lemma scan_images_app (limit : nat)
    (hub : str -> option (list str)) (path : str)
    (l1 l2 : list DockerImage) : forall k,
  scan_images limit hub path k (l1 ++ l2)
  = scan_images limit hub path k l1
    ++ scan_images limit hub path (k + List.length l1) l2.
Proof.
  induction l1 as [|x l1 IH]; intros k.
  - simpl. now rewrite Nat.add_0_r.
  - cbn [app scan_images List.length]. rewrite IH.
    replace (S k + List.length l1) with (k + S (List.length l1)) by lia.
    now destruct (scan_image limit path k x (hub (name x))).
Qed.

(** X6.  An image for which Docker Hub cannot be queried only loses its own
    candidate: the images before and after it are scanned as if it gave no
    update, with the line numbers they would have had anyway. *)
Theorem scan_failure_isolated (limit : nat)
    (hub : str -> option (list str)) (path : str)
    (before after : list DockerImage) (image : DockerImage) (k : nat) :
  hub (name image) = None ->
  scan_images limit hub path k (before ++ image :: after)
  = scan_images limit hub path k before
    ++ scan_images limit hub path (k + List.length before + 1) after.
Proof.
  intros H. rewrite scan_images_app. f_equal.
  cbn [scan_images]. unfold scan_image at 1. rewrite H.
  replace (S (k + List.length before)) with (k + List.length before + 1)
    by lia.
  now destruct (_should_check_image image).
Qed.

Lemma scan_failure_isolated_witness :
  scan_images 4300
    (fun n => if str_eqb n (lit "redis") then None else Some [lit "9.9.9"])
    (lit "Dockerfile") 0
    ([mkDockerImage (lit "node") (lit "1.0.0") None]
     ++ mkDockerImage (lit "redis") (lit "7.0.10") None
        :: [mkDockerImage (lit "nginx") (lit "1.23.0") None])
  = scan_images 4300
      (fun n => if str_eqb n (lit "redis") then None else Some [lit "9.9.9"])
      (lit "Dockerfile") 0
      [mkDockerImage (lit "node") (lit "1.0.0") None]
    ++ scan_images 4300
         (fun n => if str_eqb n (lit "redis") then None else Some [lit "9.9.9"])
         (lit "Dockerfile") (0 + 1 + 1)
         [mkDockerImage (lit "nginx") (lit "1.23.0") None].
Proof. apply scan_failure_isolated. reflexivity. Defined.

(** ** DockerfileParser.parse_dockerfile, line by line *)

Lemma split_char_concat (c : ascii) (a b : str) :
  split_char c (a ++ c :: b) = split_char c a ++ split_char c b.
Proof.
  induction a as [|x a IH].
  - simpl. now rewrite Ascii.eqb_refl.
  - cbn [app]. rewrite !split_char_cons, IH.
    destruct (Ascii.eqb x c); [reflexivity|].
    pose proof (split_char_length c a) as Hlen.
    destruct (split_char c a) as [|h t]; [discriminate|reflexivity].
Qed.

Lemma parse_lines_app (l1 l2 : list str) :
  parse_lines (l1 ++ l2) = parse_lines l1 ++ parse_lines l2.
Proof.
  induction l1 as [|line l1 IH]; [reflexivity|].
  cbn [app parse_lines].
  destruct (startswith (lit "FROM ") (strip line)); [|exact IH].
  destruct (_parse_from_statement (strip line)); [|exact IH].
  cbn [app]. now rewrite IH.
Qed.

(** X7.  [parse_dockerfile] works line by line: the images of a text are
    the images of what stands before a line feed followed by the images of
    what stands after it, so a statement never spans two lines and no line
    changes what another one yields. *)
Theorem parse_dockerfile_concat (a b : str) :
  parse_dockerfile (a ++ "010" :: b)
  = parse_dockerfile a ++ parse_dockerfile b.
Proof.
  unfold parse_dockerfile.
  now rewrite split_char_concat, parse_lines_app.
Qed.

Lemma contains_here (sep r : str) : contains sep (sep ++ r) = true.
Proof.
  assert (E : forall s, startswith sep s = true -> contains sep s = true).
  { intros [|c s] H; simpl; now rewrite H. }
  apply E, startswith_app.
Qed.

Lemma no_space_no_alias (ref : str) :
  has_char " " ref = false ->
  contains (lit " AS ") ref = false.
Proof.
  intros H.
  change (lit " AS ") with (" " :: lit "AS ").
  rewrite <- (app_nil_r ref), (contains_skip " " (lit "AS ") ref [] H).
  reflexivity.
Qed.

Lemma has_char_upper_space (s : str) :
  has_char " " (upper s) = has_char " " s.
Proof.
  unfold upper. induction s as [|c s IH]; [reflexivity|].
  cbn [map]. rewrite !has_char_cons, IH. f_equal.
  now apply upper_char_not_letter.
Qed.

(** X8.  An [AS] clause in capitals is dropped with its stage name: a
    [FROM] line whose reference holds no space character and is followed by
    [ AS ] and a stage name parses as the line without the clause. *)
Theorem upper_case_alias_dropped (ref alias : str) :
  ref <> [] -> trimmed ref -> has_char " " ref = false -> ~ blank alias ->
  _parse_from_statement (lit "FROM " ++ ref ++ lit " AS " ++ alias)
  = _parse_from_statement (lit "FROM " ++ ref).
Proof.
  intros Hne Htrim Hsp Halias.
  unfold _parse_from_statement. f_equal.
  rewrite !image_part_of_cut.
  change (skipn 5 (lit "FROM " ++ ref ++ lit " AS " ++ alias))
    with (ref ++ lit " AS " ++ alias).
  change (skipn 5 (lit "FROM " ++ ref)) with ref.
  rewrite (trimmed_strip ref Htrim).
  assert (Hstrip : strip (ref ++ lit " AS " ++ alias)
                   = ref ++ lit " AS " ++ rstrip alias).
  { unfold strip. destruct ref as [|c r]; [now elim Hne|].
    cbn [app]. rewrite (lstrip_keep c _ (trimmed_head c r Htrim)).
    change (c :: r ++ lit " AS " ++ alias)
      with ((c :: r) ++ lit " AS " ++ alias).
    rewrite !app_assoc. rewrite rstrip_app by exact Halias.
    reflexivity. }
  rewrite Hstrip.
  assert (Hplain : cut_alias ref = ref).
  { unfold cut_alias.
    assert (E : contains (lit " AS ") (upper ref) = false).
    { apply no_space_no_alias. now rewrite has_char_upper_space. }
    now rewrite E. }
  rewrite Hplain. unfold cut_alias.
  assert (E : contains (lit " AS ") (upper (ref ++ lit " AS " ++ rstrip alias))
              = true).
  { rewrite <- upper_separator at 1. apply contains_upper.
    apply contains_app_r.
    apply contains_here. }
  rewrite E.
  change (lit " AS ") with (" " :: lit "AS ") at 1.
  rewrite (before_skip " " (lit "AS ") ref _ Hsp).
  change (" " :: lit "AS ") with (lit " AS ").
  rewrite before_here, app_nil_r.
  now apply trimmed_strip.
Qed.

Lemma upper_case_alias_dropped_witness :
  _parse_from_statement
    (lit "FROM " ++ lit "node:16.20.0-alpine" ++ lit " AS " ++ lit "builder")
  = _parse_from_statement (lit "FROM " ++ lit "node:16.20.0-alpine").
Proof.
  apply upper_case_alias_dropped.
  - discriminate.
  - split; reflexivity.
  - reflexivity.
  - unfold blank. vm_compute. discriminate.
Defined.

(** ** DockerImage.__str__ read again by the parser *)

Lemma startswith_dollar (c : ascii) (s : str) :
  startswith (lit "$") (c :: s) = Ascii.eqb "$" c.
Proof. simpl. apply andb_true_r. Qed.

Lemma printed_hub_image (ip : str) :
  str_eqb (lower ip) (lit "scratch") || startswith (lit "$") ip = false ->
  (has_char "/" ip && (2 <=? count "/" ip)%nat) = false ->
  has_char ":" ip = false ->
  parse_image_part (ip ++ ":" :: lit "latest")
  = Some (mkDockerImage ip (lit "latest") None).
Proof.
  intros Hs Hb Hcolon. apply orb_false_elim in Hs as [_ Hs].
  assert (Hhas : has_char ":" (ip ++ ":" :: lit "latest") = true).
  { rewrite has_char_app, has_char_cons, Ascii.eqb_refl.
    apply orb_true_r. }
  unfold parse_image_part.
  rewrite (not_scratch ":" _ eq_refl eq_refl Hhas).
  assert (Hd : startswith (lit "$") (ip ++ ":" :: lit "latest") = false).
  { destruct ip as [|c r]; [reflexivity|].
    cbn [app]. now rewrite startswith_dollar in *. }
  rewrite Hd. cbn [orb].
  rewrite has_char_app, count_app.
  replace (has_char "/" (":" :: lit "latest")) with false by reflexivity.
  replace (count "/" (":" :: lit "latest")) with 0 by reflexivity.
  rewrite orb_false_r, Nat.add_0_r, Hb, Hhas.
  now rewrite rsplit1_app.
Qed.

Lemma printed_registry_image (reg : str) (middle : list str)
    (n0 t : str) :
  reg <> [] -> middle <> [] ->
  Forall (fun p => has_char "/" p = false) (reg :: middle) ->
  has_char "/" n0 = false -> has_char "/" t = false ->
  has_char ":" n0 = false -> has_char ":" t = false ->
  startswith (lit "$") reg = false ->
  parse_image_part
    (image_str (mkDockerImage (join "/" middle ++ "/" :: n0) t (Some reg)))
  = Some (mkDockerImage (join "/" middle ++ "/" :: n0) t (Some reg)).
Proof.
  intros Hreg Hmid Hseg Hn0 Ht Hcn Hct Hd.
  destruct reg as [|c r]; [now elim Hreg|].
  unfold image_str. cbn [registry name tag].
  assert (E : (c :: r) ++ "/" :: (join "/" middle ++ "/" :: n0) ++ ":" :: t
              = join "/" ((c :: r) :: middle ++ [n0 ++ ":" :: t ++ []])).
  { rewrite registry_join by exact Hmid. rewrite app_nil_r.
    now rewrite <- !app_assoc. }
  rewrite E. apply parse_segments; try assumption.
  - rewrite app_nil_r, has_char_app, has_char_cons, Hn0, Ht. reflexivity.
  - now left.
  - rewrite registry_join by exact Hmid. cbn [app].
    now rewrite startswith_dollar in *.
Qed.

(** The reference printed for a parsed image, beside the image part it
    was parsed from: the image part without what follows a second colon of
    its last segment, or the image part with the tag [latest] it did not
    name. *)
Lemma printed_part (ip : str) (image : DockerImage) :
  parse_image_part ip = Some image ->
  registry image <> Some [] ->
  parse_image_part (image_str image) = Some image /\
  ((exists tail, ip = image_str image ++ tail) \/
   image_str image = ip ++ ":" :: lit "latest").
Proof.
  intros Hp Hreg.
  pose proof Hp as Hp0. unfold parse_image_part in Hp.
  destruct (str_eqb (lower ip) (lit "scratch") || startswith (lit "$") ip)
    eqn:Hs; [discriminate|].
  destruct (has_char "/" ip && (2 <=? count "/" ip)%nat) eqn:Hb.
  - apply andb_prop in Hb as [_ Hc]. apply Nat.leb_le in Hc.
    apply orb_false_elim in Hs as [_ Hs].
    destruct (registry_segments ip Hc) as (reg & middle & Hsplit & Hmid).
    pose proof (split_char_segments "/" ip) as Hseg.
    pose proof (join_split "/" ip) as Hip.
    remember (last (split_char "/" ip) []) as final eqn:Efinal.
    clear Efinal. rewrite Hsplit in Hp, Hseg, Hip.
    cbn [tl hd] in Hp. rewrite removelast_last in Hp.
    rewrite registry_join in Hip by exact Hmid.
    rewrite app_comm_cons, Forall_app in Hseg.
    destruct Hseg as [Hseg Hfinal]. apply Forall_inv in Hfinal.
    destruct (first_segment ":" final) as (n0 & tail & Ef & Ehd & Hcn & Htail).
    rewrite Ehd in Hp.
    assert (Hd : startswith (lit "$") reg = false).
    { destruct reg as [|c r]; [reflexivity|].
      rewrite <- Hip in Hs. cbn [app] in Hs.
      now rewrite startswith_dollar in *. }
    assert (Hreg' : reg <> []).
    { intros ->. injection Hp as <-. now apply Hreg. }
    rewrite Ef, has_char_app in Hfinal.
    apply orb_false_elim in Hfinal as [Hn0 Htl].
    destruct Htail as [->|(more & ->)].
    + rewrite app_nil_r in Ef. subst final. rewrite Hcn in Hp.
      injection Hp as <-.
      split; [now apply printed_registry_image|]. right.
      rewrite <- Hip. destruct reg as [|c r]; [now elim Hreg'|].
      unfold image_str. cbn [registry name tag]. reassociate.
    + assert (Hcolon : has_char ":" final = true).
      { rewrite Ef, has_char_app, has_char_cons, Ascii.eqb_refl.
        apply orb_true_r. }
      rewrite Hcolon in Hp.
      rewrite Ef, (split_char_app ":" n0 more Hcn), nth_1_cons in Hp.
      destruct (first_segment ":" more) as (t & tail' & Em & Et & Hct & _).
      unfold str in Hp. rewrite Et in Hp. injection Hp as <-.
      rewrite has_char_cons in Htl. apply orb_false_elim in Htl as [_ Htl].
      rewrite Em, has_char_app in Htl.
      apply orb_false_elim in Htl as [Ht _].
      split; [now apply printed_registry_image|]. left. exists tail'.
      rewrite <- Hip, Ef, Em. destruct reg as [|c r]; [now elim Hreg'|].
      unfold image_str. cbn [registry name tag].
      repeat (rewrite <- app_assoc || rewrite <- app_comm_cons).
      reflexivity.
  - destruct (has_char ":" ip) eqn:Hcolon.
    + destruct (rsplit1 ":" ip) as [[n t]|] eqn:Er.
      * injection Hp as <-.
        destruct (rsplit1_some _ _ _ _ Er) as [Eip _].
        unfold image_str. cbn [registry name tag].
        rewrite <- Eip. split; [exact Hp0|]. left. exists [].
        now rewrite app_nil_r.
      * apply rsplit1_none in Er. congruence.
    + injection Hp as <-.
      unfold image_str. cbn [registry name tag].
      split; [now apply printed_hub_image|]. now right.
Qed.

Lemma contains_app_l (sep a b : str) :
  contains sep a = true -> contains sep (a ++ b) = true.
Proof.
  induction a as [|c a IH]; simpl.
  - rewrite orb_false_r. intros H.
    destruct sep as [|x sep]; [|discriminate H]. now destruct b.
  - intros H. apply orb_prop in H as [H|H].
    + apply startswith_iff in H. destruct H as (r & E).
      assert (Hs : startswith sep (c :: a ++ b) = true).
      { apply startswith_iff. exists (r ++ b).
        rewrite app_assoc, <- E. reflexivity. }
      now rewrite Hs.
    + rewrite (IH H). apply orb_true_r.
Qed.

Lemma before_prefix (sep s : str) : exists r, s = before sep s ++ r.
Proof.
  destruct (contains sep s) eqn:E.
  - destruct (before_split sep s E) as (r & Hr). now exists (sep ++ r).
  - exists []. now rewrite (before_none sep s E), app_nil_r.
Qed.

(** The text before the first occurrence of a separator holds none. *)
Lemma contains_before (sep s : str) :
  sep <> [] -> contains sep (before sep s) = false.
Proof.
  intros Hsep. induction s as [|c s IH]; rewrite before_unfold.
  - destruct (startswith sep []); destruct sep; try reflexivity;
      now elim Hsep.
  - destruct (startswith sep (c :: s)) eqn:E.
    + destruct sep; [now elim Hsep|reflexivity].
    + cbn [contains]. rewrite IH, orb_false_r.
      destruct (startswith sep (c :: before sep s)) eqn:E'; [|reflexivity].
      apply startswith_iff in E'. destruct E' as (r & E').
      destruct (before_prefix sep s) as (r' & Hr').
      assert (Hs : startswith sep (c :: s) = true).
      { apply startswith_iff. exists (r ++ r').
        rewrite app_assoc, <- E', Hr' at 1. reflexivity. }
      congruence.
Qed.

Lemma contains_strip (sep s : str) :
  contains sep s = false -> contains sep (strip s) = false.
Proof.
  intros H. destruct (contains sep (strip s)) eqn:E; [|reflexivity].
  destruct (strip_split s) as (w1 & w2 & _ & _ & Hs).
  rewrite Hs in H.
  now rewrite (contains_app_r sep w1 _ (contains_app_l sep _ w2 E)) in H.
Qed.

(** After the cut of the [AS] clause no [ AS ] in capitals is left. *)
Lemma cut_alias_no_alias (s : str) :
  contains (lit " AS ") (cut_alias s) = false.
Proof.
  unfold cut_alias. destruct (contains (lit " AS ") (upper s)) eqn:E.
  - apply contains_strip, contains_before. discriminate.
  - destruct (contains (lit " AS ") s) eqn:E'; [|reflexivity].
    apply contains_upper in E'. rewrite upper_separator in E'. congruence.
Qed.

Lemma cut_alias_id (s : str) :
  trimmed s -> contains (lit " AS ") s = false -> cut_alias s = s.
Proof.
  intros Ht H. unfold cut_alias.
  destruct (contains (lit " AS ") (upper s)); [|reflexivity].
  now rewrite (before_none _ _ H), (trimmed_strip s Ht).
Qed.

(** X9.  What [DockerImage.__str__] prints for the image of a [FROM] line,
    put after [FROM ] and parsed by [_parse_from_statement], gives the same
    image again, as long as the registry is not the empty string (which
    [__str__] leaves out) and the tag does not end in a blank character
    (which the second parse would trim): a missing tag is printed as
    [latest], and what follows a second colon of a registry reference is
    lost at the first parse already. *)
Theorem printed_image_parses (from_line : str) (image : DockerImage) :
  _parse_from_statement from_line = Some image ->
  registry image <> Some [] ->
  rstrip (tag image) = tag image ->
  _parse_from_statement (lit "FROM " ++ image_str image) = Some image.
Proof.
  unfold _parse_from_statement. intros Hp Hreg Htag.
  destruct (printed_part _ _ Hp Hreg) as [Hpart Hshape].
  assert (Hip : trimmed (image_part_of from_line)).
  { rewrite image_part_of_cut. apply cut_alias_trimmed, strip_trimmed. }
  assert (Hno : contains (lit " AS ") (image_part_of from_line) = false).
  { rewrite image_part_of_cut. apply cut_alias_no_alias. }
  set (ip := image_part_of from_line) in *.
  assert (Hend : exists body, image_str image = body ++ ":" :: tag image).
  { unfold image_str. destruct (registry image) as [[|c r]|].
    - now exists (name image).
    - exists ((c :: r) ++ "/" :: name image). reassociate.
    - now exists (name image). }
  assert (Htrim : trimmed (image_str image)).
  { apply trimmed_intro.
    - intros c r E. destruct Hshape as [(tail & Hs)|Hs].
      + rewrite E in Hs. cbn [app] in Hs. rewrite Hs in Hip.
        now apply trimmed_head in Hip.
      + rewrite E in Hs. destruct ip as [|x ip'].
        * injection Hs as -> _. reflexivity.
        * injection Hs as -> _. now apply trimmed_head in Hip.
    - intros a c E. destruct Hend as (body & Hbody). rewrite Hbody in E.
      remember (tag image) as tg eqn:Etg. clear Etg.
      destruct tg as [|t0 t].
      + apply app_inj_tail in E. destruct E as [_ <-]. reflexivity.
      + pose proof (@app_removelast_last _ (t0 :: t) c ltac:(discriminate))
          as Hdec.
        rewrite Hdec in E.
        replace (body ++ ":" :: removelast (t0 :: t) ++ [last (t0 :: t) c])
          with ((body ++ ":" :: removelast (t0 :: t)) ++ [last (t0 :: t) c])
          in E by reassociate.
        apply app_inj_tail in E. destruct E as [_ El].
        rewrite El in Hdec. rewrite Hdec in Htag at 2.
        exact (rstrip_last _ _ _ Htag). }
  assert (Hclean : contains (lit " AS ") (image_str image) = false).
  { destruct Hshape as [(tail & Hs)|Hs].
    - destruct (contains (lit " AS ") (image_str image)) eqn:E;
        [|reflexivity].
      rewrite Hs, (contains_app_l _ _ tail E) in Hno. discriminate.
    - rewrite Hs, (contains_pivot ":" (lit " AS ") ip (lit "latest") eq_refl).
      now rewrite Hno. }
  rewrite image_part_of_cut.
  change (skipn 5 (lit "FROM " ++ image_str image)) with (image_str image).
  now rewrite (trimmed_strip _ Htrim), (cut_alias_id _ Htrim Hclean).
Qed.

Lemma printed_image_parses_witness :
  _parse_from_statement
    (lit "FROM " ++
     image_str (mkDockerImage (lit "team/app") (lit "1.2.3")
                  (Some (lit "registry.example.com"))))
  = Some (mkDockerImage (lit "team/app") (lit "1.2.3")
            (Some (lit "registry.example.com"))).
Proof.
  apply (printed_image_parses
           (lit "FROM registry.example.com/team/app:1.2.3:x AS build")).
  - reflexivity.
  - discriminate.
  - reflexivity.
Defined.

(** Without the condition on the tag the second parse can differ: the tag
    of the line below ends in a blank, which the printed reference loses
    when it is parsed. *)
Lemma printed_tag_trimmed :
  _parse_from_statement (lit "FROM r/a/b:1 :x")
  = Some (mkDockerImage (lit "a/b") (lit "1 ") (Some (lit "r"))) /\
  _parse_from_statement
    (lit "FROM " ++
     image_str (mkDockerImage (lit "a/b") (lit "1 ") (Some (lit "r"))))
  = Some (mkDockerImage (lit "a/b") (lit "1") (Some (lit "r"))).
Proof. split; reflexivity. Qed.

(** ** GitLabEvergreenScanner.scan_dockerfiles *)

Lemma scan_path_in (limit : nat) (hub : str -> option (list str))
    (fetch : str -> option str) (path : str) (c : UpdateCandidate) :
  In c (scan_path limit hub fetch path) <->
  exists content,
    fetch path = Some content /\ In c (_scan_dockerfile limit hub path content).
Proof.
  unfold scan_path. destruct (fetch path) as [content|].
  - split.
    + intros H. now exists content.
    + now intros (content' & [= <-] & H).
  - split; [intros []|]. now intros (content & E & _).
Qed.

Lemma scan_path_of (limit : nat) (hub : str -> option (list str))
    (fetch : str -> option str) (path : str) (c : UpdateCandidate) :
  In c (scan_path limit hub fetch path) -> dockerfile_path c = path.
Proof.
  intros H. apply scan_path_in in H. destruct H as (content & _ & H).
  unfold _scan_dockerfile in H. apply scan_images_in in H.
  destruct H as (j & image & _ & H). revert H. unfold scan_image.
  destruct (_should_check_image image); [|discriminate].
  destruct (get_latest_tag limit (hub (name image))) as [[|x t]|];
    try discriminate.
  destruct (str_eqb (x :: t) (tag image)); [discriminate|].
  now intros [= <-].
Qed.

(** X10.  The candidates of [scan_dockerfiles] are those of the listed
    files that pass the Dockerfile name test and can be fetched, each under
    the path of its own file: nothing comes from a file that is not listed,
    whose name does not match, or that cannot be read. *)
Theorem scan_dockerfiles_candidates (limit : nat)
    (hub : str -> option (list str))
    (fetch : str -> option str) (files : list str) (c : UpdateCandidate) :
  In c (scan_dockerfiles limit hub fetch (Some files)) <->
  In (dockerfile_path c) files /\
  is_dockerfile (dockerfile_path c) = true /\
  exists content,
    fetch (dockerfile_path c) = Some content /\
    In c (_scan_dockerfile limit hub (dockerfile_path c) content).
Proof.
  unfold scan_dockerfiles, _filter_dockerfiles. rewrite in_flat_map. split.
  - intros (path & Hpath & Hc). apply filter_In in Hpath.
    rewrite (scan_path_of _ _ _ _ _ Hc).
    destruct Hpath as [Hin Hname]. repeat split; try assumption.
    now apply scan_path_in.
  - intros (Hin & Hname & Hc). exists (dockerfile_path c). split.
    + now apply filter_In.
    + now apply scan_path_in.
Qed.

(** X11.  A listed file that is no Dockerfile by its name, or that cannot
    be fetched, is passed over: the scan gives what it gives without that
    file, in the same order. *)
Theorem scan_dockerfiles_skips (limit : nat) (hub : str -> option (list str))
    (fetch : str -> option str) (before after : list str) (path : str) :
  is_dockerfile path = false \/ fetch path = None ->
  scan_dockerfiles limit hub fetch (Some (before ++ path :: after))
  = scan_dockerfiles limit hub fetch (Some (before ++ after)).
Proof.
  intros H. unfold scan_dockerfiles, _filter_dockerfiles.
  rewrite !filter_app, !flat_map_app. f_equal. cbn [filter].
  destruct (is_dockerfile path) eqn:E; [|reflexivity].
  destruct H as [H|H]; [discriminate|].
  cbn [flat_map]. unfold scan_path at 1. now rewrite H.
Qed.

Lemma scan_dockerfiles_skips_witness :
  let hub := fun _ : str => Some [lit "1.25.3"] in
  let fetch := fun p : str =>
    if str_eqb p (lit "Dockerfile") then Some (lit "FROM nginx:1.23.0")
    else None in
  scan_dockerfiles 4300 hub fetch
    (Some ([lit "Dockerfile"] ++ lit "docker/app.dockerfile" :: [lit "README.md"]))
  = scan_dockerfiles 4300 hub fetch (Some ([lit "Dockerfile"] ++ [lit "README.md"])).
Proof.
  intros hub fetch. apply scan_dockerfiles_skips. right. reflexivity.
Defined.

Lemma basename_join (dir file : str) :
  has_char "/" file = false -> basename (dir ++ "/" :: file) = file.
Proof. intros H. unfold basename. now rewrite rsplit1_app. Qed.

Lemma basename_plain (file : str) :
  has_char "/" file = false -> basename file = file.
Proof.
  intros H. unfold basename.
  now rewrite (proj2 (rsplit1_none "/" file) H).
Qed.

(** X12.  Whether [_filter_dockerfiles] keeps a path depends on the final
    component of the path only, and not on the case of its letters: two
    paths whose file names agree up to letter case are both kept or both
    dropped, whatever their directories. *)
Theorem filter_by_file_name (dir1 dir2 file1 file2 : str) :
  has_char "/" file1 = false -> has_char "/" file2 = false ->
  lower file1 = lower file2 ->
  is_dockerfile (dir1 ++ "/" :: file1) = is_dockerfile (dir2 ++ "/" :: file2)
  /\ is_dockerfile (dir1 ++ "/" :: file1) = is_dockerfile file2.
Proof.
  intros H1 H2 E. unfold is_dockerfile.
  rewrite !basename_join, (basename_plain file2) by assumption.
  now rewrite E.
Qed.

Lemma filter_by_file_name_witness :
  is_dockerfile (lit "services/api" ++ "/" :: lit "Dockerfile.prod")
  = is_dockerfile (lit "docker" ++ "/" :: lit "DOCKERFILE.PROD")
  /\ is_dockerfile (lit "services/api" ++ "/" :: lit "Dockerfile.prod")
     = is_dockerfile (lit "DOCKERFILE.PROD").
Proof. apply filter_by_file_name; reflexivity. Defined.

(** * Further properties of the updater *)

(** ** DockerfileUpdater.get_current_image_version *)

Lemma span_rest (p : ascii -> bool) (s : str) :
  match snd (span p s) with
  | [] => True
  | c :: _ => p c = false
  end.
Proof.
  induction s as [|c s IH]; [exact I|].
  simpl. destruct (p c) eqn:E.
  - now destruct (span p s).
  - exact E.
Qed.

Lemma span_app (p : ascii -> bool) (v post : str) :
  forallb p v = true ->
  match post with [] => True | c :: _ => p c = false end ->
  span p (v ++ post) = (v, post).
Proof.
  intros Hv Hpost. induction v as [|c v IH].
  - destruct post as [|c r]; [reflexivity|]. simpl. now rewrite Hpost.
  - simpl in Hv. apply andb_prop in Hv as [Hc Hv].
    simpl. now rewrite Hc, (IH Hv).
Qed.

Lemma token_end_spec (post : str) :
  token_end post <->
  match post with
  | [] => True
  | c :: _ => negb (is_space c) = false
  end.
Proof.
  destruct post as [|c r]; [reflexivity|]. simpl.
  now destruct (is_space c).
Qed.

Lemma skipn_prefix (p s : str) : skipn (List.length p) (p ++ s) = s.
Proof. induction p as [|c p IH]; [reflexivity|exact IH]. Qed.

Lemma search_version_unfold (prefix s : str) :
  search_version prefix s =
  match version_here prefix s with
  | _ :: _ => Some (version_here prefix s)
  | [] =>
      match s with
      | [] => None
      | _ :: s' => search_version prefix s'
      end
  end.
Proof. destruct s; reflexivity. Qed.

Lemma version_here_some (prefix s : str) :
  version_here prefix s <> [] ->
  exists post,
    s = prefix ++ version_here prefix s ++ post /\
    token (version_here prefix s) /\ token_end post.
Proof.
  unfold version_here. intros H.
  destruct (startswith prefix s) eqn:E; [|now elim H].
  pose proof (startswith_skipn _ _ E) as Hs.
  set (p := fun c => negb (is_space c)) in *.
  destruct (span_spec p (skipn (List.length prefix) s)) as [Hsplit Hall].
  exists (snd (span p (skipn (List.length prefix) s))). split; [|split].
  - now rewrite <- Hsplit.
  - split; assumption.
  - apply token_end_spec. apply span_rest.
Qed.

Lemma version_here_intro (prefix v post : str) :
  token v -> token_end post ->
  version_here prefix (prefix ++ v ++ post) = v.
Proof.
  intros [_ Hv] Hpost. unfold version_here.
  rewrite startswith_app, skipn_prefix, span_app; try assumption.
  - reflexivity.
  - now apply token_end_spec.
Qed.

Lemma version_here_long (prefix lead rest rest' : str) :
  List.length prefix < List.length lead ->
  version_here prefix (lead ++ rest) = [] ->
  version_here prefix (lead ++ rest') = [].
Proof.
  intros Hlen. unfold version_here.
  rewrite !startswith_long by lia.
  destruct (startswith prefix lead) eqn:E; [|reflexivity].
  apply startswith_iff in E. destruct E as (r & ->).
  rewrite <- !app_assoc, !skipn_prefix.
  destruct r as [|c r].
  - rewrite app_nil_r in Hlen. lia.
  - simpl. destruct (negb (is_space c)); [|reflexivity].
    destruct (span _ (r ++ rest)). discriminate.
Qed.

Lemma unmatched_nil (prefix rest : str) : unmatched prefix [] rest.
Proof. intros [|a l1] x l2 E; discriminate. Qed.

Lemma unmatched_cons (prefix : str) (x : ascii) (lead rest : str) :
  unmatched prefix (x :: lead) rest <->
  version_here prefix (x :: lead ++ rest) = [] /\ unmatched prefix lead rest.
Proof.
  split.
  - intros H. split.
    + now apply (H [] x lead).
    + intros l1 y l2 E. apply (H (x :: l1) y l2). now rewrite E.
  - intros [H0 H] [|a l1] y l2 E.
    + injection E as <- <-. exact H0.
    + injection E as _ E. now apply (H l1 y l2).
Qed.

Lemma search_version_first (prefix s v : str) :
  search_version prefix s = Some v ->
  exists lead post,
    s = lead ++ prefix ++ v ++ post /\
    token v /\ token_end post /\
    unmatched prefix lead (prefix ++ v ++ post).
Proof.
  induction s as [|c s IH]; rewrite search_version_unfold.
  - destruct (version_here prefix []) as [|h t] eqn:E; [discriminate|].
    intros [= <-].
    destruct (version_here_some prefix []) as (post & Hs & Ht & He);
      [rewrite E; discriminate|].
    rewrite E in *. exists [], post.
    split; [exact Hs|]. split; [exact Ht|]. split; [exact He|].
    apply unmatched_nil.
  - destruct (version_here prefix (c :: s)) as [|h t] eqn:E.
    + intros H. destruct (IH H) as (lead & post & -> & Ht & He & Hu).
      exists (c :: lead), post.
      split; [reflexivity|]. split; [exact Ht|]. split; [exact He|].
      apply unmatched_cons. now split.
    + intros [= <-].
      destruct (version_here_some prefix (c :: s)) as (post & Hs & Ht & He);
        [rewrite E; discriminate|].
      rewrite E in *. exists [], post.
      split; [exact Hs|]. split; [exact Ht|]. split; [exact He|].
      apply unmatched_nil.
Qed.

Lemma search_version_intro (prefix lead v post : str) :
  token v -> token_end post ->
  unmatched prefix lead (prefix ++ v ++ post) ->
  search_version prefix (lead ++ prefix ++ v ++ post) = Some v.
Proof.
  intros Ht He. induction lead as [|x lead IH]; intros Hu.
  - cbn [app]. rewrite search_version_unfold, version_here_intro by assumption.
    destruct v as [|h t]; [now destruct Ht|reflexivity].
  - apply unmatched_cons in Hu as [H0 Hu]. cbn [app].
    rewrite search_version_unfold, H0. now apply IH.
Qed.

(** X13.  [get_current_image_version] returns [v] exactly when the
    Dockerfile can be read and [v] is the run of non-blank characters
    after the leftmost [FROM name:] that is followed by a non-blank
    character: wherever that stands in the text, at the start of a line or
    not. *)
Theorem current_version_located (fs : FileSystem) (image_name v : str) :
  get_current_image_version fs image_name = Some v <->
  exists lead post,
    read_dockerfile fs
    = Some (lead ++ (lit "FROM " ++ image_name ++ [":"]) ++ v ++ post) /\
    token v /\ token_end post /\
    unmatched (lit "FROM " ++ image_name ++ [":"]) lead
      ((lit "FROM " ++ image_name ++ [":"]) ++ v ++ post).
Proof.
  unfold get_current_image_version. split.
  - destruct (read_dockerfile fs) as [[|c content]|]; try discriminate.
    intros H. apply search_version_first in H.
    destruct H as (lead & post & -> & H). now exists lead, post.
  - intros (lead & post & -> & Ht & He & Hu).
    rewrite <- (search_version_intro _ lead v post Ht He Hu).
    destruct lead; reflexivity.
Qed.

(** ** Reading in text mode *)

Lemma universal_newlines_cr (x : ascii) (s : str) :
  universal_newlines ("013" :: x :: s)
  = "010" :: (if Ascii.eqb x "010" then universal_newlines s
              else universal_newlines (x :: s)).
Proof. destruct x as [[] [] [] [] [] [] [] []]; reflexivity. Qed.

Lemma universal_newlines_cons (c : ascii) (s : str) :
  Ascii.eqb c "013" = false ->
  universal_newlines (c :: s) = c :: universal_newlines s.
Proof. intros H. simpl. now rewrite H. Qed.

Lemma universal_newlines_pair (s : str) :
  has_char "013" (universal_newlines s) = false /\
  forall c, has_char "013" (universal_newlines (c :: s)) = false.
Proof.
  induction s as [|x s [IH1 IH2]].
  - split; [reflexivity|]. intros c. simpl.
    destruct (Ascii.eqb c "013") eqn:E; [reflexivity|].
    rewrite has_char_cons, Ascii.eqb_sym, E. reflexivity.
  - split; [apply IH2|]. intros c.
    destruct (Ascii.eqb c "013") eqn:E.
    + apply Ascii.eqb_eq in E. subst c. rewrite universal_newlines_cr.
      rewrite has_char_cons. cbn [orb].
      change (Ascii.eqb "013" "010") with false. cbn [orb].
      destruct (Ascii.eqb x "010"); [exact IH1|apply IH2].
    + rewrite (universal_newlines_cons c _ E), has_char_cons.
      rewrite Ascii.eqb_sym, E. apply IH2.
Qed.

(** A text read in text mode holds no carriage return. *)
Lemma universal_newlines_no_cr (s : str) :
  has_char "013" (universal_newlines s) = false.
Proof. apply universal_newlines_pair. Qed.

(** A text without carriage return is read as it is. *)
Lemma universal_newlines_id (s : str) :
  has_char "013" s = false -> universal_newlines s = s.
Proof.
  induction s as [|c s IH]; [reflexivity|].
  rewrite has_char_cons. intros H. apply orb_false_elim in H as [Hc Hs].
  rewrite Ascii.eqb_sym in Hc.
  now rewrite (universal_newlines_cons c s Hc), (IH Hs).
Qed.

Lemma universal_newlines_changed (s : str) :
  universal_newlines s = s <-> has_char "013" s = false.
Proof.
  split; [|apply universal_newlines_id].
  intros E. rewrite <- E. apply universal_newlines_no_cr.
Qed.

Lemma read_no_cr (fs : FileSystem) (content : str) :
  read_dockerfile fs = Some content -> has_char "013" content = false.
Proof.
  unfold read_dockerfile. destruct (dockerfile fs); [|discriminate].
  intros [= <-]. apply universal_newlines_no_cr.
Qed.

Lemma token_no_char (c : ascii) (v : str) :
  is_space c = true ->
  forallb (fun x => negb (is_space x)) v = true ->
  has_char c v = false.
Proof.
  intros Hc Hv. destruct (has_char c v) eqn:E; [|reflexivity].
  apply has_char_in in E.
  rewrite forallb_forall in Hv. specialize (Hv c E).
  now rewrite Hc in Hv.
Qed.

(** ** DockerfileUpdater.update_image_version *)

Lemma token_unique (v w p q : str) :
  forallb (fun c => negb (is_space c)) v = true ->
  forallb (fun c => negb (is_space c)) w = true ->
  token_end p -> token_end q ->
  v ++ p = w ++ q -> v = w.
Proof.
  revert w. induction v as [|a v IH]; intros [|b w] Hv Hw Hp Hq E.
  - reflexivity.
  - cbn [app] in E. subst p. simpl in Hp, Hw.
    rewrite Hp in Hw. discriminate.
  - cbn [app] in E. subst q. simpl in Hq, Hv.
    rewrite Hq in Hv. discriminate.
  - injection E as <- E. simpl in Hv, Hw.
    apply andb_prop in Hv as [_ Hv]. apply andb_prop in Hw as [_ Hw].
    f_equal. now apply IH.
Qed.

Lemma pattern_read (prefix v s : str) :
  token v -> startswith (prefix ++ v) s = true ->
  version_here prefix s <> [].
Proof.
  intros [Hne Hv] H. apply startswith_iff in H. destruct H as (r & ->).
  unfold version_here. rewrite <- app_assoc, startswith_app, skipn_prefix.
  destruct v as [|h t]; [now elim Hne|].
  simpl in Hv. apply andb_prop in Hv as [Hh _].
  simpl. rewrite Hh. now destruct (span _ (t ++ r)).
Qed.

Lemma replace_first_match (prefix v new lead post : str) :
  prefix <> [] -> token v ->
  unmatched prefix lead (prefix ++ v ++ post) ->
  replace (prefix ++ v) new (lead ++ prefix ++ v ++ post)
  = lead ++ new ++ replace (prefix ++ v) new post.
Proof.
  intros Hp Ht. assert (Hold : prefix ++ v <> []) by now destruct prefix.
  induction lead as [|x lead IH]; intros Hu.
  - cbn [app]. rewrite app_assoc. now apply replace_here.
  - apply unmatched_cons in Hu as [H0 Hu]. cbn [app].
    rewrite replace_skip; [now rewrite IH|exact Hold|].
    destruct (startswith (prefix ++ v) (x :: lead ++ prefix ++ v ++ post))
      eqn:E; [|reflexivity].
    now elim (pattern_read prefix v _ Ht E).
Qed.

Lemma replace_token_end (old new post : str) (c : ascii) (r : str) :
  old = c :: r -> is_space c = false ->
  token_end post -> token_end (replace old new post).
Proof.
  intros -> Hc. destruct post as [|x post]; [now rewrite replace_nil|].
  simpl. intros Hx. rewrite replace_skip; [exact Hx|discriminate|].
  apply startswith_head. intros ->. congruence.
Qed.

Section UpdateRewrites.

Variable expand_template : str -> str -> option str.

(** X14.  The update that goes through: when the Dockerfile can be read
    and written, names the image at another version, the new version is
    not empty and holds no blank character, and the replacement template
    expands to itself, [update_image_version] returns [True] and leaves
    the Dockerfile with every [FROM name:current] replaced by
    [FROM name:new]. *)
Theorem update_rewrites (fs : FileSystem)
    (image_name new_version content current : str) :
  read_dockerfile fs = Some content ->
  writable fs = true ->
  get_current_image_version fs image_name = Some current ->
  current <> new_version ->
  token new_version ->
  expand_template (lit "FROM " ++ image_name ++ ":" :: new_version)
                  (lit "FROM " ++ image_name ++ ":" :: current)
  = Some (lit "FROM " ++ image_name ++ ":" :: new_version) ->
  update_image_version expand_template fs image_name new_version
  = (Returned true,
     mkFileSystem
       (Some (replace (lit "FROM " ++ image_name ++ ":" :: current)
                      (lit "FROM " ++ image_name ++ ":" :: new_version)
                      content))
       true).
Proof.
  intros Hr Hw Hc Hne Hnew Hex.
  set (prefix := lit "FROM " ++ image_name ++ [":"]).
  assert (Hs : search_version prefix content = Some current).
  { unfold get_current_image_version in Hc. rewrite Hr in Hc.
    now destruct content. }
  destruct (search_version_first _ _ _ Hs)
    as (lead & post & Hcontent & Ht & He & Hu).
  assert (Eold : lit "FROM " ++ image_name ++ ":" :: current
                 = prefix ++ current).
  { unfold prefix. now rewrite <- !app_assoc. }
  assert (Enew : lit "FROM " ++ image_name ++ ":" :: new_version
                 = prefix ++ new_version).
  { unfold prefix. now rewrite <- !app_assoc. }
  assert (Hprefix : prefix <> []) by discriminate.
  set (rest := replace (prefix ++ current) (prefix ++ new_version) post).
  assert (Hrest : token_end rest).
  { apply (replace_token_end _ _ _ "F" (lit "ROM " ++ image_name ++ [":"] ++ current));
      [|reflexivity|exact He].
    unfold prefix. now rewrite <- !app_assoc. }
  assert (Hreplaced :
    replace (prefix ++ current) (prefix ++ new_version) content
    = lead ++ prefix ++ new_version ++ rest).
  { rewrite Hcontent.
    rewrite replace_first_match by assumption.
    now rewrite <- app_assoc. }
  assert (Hu' : unmatched prefix lead (prefix ++ new_version ++ rest)).
  { intros l1 x l2 E. specialize (Hu l1 x l2 E).
    rewrite app_comm_cons, app_assoc in Hu |- *.
    eapply version_here_long; [|exact Hu].
    rewrite length_app. simpl. lia. }
  assert (Hdiff : replace (prefix ++ current) (prefix ++ new_version) content
                  <> content).
  { rewrite Hreplaced, Hcontent. intros E.
    apply app_inv_head in E. apply app_inv_head in E.
    apply Hne. symmetry.
    now apply (token_unique _ _ _ _ (proj2 Hnew) (proj2 Ht) Hrest He). }
  assert (Hcr : has_char "013"
                  (replace (prefix ++ current) (prefix ++ new_version) content)
                = false).
  { pose proof (read_no_cr fs content Hr) as Hcontent_cr.
    apply has_char_replace; [now destruct prefix| |exact Hcontent_cr].
    rewrite Hcontent, !has_char_app in Hcontent_cr.
    apply orb_false_elim in Hcontent_cr as [_ Hcontent_cr].
    apply orb_false_elim in Hcontent_cr as [Hprefix_cr _].
    rewrite has_char_app, Hprefix_cr.
    now rewrite (token_no_char "013" new_version eq_refl (proj2 Hnew)). }
  unfold update_image_version. rewrite Hr.
  destruct content as [|c0 content0] eqn:Econtent.
  { destruct lead; discriminate. }
  rewrite Hc. destruct current as [|v0 current0] eqn:Ecurrent;
    [now destruct Ht|].
  rewrite (proj2 (str_eqb_neq _ _) Hne).
  unfold re_sub. rewrite Hex, Eold, Enew.
  rewrite (proj2 (str_eqb_neq _ _) Hdiff).
  unfold write_dockerfile. rewrite Hw. cbn [negb].
  unfold get_current_image_version, read_dockerfile. cbn [dockerfile].
  rewrite (universal_newlines_id _ Hcr).
  rewrite Hreplaced.
  fold prefix.
  assert (Hsearch : search_version prefix (lead ++ prefix ++ new_version ++ rest)
                    = Some new_version)
    by now apply search_version_intro.
  destruct (lead ++ prefix ++ new_version ++ rest) as [|y ys] eqn:Ey.
  { destruct lead; discriminate. }
  rewrite Hsearch, str_eqb_refl. reflexivity.
Qed.

End UpdateRewrites.

Lemma update_rewrites_witness :
  update_image_version plain_template
    (mkFileSystem
       (Some (lit "# base" ++ "010" :: lit "FROM python:3.9-slim AS app"))
       true)
    (lit "python") (lit "3.11-slim")
  = (Returned true,
     mkFileSystem
       (Some (replace (lit "FROM " ++ lit "python" ++ ":" :: lit "3.9-slim")
                      (lit "FROM " ++ lit "python" ++ ":" :: lit "3.11-slim")
                      (lit "# base" ++ "010" :: lit "FROM python:3.9-slim AS app")))
       true).
Proof.
  apply (update_rewrites plain_template).
  - reflexivity.
  - reflexivity.
  - reflexivity.
  - discriminate.
  - split; [discriminate|reflexivity].
  - reflexivity.
Defined.

Section UpdateOutcomes.

Variable expand_template : str -> str -> option str.

(** X15.  [update_image_version] returns [True] only for a version that
    can be read back: a new version that is empty or holds a blank
    character (a trailing line feed, say) never gives [True], whatever the
    Dockerfile. *)
Theorem update_needs_token (fs fs' : FileSystem)
    (image_name new_version : str) :
  update_image_version expand_template fs image_name new_version
  = (Returned true, fs') ->
  token new_version.
Proof.
  intros H. apply update_success in H.
  unfold get_current_image_version in H.
  destruct (read_dockerfile fs') as [[|c content]|]; try discriminate.
  apply search_version_first in H.
  now destruct H as (_ & _ & _ & Ht & _).
Qed.

(** X16.  A Dockerfile that cannot be written is left as it is, and the
    call returns [True] exactly when the image is already at the requested
    version. *)
Theorem update_read_only (fs : FileSystem) (image_name new_version : str) :
  writable fs = false ->
  snd (update_image_version expand_template fs image_name new_version) = fs
  /\ (fst (update_image_version expand_template fs image_name new_version)
      = Returned true
      <-> get_current_image_version fs image_name = Some new_version).
Proof.
  intros Hw. unfold update_image_version.
  destruct (get_current_image_version fs image_name) as [current|] eqn:Ec.
  - destruct (current_version_read _ _ _ Ec) as (Hn & c & content & Hr).
    rewrite Hr. destruct current as [|v0 current]; [now elim Hn|].
    destruct (str_eqb (v0 :: current) new_version) eqn:Ev.
    + apply str_eqb_eq in Ev. subst new_version. now split.
    + apply str_eqb_neq in Ev.
      destruct (re_sub _ _ _ _) as [new_content|].
      * destruct (str_eqb new_content (c :: content)).
        -- split; [reflexivity|]. split; [discriminate|congruence].
        -- unfold write_dockerfile. rewrite Hw. cbn [negb fst snd].
           split; [reflexivity|]. split; [discriminate|congruence].
      * split; [reflexivity|]. split; [discriminate|congruence].
  - destruct (read_dockerfile fs) as [[|c content]|];
      (split; [reflexivity|]; split; discriminate).
Qed.

End UpdateOutcomes.

Lemma update_needs_token_witness :
  update_image_version plain_template
    (mkFileSystem (Some (lit "FROM python:3.9-slim")) true)
    (lit "python") (lit "3.11-slim")
  = (Returned true, mkFileSystem (Some (lit "FROM python:3.11-slim")) true)
  /\ token (lit "3.11-slim").
Proof.
  split; [reflexivity|].
  apply (update_needs_token plain_template
           (mkFileSystem (Some (lit "FROM python:3.9-slim")) true)
           (mkFileSystem (Some (lit "FROM python:3.11-slim")) true)
           (lit "python") (lit "3.11-slim")).
  reflexivity.
Defined.

Lemma update_read_only_witness :
  let fs := mkFileSystem (Some (lit "FROM python:3.9-slim")) false in
  snd (update_image_version plain_template fs (lit "python") (lit "3.11-slim"))
  = fs
  /\ (fst (update_image_version plain_template fs (lit "python")
             (lit "3.11-slim"))
      = Returned true
      <-> get_current_image_version fs (lit "python") = Some (lit "3.11-slim")).
Proof.
  intros fs. apply (update_read_only plain_template fs). reflexivity.
Defined.

(** * Properties of the image checker *)

(** ** The stable sort and its last element *)

Section SortByKey.

Context {A K : Type}.
Variable ltb : K -> K -> bool.
Variable key : A -> K.

Hypothesis ltb_trans : forall a b c,
  ltb a b = true -> ltb b c = true -> ltb a c = true.
Hypothesis ltb_between : forall a b c,
  ltb a c = true -> ltb a b = true \/ ltb b c = true.

Lemma insert_sorted_in (x u : A) (l : list A) :
  In u (insert_sorted ltb key x l) <-> u = x \/ In u l.
Proof.
  induction l as [|y l IH]; simpl.
  - intuition congruence.
  - destruct (ltb (key y) (key x)); simpl; rewrite ?IH; intuition congruence.
Qed.

Lemma py_sort_in (u : A) (l : list A) :
  In u (py_sort ltb key l) <-> In u l.
Proof.
  induction l as [|x l IH]; simpl; [reflexivity|].
  rewrite insert_sorted_in, IH. intuition congruence.
Qed.

Lemma insert_sorted_cons (x : A) (l : list A) :
  insert_sorted ltb key x l <> [].
Proof.
  destruct l as [|y l]; simpl; [discriminate|].
  destruct (ltb (key y) (key x)); discriminate.
Qed.

Lemma last_insert_sorted (x d : A) (l : list A) :
  last (insert_sorted ltb key x l) d =
  if forallb (fun y => ltb (key y) (key x)) l then x else last l d.
Proof.
  induction l as [|y l IH]; [reflexivity|].
  cbn [insert_sorted forallb].
  destruct (ltb (key y) (key x)); [|reflexivity].
  cbn [andb].
  pose proof (insert_sorted_cons x l) as Hne.
  destruct (insert_sorted ltb key x l) as [|z r] eqn:E; [now elim Hne|].
  change (last (y :: z :: r) d) with (last (z :: r) d). rewrite IH.
  destruct l as [|y' l']; reflexivity.
Qed.

Lemma forallb_py_sort (p : A -> bool) (l : list A) :
  forallb p (py_sort ltb key l) = forallb p l.
Proof.
  apply eq_true_iff_eq. rewrite !forallb_forall.
  split; intros H u Hu; apply H; now apply py_sort_in.
Qed.

Lemma last_py_sort (x d : A) (l : list A) :
  last (py_sort ltb key (x :: l)) d =
  if forallb (fun y => ltb (key y) (key x)) l then x
  else last (py_sort ltb key l) d.
Proof. cbn [py_sort]. now rewrite last_insert_sorted, forallb_py_sort. Qed.

(** The last element of the sorted list is the last of the greatest
    elements of the list. *)
Lemma last_sorted_split (x d : A) (l : list A) :
  exists l1 l2,
    x :: l = l1 ++ last (py_sort ltb key (x :: l)) d :: l2 /\
    (forall u, In u l1 ->
       ltb (key (last (py_sort ltb key (x :: l)) d)) (key u) = false) /\
    (forall u, In u l2 ->
       ltb (key u) (key (last (py_sort ltb key (x :: l)) d)) = true).
Proof.
  revert x. induction l as [|y l IH]; intros x.
  - exists [], []. repeat split; intros u [].
  - rewrite last_py_sort.
    destruct (forallb (fun z => ltb (key z) (key x)) (y :: l)) eqn:E.
    + exists [], (y :: l). split; [reflexivity|]. split; [intros u []|].
      intros u Hu. rewrite forallb_forall in E. now apply E.
    + destruct (IH y) as (l1 & l2 & Hsplit & H1 & H2).
      set (t := last (py_sort ltb key (y :: l)) d) in *.
      exists (x :: l1), l2. split; [now rewrite Hsplit|]. split; [|exact H2].
      intros u [<-|Hu]; [|now apply H1].
      destruct (ltb (key t) (key x)) eqn:Etx; [|reflexivity].
      assert (Hall : forallb (fun z => ltb (key z) (key x)) (y :: l) = true).
      { apply forallb_forall. intros z Hz. rewrite Hsplit in Hz.
        apply in_app_or in Hz. destruct Hz as [Hz|[<-|Hz]].
        - destruct (ltb_between _ (key z) _ Etx) as [Hc|Hc]; [|exact Hc].
          rewrite (H1 z Hz) in Hc. discriminate.
        - exact Etx.
        - apply (ltb_trans _ (key t)); [now apply H2|exact Etx]. }
      congruence.
Qed.

End SortByKey.

(** ** The order on version keys *)

Lemma tuple_ltb_irrefl (a : list Z) : tuple_ltb a a = false.
Proof.
  induction a as [|x a IH]; [reflexivity|].
  simpl. now rewrite Z.ltb_irrefl, Z.eqb_refl, IH.
Qed.

Lemma tuple_ltb_cons (x y : Z) (a b : list Z) :
  tuple_ltb (x :: a) (y :: b) = true <->
  (x < y)%Z \/ (x = y /\ tuple_ltb a b = true).
Proof.
  simpl. rewrite orb_true_iff, andb_true_iff, Z.ltb_lt, Z.eqb_eq.
  reflexivity.
Qed.

Lemma tuple_ltb_trans (a b c : list Z) :
  tuple_ltb a b = true -> tuple_ltb b c = true -> tuple_ltb a c = true.
Proof.
  revert b c. induction a as [|x a IH]; intros [|y b] [|z c];
    try discriminate; try reflexivity.
  rewrite !tuple_ltb_cons. intros [H1|[-> H1]] [H2|[-> H2]].
  - left. lia.
  - now left.
  - now left.
  - right. split; [reflexivity|]. now apply (IH b).
Qed.

Lemma tuple_trichotomy (a b : list Z) :
  tuple_ltb a b = true \/ a = b \/ tuple_ltb b a = true.
Proof.
  revert b. induction a as [|x a IH]; intros [|y b].
  - right. now left.
  - now left.
  - right. now right.
  - rewrite !tuple_ltb_cons.
    destruct (Z.lt_trichotomy x y) as [H|[->|H]].
    + left. now left.
    + destruct (IH b) as [H|[->|H]].
      * left. now right.
      * right. now left.
      * right. right. now right.
    + right. right. now left.
Qed.

Lemma tuple_ltb_between (a b c : list Z) :
  tuple_ltb a c = true -> tuple_ltb a b = true \/ tuple_ltb b c = true.
Proof.
  intros H. destruct (tuple_trichotomy a b) as [Hab|[->|Hba]].
  - now left.
  - now right.
  - right. now apply (tuple_ltb_trans b a c).
Qed.

(** ** DockerImageChecker._version_key *)

(** X17.  [_version_key] reads the part of a tag before its first hyphen
    only: tags that differ in their suffix ([-slim], [-alpine], a release
    candidate) have the same key, so their order after the sort is the
    order in which the registry lists them. *)
Theorem version_key_ignores_suffix (limit : nat) (v suffix : str) :
  has_char "-" v = false ->
  _version_key limit (v ++ "-" :: suffix) = _version_key limit v.
Proof.
  intros H. unfold _version_key.
  now rewrite (split_char_app "-" v suffix H), (split_char_none "-" v H).
Qed.

Lemma version_key_ignores_suffix_witness :
  _version_key 4300 (lit "3.11" ++ "-" :: lit "slim-bookworm")
  = _version_key 4300 (lit "3.11").
Proof. apply version_key_ignores_suffix. reflexivity. Defined.

(** ** DockerImageChecker._filter_and_sort_tags *)

(** X18.  With the version sort, [_filter_and_sort_tags] returns the last
    of the tags that pass the filter and have the greatest key: no passing
    tag before it has a greater key, every passing tag after it has a
    smaller one. *)
Theorem version_sort_latest (limit : nat) (tags : list str)
    (filter_tag : str -> bool) (t : str) :
  _filter_and_sort_tags limit tags filter_tag (lit "-V") = Returned (Some t) ->
  exists l1 l2,
    tags = l1 ++ t :: l2 /\ filter_tag t = true /\
    (forall u, In u l1 -> filter_tag u = true ->
       tuple_ltb (_version_key limit t) (_version_key limit u) = false) /\
    (forall u, In u l2 -> filter_tag u = true ->
       tuple_ltb (_version_key limit u) (_version_key limit t) = true).
Proof.
  unfold _filter_and_sort_tags. destruct tags as [|t0 tags0]; [discriminate|].
  set (tags := t0 :: tags0). clearbody tags.
  destruct (filter filter_tag tags) as [|x l] eqn:Ef; [discriminate|].
  cbn [str_eqb]. rewrite str_eqb_refl. intros [= <-].
  destruct (last_sorted_split tuple_ltb (_version_key limit)
              tuple_ltb_trans tuple_ltb_between x [] l)
    as (f1 & f2 & Hsplit & H1 & H2).
  set (t := last (py_sort tuple_ltb (_version_key limit) (x :: l)) []) in *.
  rewrite Hsplit in Ef.
  destruct (filter_split _ _ _ _ _ Ef) as (l1 & l2 & -> & <- & <-).
  exists l1, l2. split; [reflexivity|].
  assert (Ht : In t (filter filter_tag (l1 ++ t :: l2))).
  { rewrite Ef. apply in_or_app. right. now left. }
  apply filter_In in Ht. split; [tauto|]. split.
  - intros u Hu Hf. apply H1. now apply filter_In.
  - intros u Hu Hf. apply H2. now apply filter_In.
Qed.

Lemma version_sort_latest_witness :
  exists l1 l2,
    [lit "3.12-slim"; lit "3.9-slim"; lit "latest"; lit "3.12-slim-bookworm";
     lit "3.12.0-slim"; lit "3.11-slim"]
    = l1 ++ lit "3.12.0-slim" :: l2 /\
    python_slim (lit "3.12.0-slim") = true /\
    (forall u, In u l1 -> python_slim u = true ->
       tuple_ltb (_version_key 4300 (lit "3.12.0-slim")) (_version_key 4300 u)
       = false) /\
    (forall u, In u l2 -> python_slim u = true ->
       tuple_ltb (_version_key 4300 u) (_version_key 4300 (lit "3.12.0-slim"))
       = true).
Proof. apply version_sort_latest. reflexivity. Defined.

(** X19.  Whatever the sort method, [_filter_and_sort_tags] returns [None]
    exactly when no tag passes the filter. *)
Theorem filter_and_sort_none (limit : nat) (tags : list str)
    (filter_tag : str -> bool) (method : str) :
  _filter_and_sort_tags limit tags filter_tag method = Returned None <->
  forall u, In u tags -> filter_tag u = false.
Proof.
  rewrite <- filter_nil_iff. unfold _filter_and_sort_tags.
  destruct tags as [|t0 tags0]; [now split|].
  destruct (filter filter_tag (t0 :: tags0)) as [|x l]; [now split|].
  split; [|discriminate].
  destruct (str_eqb method (lit "-V")); [discriminate|].
  destruct (str_eqb method (lit "-n")); [|discriminate].
  now destruct (forallb _ (x :: l)).
Qed.

(** ** The numeric sort and the limit of [int] *)

Lemma digit_not_int_space (c : ascii) :
  is_digit c = true -> is_int_space c = false.
Proof. by_cases_on_char c. Qed.

Lemma drop_while_digits (s : str) :
  forallb is_digit s = true -> drop_while is_int_space s = s.
Proof.
  destruct s as [|c s]; [reflexivity|]. simpl. intros H.
  apply andb_prop in H as [H _]. now rewrite (digit_not_int_space c H).
Qed.

Lemma int_strip_digits (s : str) :
  forallb is_digit s = true -> int_strip s = s.
Proof.
  intros H. unfold int_strip. rewrite (drop_while_digits s H).
  rewrite drop_while_digits; [apply rev_involutive|].
  apply forallb_forall. intros c Hc. apply in_rev in Hc.
  now apply (proj1 (forallb_forall _ _) H).
Qed.

Lemma digit_groups_cons (d d' : ascii) (r : str) :
  is_digit d = true -> is_digit d' = true ->
  digit_groups (d :: d' :: r) =
  match digit_groups (d' :: r) with
  | Some ds => Some (d :: ds)
  | None => None
  end.
Proof.
  intros Hd Hd'. revert Hd'.
  destruct d' as [[] [] [] [] [] [] [] []]; intros Hd';
    vm_compute in Hd'; try discriminate Hd';
    simpl; rewrite Hd; reflexivity.
Qed.

Lemma digit_groups_digits (s : str) :
  s <> [] -> forallb is_digit s = true -> digit_groups s = Some s.
Proof.
  induction s as [|d s IH]; [now intros H|]. intros _ H.
  simpl in H. apply andb_prop in H as [Hd Hs].
  destruct s as [|d' r].
  - simpl. now rewrite Hd.
  - pose proof Hs as Hs'. simpl in Hs'. apply andb_prop in Hs' as [Hd' _].
    rewrite (digit_groups_cons d d' r Hd Hd'), IH; [reflexivity| |exact Hs].
    discriminate.
Qed.

Lemma py_int_digits (limit : nat) (x : str) :
  x <> [] -> forallb is_digit x = true ->
  py_int limit x =
  if (0 <? limit)%nat && (limit <? List.length x)%nat then None
  else Some (Z.of_N (int_of x)).
Proof.
  destruct x as [|d r]; [now intros H|]. intros _ H.
  unfold py_int. rewrite (int_strip_digits _ H).
  pose proof (digit_groups_digits (d :: r) ltac:(discriminate) H) as Hg.
  simpl in H. apply andb_prop in H as [Hd _].
  revert Hg Hd.
  destruct d as [[] [] [] [] [] [] [] []]; intros Hg Hd;
    vm_compute in Hd; try discriminate Hd;
    cbv beta iota; rewrite Hg; reflexivity.
Qed.

Lemma digit_like_not_int_space (c : ascii) :
  is_digit_like c = true -> is_int_space c = false.
Proof. by_cases_on_char c. Qed.

Lemma digit_like_decimal (c : ascii) :
  is_digit_like c = true -> is_digit c || Ascii.eqb c "_" = true ->
  is_digit c = true.
Proof. by_cases_on_char c. Qed.

Lemma int_strip_digit_like (s : str) :
  forallb is_digit_like s = true -> int_strip s = s.
Proof.
  assert (Hdrop : forall t, forallb is_digit_like t = true ->
                            drop_while is_int_space t = t).
  { intros [|c t]; [reflexivity|]. simpl. intros H.
    apply andb_prop in H as [H _].
    now rewrite (digit_like_not_int_space c H). }
  intros H. unfold int_strip. rewrite (Hdrop s H).
  rewrite Hdrop; [apply rev_involutive|].
  apply forallb_forall. intros c Hc. apply in_rev in Hc.
  now apply (proj1 (forallb_forall _ _) H).
Qed.

Lemma digit_groups_step (d x : ascii) (s : str) :
  digit_groups (d :: x :: s) =
  if is_digit d
  then match (if Ascii.eqb x "_" then digit_groups s
              else digit_groups (x :: s)) with
       | Some ds => Some (d :: ds)
       | None => None
       end
  else None.
Proof. destruct x as [[] [] [] [] [] [] [] []]; reflexivity. Qed.

(** A numeral of [int] is made of decimal digits and underscores. *)
Lemma digit_groups_chars (s : str) :
  (forall ds, digit_groups s = Some ds ->
     forallb (fun c => is_digit c || Ascii.eqb c "_") s = true) /\
  (forall d ds, digit_groups (d :: s) = Some ds ->
     forallb (fun c => is_digit c || Ascii.eqb c "_") (d :: s) = true).
Proof.
  induction s as [|x s [IH1 IH2]].
  - split; [discriminate|]. intros d ds. simpl.
    destruct (is_digit d); [reflexivity|discriminate].
  - split; [apply IH2|]. intros d ds. rewrite digit_groups_step.
    destruct (is_digit d) eqn:Ed; [|discriminate].
    cbn [forallb]. rewrite Ed. cbn [orb andb].
    destruct (Ascii.eqb x "_") eqn:Ex.
    + destruct (digit_groups s) as [ds'|] eqn:E; [|discriminate].
      intros _. rewrite orb_true_r. cbn [andb]. now apply (IH1 ds').
    + destruct (digit_groups (x :: s)) as [ds'|] eqn:E; [|discriminate].
      intros _. pose proof (IH2 x ds' E) as H.
      cbn [forallb] in H. now rewrite Ex in H.
Qed.

Lemma py_int_not_decimal (limit : nat) (x : str) :
  isdigit x = true -> forallb is_digit x = false -> py_int limit x = None.
Proof.
  unfold isdigit. destruct x as [|d r]; [discriminate|]. intros H Hnot.
  unfold py_int. rewrite (int_strip_digit_like _ H).
  assert (Hg : digit_groups (d :: r) = None).
  { destruct (digit_groups (d :: r)) as [ds|] eqn:E; [|reflexivity].
    exfalso. apply (proj1 (digit_groups_chars (d :: r))) in E.
    rewrite forallb_forall in H, E.
    assert (Hall : forallb is_digit (d :: r) = true).
    { apply forallb_forall. intros c Hc.
      apply digit_like_decimal; [now apply H|now apply E]. }
    congruence. }
  simpl in H. apply andb_prop in H as [Hd _].
  revert Hg Hd.
  destruct d as [[] [] [] [] [] [] [] []]; intros Hg Hd;
    vm_compute in Hd; try discriminate Hd;
    cbv beta iota; rewrite Hg; reflexivity.
Qed.

Lemma forallb_false {A} (p : A -> bool) (l : list A) :
  forallb p l = false -> exists x, In x l /\ p x = false.
Proof.
  induction l as [|y l IH]; [discriminate|]. simpl.
  destruct (p y) eqn:E.
  - intros H. destruct (IH H) as (x & Hx & Hp). exists x. now split; [right|].
  - intros _. exists y. now split; [left|].
Qed.

Lemma numeric_key_none (limit : nat) (x : str) :
  numeric_key limit x = None <->
  isdigit x = true /\
  (forallb is_digit x = false \/ 0 < limit < List.length x).
Proof.
  unfold numeric_key. destruct (isdigit x) eqn:E.
  - destruct (forallb is_digit x) eqn:Ed.
    + assert (Hx : x <> []) by (intros ->; discriminate E).
      rewrite (py_int_digits limit x Hx Ed).
      destruct (Nat.ltb_spec 0 limit) as [H0|H0];
        destruct (Nat.ltb_spec limit (List.length x)) as [H1|H1]; cbn [andb].
      * split; [intros _; split; [reflexivity|right; lia]|reflexivity].
      * split; [discriminate|intros [_ [H|H]]; [discriminate|lia]].
      * split; [discriminate|intros [_ [H|H]]; [discriminate|lia]].
      * split; [discriminate|intros [_ [H|H]]; [discriminate|lia]].
    + rewrite (py_int_not_decimal limit x E Ed).
      split; [intros _; split; [reflexivity|now left]|reflexivity].
  - split; [discriminate|]. now intros [H _].
Qed.

(** X20.  The numeric sort raises exactly when [int] raises on a tag that
    passes the filter and that [isdigit] accepts: the tag holds a digit
    that is no decimal digit (a superscript), or it has more digits than
    [int] converts.  The version sort and the unsorted choice never
    raise. *)
Theorem numeric_sort_raises (limit : nat) (tags : list str)
    (filter_tag : str -> bool) (method : str) :
  _filter_and_sort_tags limit tags filter_tag method = Raised <->
  method = lit "-n" /\
  exists u, In u tags /\ filter_tag u = true /\
            isdigit u = true /\
            (forallb is_digit u = false \/ 0 < limit < List.length u).
Proof.
  unfold _filter_and_sort_tags.
  destruct tags as [|t0 tags0].
  { split; [discriminate|]. now intros (_ & u & [] & _). }
  set (tags := t0 :: tags0). clearbody tags.
  destruct (filter filter_tag tags) as [|x l] eqn:Ef.
  { split; [discriminate|]. intros (_ & u & Hu & Hf & _).
    assert (H : In u (filter filter_tag tags)) by now apply filter_In.
    now rewrite Ef in H. }
  destruct (str_eqb method (lit "-V")) eqn:EV.
  { split; [discriminate|]. intros (-> & _). discriminate EV. }
  destruct (str_eqb method (lit "-n")) eqn:En.
  2:{ split; [discriminate|]. intros (-> & _). discriminate En. }
  apply str_eqb_eq in En. rewrite <- Ef.
  destruct (forallb _ (filter filter_tag tags)) eqn:Eall.
  - split; [discriminate|]. intros (_ & u & Hu & Hf & Hd).
    rewrite forallb_forall in Eall.
    specialize (Eall u (proj2 (filter_In _ _ _) (conj Hu Hf))).
    now rewrite (proj2 (numeric_key_none limit u) Hd) in Eall.
  - split; [|reflexivity]. intros _. split; [exact En|].
    apply forallb_false in Eall. destruct Eall as (u & Hu & Hk).
    apply filter_In in Hu. destruct Hu as [Hu Hf].
    exists u. split; [exact Hu|]. split; [exact Hf|].
    apply numeric_key_none. now destruct (numeric_key limit u).
Qed.

(** An instance: the one-character tag made of a superscript two makes the
    numeric sort raise, whatever the limit. *)
Lemma numeric_sort_superscript (limit : nat) :
  _filter_and_sort_tags limit [["178"]; lit "7"] (fun _ => true) (lit "-n")
  = Raised.
Proof. reflexivity. Qed.

(** ** The version of the Dockerfile, read by the checker and by the
    updater *)

(** X21.  [DockerImageChecker._get_current_image_version] and
    [DockerfileUpdater.get_current_image_version] read the same version on
    every Dockerfile: the test the updater makes for an empty file changes
    nothing. *)
Theorem current_version_agree (fs : FileSystem) (image_name : str) :
  _get_current_image_version fs image_name
  = get_current_image_version fs image_name.
Proof.
  unfold _get_current_image_version, get_current_image_version,
    read_dockerfile.
  destruct (dockerfile fs) as [text|]; [|reflexivity].
  now destruct (universal_newlines text).
Qed.

(** ** DockerImageChecker.check_all_updates *)

Section Checks.

Variable limit : nat.
Variable fetch : str -> outcome (option (list str)).

Lemma check_loop (fs : FileSystem) (configs : list ImageConfig) :
  forall updates_needed,
    fold_left
      (fun updates_needed image_config =>
         match check_image_update limit fetch fs image_config with
         | Returned true => true
         | _ => updates_needed
         end) configs updates_needed = true <->
    updates_needed = true \/
    exists image_config,
      In image_config configs /\
      check_image_update limit fetch fs image_config = Returned true.
Proof.
  induction configs as [|c configs IH]; intros b; cbn [fold_left].
  - split; [now left|]. now intros [H|(c & [] & _)].
  - rewrite IH. split.
    + intros [H|(c' & Hin & Hc)].
      * destruct (check_image_update limit fetch fs c) as [[|]|] eqn:E;
          try (now left).
        right. exists c. split; [now left|exact E].
      * right. exists c'. split; [now right|exact Hc].
    + intros [->|(c' & [<-|Hin] & Hc)].
      * left. now destruct (check_image_update limit fetch fs c) as [[|]|].
      * left. now rewrite Hc.
      * right. now exists c'.
Qed.

(** X22.  [check_all_updates] answers [True] exactly when the check of one
    of the configured images answers [True]: an image whose check returns
    [False] or raises hides no update of another image. *)
Theorem check_all_updates_any (fs : FileSystem) (configs : list ImageConfig) :
  check_all_updates limit fetch fs configs = true <->
  exists image_config,
    In image_config configs /\
    check_image_update limit fetch fs image_config = Returned true.
Proof.
  unfold check_all_updates. rewrite check_loop.
  split; [now intros [H|H]|now right].
Qed.

End Checks.

(** ** DockerfileUpdater.update_all_images *)

Lemma backup_keeps (ws : Workspace) :
  files (snd (backup_dockerfile ws)) = files ws /\
  present (snd (backup_dockerfile ws)) = present ws.
Proof.
  unfold backup_dockerfile.
  destruct (read_dockerfile (files ws)); [|now split].
  destruct (backup_writable ws); now split.
Qed.

Lemma backup_taken (ws : Workspace) (content : str) :
  read_dockerfile (files ws) = Some content ->
  backup_writable ws = true ->
  backup (snd (backup_dockerfile ws)) = Some content.
Proof. intros Hr Hw. unfold backup_dockerfile. now rewrite Hr, Hw. Qed.

Section UpdateAll.

Variable limit : nat.
Variable fetch : str -> outcome (option (list str)).
Variable expand_template : str -> str -> option str.

Lemma update_all_unfold (ws : Workspace) (configs : list ImageConfig) :
  present ws = true ->
  update_all_images limit fetch expand_template ws configs =
  let ws1 := snd (backup_dockerfile ws) in
  let state :=
    fold_left (update_step limit fetch expand_template) configs
      (files ws, [], true) in
  ((snd state, snd (fst state)),
   mkWorkspace (fst (fst state)) true (backup ws1) (backup_writable ws1)).
Proof.
  intros Hp. unfold update_all_images, check_file_exists. rewrite Hp.
  cbn [negb]. destruct (backup_keeps ws) as [Hf Hpr].
  destruct (backup_dockerfile ws) as [b ws1]. cbn [snd] in *.
  rewrite Hf, Hpr, Hp.
  now destruct (fold_left _ configs (files ws, [], true)) as [[fs u] ok].
Qed.

Lemma update_loop_skips (configs : list ImageConfig) :
  (forall image_config, In image_config configs ->
     fetch (config_name image_config) = Returned None \/
     fetch (config_name image_config) = Returned (Some [])) ->
  forall state,
    fold_left (update_step limit fetch expand_template) configs state = state.
Proof.
  induction configs as [|c configs IH]; intros H state; [reflexivity|].
  cbn [fold_left].
  assert (E : update_step limit fetch expand_template state c = state).
  { unfold update_step. destruct state as [[fs u] ok].
    destruct (H c (or_introl eq_refl)) as [-> | ->]; reflexivity. }
  rewrite E. apply IH. intros c' Hc'. apply H. now right.
Qed.

(** X23.  When Docker Hub gives no tag for any configured image (the query
    fails, or the list is empty), [update_all_images] reports success with
    an empty list of updates and leaves the Dockerfile untouched; only the
    backup may have been written. *)
Theorem update_all_without_tags (ws : Workspace)
    (configs : list ImageConfig) :
  present ws = true ->
  (forall image_config, In image_config configs ->
     fetch (config_name image_config) = Returned None \/
     fetch (config_name image_config) = Returned (Some [])) ->
  fst (update_all_images limit fetch expand_template ws configs) = (true, [])
  /\ files (snd (update_all_images limit fetch expand_template ws configs))
     = files ws.
Proof.
  intros Hp H. rewrite (update_all_unfold ws configs Hp). cbv zeta.
  rewrite (update_loop_skips configs H). now split.
Qed.

(** X24.  An image that the Dockerfile already holds at the latest tag is
    listed among the updated images although nothing is written: the check
    answers that no update is needed, and [update_all_images] returns
    success with that image in its list and the Dockerfile as it was. *)
Theorem update_all_already_latest (ws : Workspace)
    (image_config : ImageConfig) (tags : list str) (latest : str) :
  present ws = true ->
  fetch (config_name image_config) = Returned (Some tags) ->
  _filter_and_sort_tags limit tags (tag_filter image_config)
    (sort_method image_config) = Returned (Some latest) ->
  get_current_image_version (files ws) (config_name image_config)
  = Some latest ->
  check_image_update limit fetch (files ws) image_config = Returned false /\
  fst (update_all_images limit fetch expand_template ws [image_config])
  = (true, [config_name image_config ++ ":" :: latest]) /\
  files (snd (update_all_images limit fetch expand_template ws [image_config]))
  = files ws.
Proof.
  intros Hp Hfetch Hsort Hcur.
  destruct (current_version_read _ _ _ Hcur) as (Hne & c & content & Hread).
  destruct latest as [|v0 latest0]; [now elim Hne|].
  destruct tags as [|t0 tags0]; [discriminate Hsort|].
  assert (Hcur' : _get_current_image_version (files ws)
                    (config_name image_config) = Some (v0 :: latest0)).
  { revert Hcur.
    unfold _get_current_image_version, get_current_image_version,
      read_dockerfile.
    destruct (dockerfile (files ws)) as [text|]; [|discriminate].
    now destruct (universal_newlines text). }
  assert (Hup : update_image_version expand_template (files ws)
                  (config_name image_config) (v0 :: latest0)
                = (Returned true, files ws)).
  { unfold update_image_version. rewrite Hread, Hcur.
    now rewrite str_eqb_refl. }
  split; [|rewrite (update_all_unfold ws [image_config] Hp); cbv zeta;
           cbn [fold_left]; unfold update_step;
           rewrite Hfetch, Hsort, Hup; now split].
  unfold check_image_update. rewrite Hfetch, Hsort, Hcur'.
  now rewrite str_eqb_refl.
Qed.

(** X25.  After a run of [update_all_images] for one image that lists an
    update, the check of that image on the Dockerfile it leaves answers
    that no update is needed, as long as Docker Hub answers the same. *)
Theorem updated_then_checked (ws : Workspace) (image_config : ImageConfig) :
  snd (fst (update_all_images limit fetch expand_template ws [image_config]))
  <> [] ->
  check_image_update limit fetch
    (files (snd (update_all_images limit fetch expand_template ws
                   [image_config])))
    image_config
  = Returned false.
Proof.
  destruct (present ws) eqn:Hp.
  2:{ unfold update_all_images, check_file_exists. rewrite Hp.
      intros H. now elim H. }
  rewrite (update_all_unfold ws [image_config] Hp). cbv zeta.
  cbn [fold_left]. unfold update_step, check_image_update.
  destruct (fetch (config_name image_config)) as [[[|t0 tags0]|]|];
    try (intros H; now elim H).
  destruct (_filter_and_sort_tags limit (t0 :: tags0) (tag_filter image_config)
              (sort_method image_config)) as [[[|v0 latest0]|]|];
    try (intros H; now elim H).
  destruct (update_image_version expand_template (files ws)
              (config_name image_config) (v0 :: latest0))
    as [[[|]|] fs'] eqn:Eup; try (intros H; now elim H).
  intros _. cbn [fst snd files].
  apply update_success in Eup.
  assert (Hcur : _get_current_image_version fs' (config_name image_config)
                 = Some (v0 :: latest0)).
  { revert Eup.
    unfold _get_current_image_version, get_current_image_version,
      read_dockerfile.
    destruct (dockerfile fs') as [text|]; [|discriminate].
    now destruct (universal_newlines text). }
  rewrite Hcur. now rewrite str_eqb_refl.
Qed.

End UpdateAll.

(** X26.  The backup that [update_all_images] takes holds the text of the
    Dockerfile as it is read before the run, every line end turned into a
    line feed, whatever the updates then write: it is the file as it was
    exactly when the file holds no carriage return. *)
Theorem backup_holds_text (limit : nat)
    (fetch : str -> outcome (option (list str)))
    (expand_template : str -> str -> option str)
    (ws : Workspace) (configs : list ImageConfig) (text : str) :
  present ws = true ->
  dockerfile (files ws) = Some text ->
  backup_writable ws = true ->
  backup (snd (update_all_images limit fetch expand_template ws configs))
  = Some (universal_newlines text) /\
  (backup (snd (update_all_images limit fetch expand_template ws configs))
   = Some text <-> has_char "013" text = false).
Proof.
  intros Hp Hd Hw.
  assert (E : backup (snd (update_all_images limit fetch expand_template ws
                             configs))
              = Some (universal_newlines text)).
  { rewrite (update_all_unfold limit fetch expand_template ws configs Hp).
    cbv zeta. cbn [snd backup]. apply backup_taken; [|exact Hw].
    unfold read_dockerfile. now rewrite Hd. }
  split; [exact E|]. rewrite E, <- universal_newlines_changed.
  split; congruence.
Qed.

Lemma update_all_without_tags_witness :
  let ws :=
    mkWorkspace (mkFileSystem (Some (lit "FROM python:3.9-slim")) true)
      true None true in
  fst (update_all_images 4300 (fun _ => Returned None) plain_template ws
         IMAGE_CONFIGS) = (true, [])
  /\ files (snd (update_all_images 4300 (fun _ => Returned None)
                   plain_template ws IMAGE_CONFIGS))
     = files ws.
Proof.
  intros ws. apply update_all_without_tags; [reflexivity|].
  intros image_config _. now left.
Defined.

Lemma update_all_already_latest_witness :
  let ws :=
    mkWorkspace (mkFileSystem (Some (lit "FROM python:3.12-slim")) true)
      true None true in
  let fetch := fun _ : str =>
    Returned (Some [lit "3.12-slim"; lit "3.9-slim"; lit "latest"]) in
  let image_config :=
    mkImageConfig (lit "python") python_slim (lit "-V") (lit "Python slim") in
  check_image_update 4300 fetch (files ws) image_config = Returned false /\
  fst (update_all_images 4300 fetch plain_template ws [image_config])
  = (true, [config_name image_config ++ ":" :: lit "3.12-slim"]) /\
  files (snd (update_all_images 4300 fetch plain_template ws [image_config]))
  = files ws.
Proof.
  intros ws fetch image_config.
  apply (update_all_already_latest 4300 fetch plain_template ws image_config
           [lit "3.12-slim"; lit "3.9-slim"; lit "latest"]);
    reflexivity.
Defined.

Lemma updated_then_checked_witness :
  let ws :=
    mkWorkspace (mkFileSystem (Some (lit "FROM python:3.9-slim")) true)
      true None true in
  let fetch := fun _ : str =>
    Returned (Some [lit "3.12-slim"; lit "3.9-slim"; lit "latest"]) in
  snd (fst (update_all_images 4300 fetch plain_template ws IMAGE_CONFIGS))
  = [lit "python:3.12-slim"] /\
  check_image_update 4300 fetch
    (files (snd (update_all_images 4300 fetch plain_template ws
                   IMAGE_CONFIGS)))
    (mkImageConfig (lit "python") python_slim (lit "-V") (lit "Python slim"))
  = Returned false.
Proof.
  intros ws fetch. split; [reflexivity|].
  apply (updated_then_checked 4300 fetch plain_template ws).
  vm_compute. discriminate.
Defined.

Lemma backup_holds_text_witness :
  let ws :=
    mkWorkspace
      (mkFileSystem
         (Some (lit "FROM python:3.9-slim" ++ "013" :: "010" :: lit "CMD app"))
         true)
      true None true in
  let fetch := fun _ : str =>
    Returned (Some [lit "3.12-slim"; lit "3.9-slim"]) in
  backup (snd (update_all_images 4300 fetch plain_template ws IMAGE_CONFIGS))
  = Some (lit "FROM python:3.9-slim" ++ "010" :: lit "CMD app") /\
  (backup (snd (update_all_images 4300 fetch plain_template ws IMAGE_CONFIGS))
   = Some (lit "FROM python:3.9-slim" ++ "013" :: "010" :: lit "CMD app")
   <-> has_char "013"
         (lit "FROM python:3.9-slim" ++ "013" :: "010" :: lit "CMD app")
       = false).
Proof.
  intros ws fetch.
  exact (backup_holds_text 4300 fetch plain_template ws IMAGE_CONFIGS
           (lit "FROM python:3.9-slim" ++ "013" :: "010" :: lit "CMD app")
           eq_refl eq_refl eq_refl).
Defined.

(* ================================================================== *)
(** * Properties of the configuration and of the environment files *)
(* ================================================================== *)

(** ** write_env_file and read_env_file *)

Lemma file_lines_one (s : str) :
  has_char "010" s = false -> file_lines (s ++ ["010"]) = [s ++ ["010"]].
Proof.
  induction s as [|c s IH]; [reflexivity|].
  rewrite has_char_cons. intros H. apply orb_false_elim in H as [Hc Hs].
  cbn [app file_lines]. rewrite Ascii.eqb_sym, Hc. now rewrite (IH Hs).
Qed.

Lemma split_first_app (c : ascii) (key value : str) :
  has_char c key = false ->
  split_first c (key ++ c :: value) = Some (key, value).
Proof.
  induction key as [|x key IH]; intros H.
  - simpl. now rewrite Ascii.eqb_refl.
  - rewrite has_char_cons in H. apply orb_false_elim in H as [Hx Hk].
    cbn [app split_first]. rewrite Ascii.eqb_sym, Hx. now rewrite (IH Hk).
Qed.

Lemma rstrip_fixed_not_blank (s : str) :
  s <> [] -> rstrip s = s -> ~ blank s.
Proof.
  intros Hne Hr Hb. apply Hne. rewrite <- Hr.
  rewrite <- (app_nil_l s). now rewrite (rstrip_blank [] s Hb).
Qed.

(** One variable written by [write_env_file] is read back by
    [read_env_file] when its name holds no [=], starts with a character
    that is neither blank nor [#], and its value holds no line end and does
    not end in a blank. *)
Lemma env_line_read (k0 : ascii) (key value : str) :
  is_space k0 = false -> Ascii.eqb k0 "#" = false ->
  has_char "=" (k0 :: key) = false ->
  has_char "010" (k0 :: key) = false -> has_char "013" (k0 :: key) = false ->
  value <> [] -> rstrip value = value ->
  has_char "010" value = false -> has_char "013" value = false ->
  fold_left read_env_line
    (file_lines (universal_newlines (env_text [(k0 :: key, value)]))) []
  = [(k0 :: key, value)].
Proof.
  intros Hk0 Hhash Heq Hklf Hkcr Hne Hr Hlf Hcr.
  pose proof (rstrip_fixed_not_blank value Hne Hr) as Hnb.
  cbn [env_text].
  replace ((k0 :: key) ++ "=" :: value ++ ["010"])
    with (((k0 :: key) ++ "=" :: value) ++ ["010"]) by reassociate.
  set (line := (k0 :: key) ++ "=" :: value).
  assert (Hline_cr : has_char "013" (line ++ ["010"]) = false).
  { unfold line. rewrite !has_char_app, Hkcr, has_char_cons, Hcr.
    reflexivity. }
  assert (Hline_lf : has_char "010" line = false).
  { unfold line. rewrite has_char_app, Hklf, has_char_cons, Hlf.
    reflexivity. }
  rewrite (universal_newlines_id _ Hline_cr), (file_lines_one _ Hline_lf).
  cbn [fold_left]. unfold read_env_line.
  assert (Hstrip : strip (line ++ ["010"]) = line).
  { unfold strip, line. cbn [app]. rewrite (lstrip_keep k0 _ Hk0).
    replace (k0 :: (key ++ "=" :: value) ++ ["010"])
      with (((k0 :: key ++ ["="]) ++ value) ++ ["010"]) by reassociate.
    rewrite (rstrip_blank _ ["010"] eq_refl), (rstrip_app _ value Hnb), Hr.
    reassociate. }
  rewrite Hstrip.
  assert (Hhas : has_char "=" line = true).
  { unfold line. rewrite has_char_app, Heq, has_char_cons, Ascii.eqb_refl.
    reflexivity. }
  assert (Hstart : startswith (lit "#") line = false).
  { unfold line. cbn [app]. apply (startswith_head [] _ "#" k0).
    intros <-. now rewrite Ascii.eqb_refl in Hhash. }
  rewrite Hhas, Hstart. cbn [negb andb].
  unfold line. now rewrite (split_first_app "=" (k0 :: key) value Heq).
Qed.

(** ** EnvironmentManager *)

(** X27.  The feature branch handed from one stage of the pipeline to the
    next: what [set_feature_branch] writes, [get_feature_branch] reads
    back, when the process variable [FEATURE_BRANCH] is not set (or empty)
    and the name is not empty, holds no line end and does not end in a
    blank. *)
Theorem feature_branch_round_trip (env : Environment) (branch_name : str) :
  env_writable env (lit "branch.env") = true ->
  truthy (environ env (lit "FEATURE_BRANCH")) = false ->
  branch_name <> [] -> rstrip branch_name = branch_name ->
  has_char "010" branch_name = false -> has_char "013" branch_name = false ->
  exists env',
    set_feature_branch env branch_name = Returned env' /\
    get_feature_branch env' = Some branch_name.
Proof.
  intros Hw Henv Hne Hr Hlf Hcr.
  unfold set_feature_branch, write_env_file. rewrite Hw.
  eexists. split; [reflexivity|].
  unfold get_feature_branch. cbn [environ].
  assert (Hread :
    forall files,
      read_env_file
        (mkEnvironment (environ env)
           (fun f => if str_eqb f (lit "branch.env")
                     then Some (env_text [(lit "FEATURE_BRANCH", branch_name)])
                     else files f)
           (env_writable env))
        (lit "branch.env")
      = [(lit "FEATURE_BRANCH", branch_name)]).
  { intros files. unfold read_env_file. cbn [env_files].
    rewrite str_eqb_refl.
    apply (env_line_read "F" (lit "EATURE_BRANCH") branch_name);
      assumption || reflexivity. }
  rewrite Hread. cbn [dict_get]. rewrite str_eqb_refl.
  destruct branch_name as [|b branch]; [now elim Hne|].
  now destruct (environ env (lit "FEATURE_BRANCH")) as [[|c v]|].
Qed.

Lemma feature_branch_round_trip_witness :
  exists env',
    set_feature_branch
      (mkEnvironment (fun _ => None) (fun _ => None) (fun _ => true))
      (lit "feature/update-base-images-42") = Returned env' /\
    get_feature_branch env' = Some (lit "feature/update-base-images-42").
Proof.
  apply feature_branch_round_trip; try reflexivity. discriminate.
Defined.



(** ** Config.get_repo_url *)

Lemma replace_absent (old new s : str) :
  old <> [] -> contains old s = false -> replace old new s = s.
Proof.
  intros Hold. induction s as [|c s IH]; [intros _; apply replace_nil|].
  cbn [contains]. intros H. apply orb_false_elim in H as [Hs Hc].
  now rewrite (replace_skip old new c s Hold Hs), (IH Hc).
Qed.

(** X29.  A configuration that [validate] accepts gives a repository URL;
    and for a project URL made of a scheme without colon, [://] and a rest
    in which [://] does not occur again, [get_repo_url] puts
    [oauth2:token@] between the [://] and the rest.  (Every [://] of the
    URL is replaced, so a URL with a second one gets the token twice.) *)
Theorem repo_url_with_token (config : Config) :
  (validate config = true ->
   exists url, get_repo_url config = Returned url) /\
  (forall scheme rest token,
     ci_project_url config = Some (scheme ++ lit "://" ++ rest) ->
     access_token config = Some token -> token <> [] ->
     has_char ":" scheme = false ->
     contains (lit "://") rest = false ->
     get_repo_url config
     = Returned (scheme ++ lit "://oauth2:" ++ token ++ lit "@" ++ rest)).
Proof.
  split.
  - unfold validate, get_repo_url, truthy.
    destruct (access_token config) as [[|t token]|],
      (ci_project_id config) as [[|i id]|],
      (ci_project_url config) as [[|u url]|],
      (ci_api_v4_url config) as [[|a api]|];
      simpl; intros H; try discriminate H; eexists; reflexivity.
  - intros scheme rest token Hu Ht Hne Hscheme Hrest.
    unfold get_repo_url. rewrite Hu, Ht.
    destruct token as [|t token]; [now elim Hne|].
    destruct (scheme ++ lit "://" ++ rest) as [|u url] eqn:E.
    { destruct scheme; discriminate E. }
    rewrite <- E. f_equal.
    rewrite (replace_first ":" (lit "://") _ scheme rest eq_refl Hscheme).
    assert (Hold : lit "://" <> []) by discriminate.
    rewrite (replace_absent _ _ rest Hold Hrest).
    reassociate.
Qed.

Lemma repo_url_with_token_witness :
  get_repo_url
    (mkConfig (Some (lit "glpat-abc")) (Some (lit "42"))
       (Some (lit "https" ++ lit "://" ++ lit "gitlab.com/group/app.git"))
       (Some (lit "https://gitlab.com/api/v4")))
  = Returned (lit "https" ++ lit "://oauth2:" ++ lit "glpat-abc" ++ lit "@"
              ++ lit "gitlab.com/group/app.git").
Proof.
  apply (proj2 (repo_url_with_token _)); try reflexivity. discriminate.
Defined.
